(** * Focal loss for LightGBM and its hyperparameter search

    A shallow embedding of [examples/Hyperopt_LightGBM_with_Focal_Loss.ipynb]:
    the numeric cell ([sigmoid], [focal_loss_lgb], [lgb_focal_f1_score]),
    the trial runner ([objective]) and the two search cells, the second
    with its final fit and predictions.

    Python values are modelled as follows.
    - A float64 is an element of a carrier [F] with the operations the
      notebook uses (class [Float64]); what is proved for every carrier
      holds whatever the float arithmetic is.  Two carriers are given.
      [np_float] is the reals extended with [inf], [-inf] and [nan] and
      with overflow past the largest finite double; it follows IEEE 754
      on special values and does not round to 53 bits, and what is stated
      in it is about special values, overflow, order and identities of
      the float operations.  The real numbers are exact arithmetic: what
      the stencils of the gradient and Hessian would be if nothing
      rounded or overflowed.
    - A numpy operand is a [ndval]: a scalar or a one-dimensional array,
      combined by numpy's broadcasting rule.
    - A raised exception is the [Raise] branch of [result]; stateful code
      threads a [state] and keeps the mutations made before a raise. *)

From Stdlib Require Import Reals Lra Lia ZArith QArith Qreals.
From stdpp Require Import base option list gmap strings.

(** ** Exceptions *)

Inductive pyexn : Type :=
| KeyError
| IndexError
| ValueError
| OverflowError
| TypeError
| AllTrialsFailed.

Inductive result (A : Type) : Type :=
| Ok (a : A)
| Raise (e : pyexn).
Arguments Ok {A} a.
Arguments Raise {A} e.

#[global] Instance result_ret : MRet result := fun A a => Ok a.
#[global] Instance result_bind : MBind result := fun A B f m =>
  match m with
  | Ok a => f a
  | Raise e => Raise e
  end.

(** ** float64 arithmetic as an interface *)

Class Float64 (F : Type) : Type := {
  fcst : Q -> F;          (* a literal *)
  fadd : F -> F -> F;
  fsub : F -> F -> F;
  fmul : F -> F -> F;
  fdiv : F -> F -> F;
  fneg : F -> F;
  fexp : F -> F;          (* np.exp *)
  flog : F -> F;          (* np.log *)
  fpow : F -> F -> F;     (* ** *)
  fgt : F -> F -> bool    (* > *)
}.

(** ** numpy operands and broadcasting *)

Inductive ndval (F : Type) : Type :=
| Scalar (x : F)
| Array (xs : list F).
Arguments Scalar {F} x.
Arguments Array {F} xs.

Section NumPy.
Context {F : Type} `{Float64 F}.

(* A ufunc of one argument. *)
Definition umap (f : F -> F) (v : ndval F) : ndval F :=
  match v with
  | Scalar x => Scalar (f x)
  | Array xs => Array (map f xs)
  end.

(* A ufunc of two arguments: equal shapes combine pointwise, a scalar or
   an array of length one is stretched, any other pair of shapes raises
   ValueError (operands could not be broadcast together). *)
Definition bop (f : F -> F -> F) (u v : ndval F) : result (ndval F) :=
  match u, v with
  | Scalar x, Scalar y => Ok (Scalar (f x y))
  | Scalar x, Array ys => Ok (Array (map (f x) ys))
  | Array xs, Scalar y => Ok (Array (map (fun x => f x y) xs))
  | Array xs, Array ys =>
      if decide (length xs = length ys) then Ok (Array (zip_with f xs ys))
      else match xs, ys with
           | [x], _ => Ok (Array (map (f x) ys))
           | _, [y] => Ok (Array (map (fun x => f x y) xs))
           | _, _ => Raise ValueError
           end
  end.

Definition np_exp : ndval F -> ndval F := umap fexp.
Definition np_log : ndval F -> ndval F := umap flog.
Definition np_neg : ndval F -> ndval F := umap fneg.
Definition np_add := bop fadd.
Definition np_sub := bop fsub.
Definition np_mul := bop fmul.
Definition np_div := bop fdiv.
Definition np_pow := bop fpow.

(* Python number literals. *)
Definition one : F := fcst 1.
Definition zero : F := fcst 0.

(** *** Cell 1: sigmoid

    def sigmoid(x): return 1./(1. + np.exp(-x)) *)
Definition sigmoid (x : ndval F) : result (ndval F) :=
  d ← np_add (Scalar one) (np_exp (np_neg x));
  np_div (Scalar one) d.

(** *** Cell 1: the inner function fl of focal_loss_lgb

    p = 1/(1+np.exp(-x))
    return -( a*t + (1-a)*(1-t) ) * (( 1 - ( t*p + (1-t)*(1-p)) )**g)
           * ( t*np.log(p)+(1-t)*np.log(1-p) )

    a and g are the Python floats captured from the enclosing call. *)
Definition fl (a g : F) (x t : ndval F) : result (ndval F) :=
  d ← np_add (Scalar one) (np_exp (np_neg x));
  p ← np_div (Scalar one) d;
  at_ ← np_mul (Scalar a) t;
  t' ← np_sub (Scalar one) t;
  w0 ← np_mul (Scalar (fsub one a)) t';
  w ← np_add at_ w0;
  tp ← np_mul t p;
  p' ← np_sub (Scalar one) p;
  t'p' ← np_mul t' p';
  pt ← np_add tp t'p';
  b ← np_sub (Scalar one) pt;
  m ← np_pow b (Scalar g);
  l1 ← np_mul t (np_log p);
  l0 ← np_mul t' (np_log p');
  l ← np_add l1 l0;
  wm ← np_mul (np_neg w) m;
  np_mul wm l.

(** The loss of one sample as spec section 4.2 writes it,
    loss(x,t) = -(a t + (1-a)(1-t)) (1 - (t p + (1-t)(1-p)))^g
                 (t log p + (1-t) log(1-p))   with p = sigmoid(x),
    to be compared with [fl] ([fl_scalar], [fl_arrays]).  [focal] is the
    expression fl returns, as a function of the probability p. *)
Definition focal (a g p t : F) : F :=
  fmul
    (fmul (fneg (fadd (fmul a t) (fmul (fsub one a) (fsub one t))))
          (fpow (fsub one (fadd (fmul t p) (fmul (fsub one t) (fsub one p)))) g))
    (fadd (fmul t (flog p)) (fmul (fsub one t) (flog (fsub one p)))).

Definition loss (a g x t : F) : F :=
  focal a g (fdiv one (fadd one (fexp (fneg x)))) t.

(** The binary log-loss of one sample, -(t log p + (1-t) log(1-p)) with
    p = sigmoid(x): what the focal loss is a multiple of when gamma = 0. *)
Definition binary_log_loss (x t : F) : F :=
  let p := fdiv one (fadd one (fexp (fneg x))) in
  fneg (fadd (fmul t (flog p)) (fmul (fsub one t) (flog (fsub one p)))).

(** Modelled from the spec: scipy.misc.derivative, which the notebook
    imports and which is not defined in it.  Spec section 4.1 asks for
    the centred difference (n = 1) and the centred three-point stencil
    (n = 2) at every point of an array, divided by the matching power of
    the step; the definition computes them the way the library does with
    its default order = 3:

    if order < n + 1: raise ValueError
    n == 1: weights = array([-1,0,1])/2.0
    n == 2: weights = array([1,-2.0,1])
    otherwise: weights = central_diff_weights(order, n)
    val = 0.0
    ho = order >> 1
    for k in range(order):
        val += weights[k]*func(x0+(k-ho)*dx,*args)
    return val / product((dx,)*n,axis=0)

    For n = 0, central_diff_weights(3, 0) is [0, 1, 0]. *)
Definition weights (n : nat) : result (list F) :=
  match n with
  | 0%nat => Ok [zero; one; zero]
  | 1%nat => Ok [fdiv (fcst (-1)) (fcst 2); fdiv zero (fcst 2); fdiv one (fcst 2)]
  | 2%nat => Ok [one; fcst (-2); one]
  | _ => Raise ValueError
  end.

Fixpoint stencil (func : ndval F -> result (ndval F)) (x0 : ndval F) (dx : F)
    (ws : list F) (k : Z) (val : ndval F) : result (ndval F) :=
  match ws with
  | [] => Ok val
  | w :: ws' =>
      x ← np_add x0 (Scalar (fmul (fcst (inject_Z (k - 1))) dx));
      y ← func x;
      wy ← np_mul (Scalar w) y;
      val' ← np_add val wy;
      stencil func x0 dx ws' (k + 1) val'
  end.

Definition product (xs : list F) : F := fold_left fmul xs one.

Definition derivative (func : ndval F -> result (ndval F)) (x0 : ndval F)
    (dx : F) (n : nat) : result (ndval F) :=
  ws ← weights n;
  val ← stencil func x0 dx ws 0 (Scalar zero);
  np_div val (Scalar (product (replicate n dx))).

(* What the stencil computes at one point x: the weights w0, w1, w2 on
   f(x - h), f(x), f(x + h), summed from 0.0 in that order and divided
   by d. *)
Definition three_point (w0 w1 w2 : F) (f : F -> F) (x h d : F) : F :=
  fdiv
    (fadd (fadd (fadd zero
       (fmul w0 (f (fadd x (fmul (fcst (-1)) h)))))
       (fmul w1 (f (fadd x (fmul (fcst 0) h)))))
       (fmul w2 (f (fadd x (fmul (fcst 1) h)))))
    d.

(** *** Cell 1: focal_loss_lgb

    The only field of the lightgbm Dataset the notebook reads is its
    label vector. *)
Record Dataset : Type := { label : ndval F }.

(* dx=1e-6 *)
Definition step : F := fcst (1 # 1000000).

Definition focal_loss_lgb (y_pred : ndval F) (dtrain : Dataset)
    (alpha gamma : F) : result (ndval F * ndval F) :=
  let a := alpha in
  let g := gamma in
  let y_true := label dtrain in
  let partial_fl := fun x => fl a g x y_true in
  grad ← derivative partial_fl y_pred step 1;
  hess ← derivative partial_fl y_pred step 2;
  Ok (grad, hess).

(** *** Cell 1: lgb_focal_f1_score

    sklearn's f1_score is an external collaborator and is taken as a
    parameter: it receives the label vector and the list of 0/1
    predictions. *)
Variable f1_score : ndval F -> list Z -> result F.

(* [int(p>0.5) for p in preds]; a 0-d value is not iterable. *)
Definition binarize (preds : ndval F) : result (list Z) :=
  match preds with
  | Array ps => Ok (map (fun p => if fgt p (fcst (1 # 2)) then 1%Z else 0%Z) ps)
  | Scalar _ => Raise TypeError
  end.

Definition lgb_focal_f1_score (preds : ndval F) (lgbDataset : Dataset)
    : result (string * F * bool) :=
  preds ← sigmoid preds;
  binary_preds ← binarize preds;
  let y_true := label lgbDataset in
  v ← f1_score y_true binary_preds;
  Ok ("f1"%string, v, true).

End NumPy.

(** ** Carrier 1: exact real arithmetic

    Every operation is the real one.  Where numpy's result would not be a
    finite number (log of a non-positive number, a negative base with a
    fractional exponent, division by zero) the carrier has no value to
    offer and returns what the Standard Library's total functions return
    there; the IEEE carrier below covers those inputs. *)

Definition is_int (r : R) : bool :=
  if Req_dec_T r (IZR (Int_part r)) then true else false.

Definition R_pow (x g : R) : R :=
  if is_int g then powerRZ x (Int_part g)
  else if Rlt_dec 0 x then Rpower x g
  else 0%R.

Definition R_gt (x y : R) : bool := if Rlt_dec y x then true else false.

#[global] Instance R_float64 : Float64 R := {|
  fcst := Q2R;
  fadd := Rplus;
  fsub := Rminus;
  fmul := Rmult;
  fdiv := Rdiv;
  fneg := Ropp;
  fexp := exp;
  flog := ln;
  fpow := R_pow;
  fgt := R_gt
|}.

(** The sigmoid as a real function, with its first two derivatives, and
    the gradient p - t and Hessian p (1 - p) of the binary log-loss with
    respect to the raw score ([dlim_binary_log_loss],
    [dlim_log_loss_grad]). *)
Definition logistic (x : R) : R := (1 / (1 + exp (- x)))%R.
Definition logistic_d1 (x : R) : R := (logistic x * (1 - logistic x))%R.
Definition logistic_d2 (x : R) : R := (logistic_d1 x * (1 - 2 * logistic x))%R.

Definition log_loss_grad (x t : R) : R := (logistic x - t)%R.
Definition log_loss_hess (x : R) : R := logistic_d1 x.

(** ** Carrier 2: IEEE 754 special values and overflow

    A double is a real number or one of inf, -inf and nan.  An operation
    whose exact result is larger in magnitude than the largest finite
    double returns the infinity of its sign, as numpy does (with an
    overflow RuntimeWarning).  The two zeros are not told apart: a zero
    divisor counts as +0.  A finite result is the exact one, not its
    rounding to 53 bits, so the carrier agrees with float64 on special
    values and on overflow, and on finite values up to rounding. *)

Inductive np_float : Type :=
| Fin (r : R)
| PInf
| NInf
| NaN.

Definition DBL_MAX : R := IZR ((2 ^ 53 - 1) * 2 ^ 971).

Definition overflow (r : R) : np_float :=
  if Rlt_dec DBL_MAX r then PInf
  else if Rlt_dec r (- DBL_MAX) then NInf
  else Fin r.

Definition np_fneg (x : np_float) : np_float :=
  match x with
  | Fin r => Fin (- r)
  | PInf => NInf
  | NInf => PInf
  | NaN => NaN
  end.

Definition np_fadd (x y : np_float) : np_float :=
  match x, y with
  | NaN, _ | _, NaN => NaN
  | Fin a, Fin b => overflow (a + b)
  | PInf, NInf | NInf, PInf => NaN
  | PInf, _ | _, PInf => PInf
  | NInf, _ | _, NInf => NInf
  end.

Definition np_fsub (x y : np_float) : np_float := np_fadd x (np_fneg y).

(* s * r for an infinity s: [pos] tells its sign; inf * 0 is nan. *)
Definition inf_times (pos : bool) (r : R) : np_float :=
  if Rlt_dec 0 r then (if pos then PInf else NInf)
  else if Rlt_dec r 0 then (if pos then NInf else PInf)
  else NaN.

Definition np_fmul (x y : np_float) : np_float :=
  match x, y with
  | NaN, _ | _, NaN => NaN
  | Fin a, Fin b => overflow (a * b)
  | PInf, Fin b | Fin b, PInf => inf_times true b
  | NInf, Fin b | Fin b, NInf => inf_times false b
  | PInf, PInf | NInf, NInf => PInf
  | PInf, NInf | NInf, PInf => NInf
  end.

Definition np_fdiv (x y : np_float) : np_float :=
  match x, y with
  | NaN, _ | _, NaN => NaN
  | Fin a, Fin b =>
      if Req_dec_T b 0 then inf_times true a else overflow (a / b)
  | Fin _, PInf | Fin _, NInf => Fin 0
  | PInf, Fin b => if Rlt_dec b 0 then NInf else PInf
  | NInf, Fin b => if Rlt_dec b 0 then PInf else NInf
  | _, _ => NaN
  end.

Definition np_fexp (x : np_float) : np_float :=
  match x with
  | Fin r => overflow (exp r)
  | PInf => PInf
  | NInf => Fin 0
  | NaN => NaN
  end.

Definition np_flog (x : np_float) : np_float :=
  match x with
  | Fin r =>
      if Rlt_dec 0 r then Fin (ln r)
      else if Req_dec_T r 0 then NInf
      else NaN
  | PInf => PInf
  | NInf => NaN
  | NaN => NaN
  end.

Definition is_odd_int (r : R) : bool := is_int r && Z.odd (Int_part r).

(* C's pow, which numpy's ** calls on doubles. *)
Definition np_fpow (x y : np_float) : np_float :=
  match y with
  | Fin b =>
      if Req_dec_T b 0 then Fin 1 else
      match x with
      | NaN => NaN
      | Fin a =>
          if Rlt_dec 0 a then overflow (Rpower a b)
          else if Req_dec_T a 0 then (if Rlt_dec 0 b then Fin 0 else PInf)
          else if is_odd_int b then overflow (- Rpower (- a) b)
          else if is_int b then overflow (Rpower (- a) b)
          else NaN
      | PInf => if Rlt_dec 0 b then PInf else Fin 0
      | NInf =>
          if Rlt_dec 0 b then (if is_odd_int b then NInf else PInf)
          else Fin 0
      end
  | NaN =>
      match x with
      | Fin a => if Req_dec_T a 1 then Fin 1 else NaN
      | _ => NaN
      end
  | PInf =>
      match x with
      | NaN => NaN
      | Fin a =>
          if Rlt_dec (Rabs a) 1 then Fin 0
          else if Req_dec_T (Rabs a) 1 then Fin 1
          else PInf
      | _ => PInf
      end
  | NInf =>
      match x with
      | NaN => NaN
      | Fin a =>
          if Rlt_dec (Rabs a) 1 then PInf
          else if Req_dec_T (Rabs a) 1 then Fin 1
          else Fin 0
      | _ => Fin 0
      end
  end.

Definition np_fgt (x y : np_float) : bool :=
  match x, y with
  | NaN, _ | _, NaN => false
  | Fin a, Fin b => if Rlt_dec b a then true else false
  | PInf, PInf => false
  | PInf, _ => true
  | _, NInf => match x with NInf => false | _ => true end
  | _, _ => false
  end.

#[global] Instance np_float64 : Float64 np_float := {|
  fcst q := Fin (Q2R q);
  fadd := np_fadd;
  fsub := np_fsub;
  fmul := np_fmul;
  fdiv := np_fdiv;
  fneg := np_fneg;
  fexp := np_fexp;
  flog := np_flog;
  fpow := np_fpow;
  fgt := np_fgt
|}.

(* A value that is not a number, or a number no larger in magnitude than
   the largest finite double. *)
Definition in_range (v : np_float) : Prop :=
  forall r : R, v = Fin r -> (- DBL_MAX <= r <= DBL_MAX)%R.

(** ** Python objects of the search cells *)

Arguments Dataset F : clear implicits.

(* The values a configuration dict holds. *)
Inductive pyval : Type :=
| PyInt (n : Z)
| PyFloat (x : np_float).

(* Truncation toward zero. *)
Definition trunc (r : R) : Z :=
  if Rle_dec 0 r then Int_part r else (- Int_part (- r))%Z.

(* int(v): a nan raises ValueError, an infinity OverflowError. *)
Definition py_int (v : pyval) : result Z :=
  match v with
  | PyInt n => Ok n
  | PyFloat (Fin r) => Ok (trunc r)
  | PyFloat NaN => Raise ValueError
  | PyFloat _ => Raise OverflowError
  end.

(* A number used as a float operand; an int is converted. *)
Definition py_float (v : pyval) : np_float :=
  match v with
  | PyInt n => overflow (IZR n)
  | PyFloat x => x
  end.

(* The nearest integer, a tie going to the even one. *)
Definition rint (r : R) : Z :=
  let n := Int_part r in
  let d := frac_part r in
  if Rlt_dec d (1 / 2) then n
  else if Rlt_dec (1 / 2) d then (n + 1)%Z
  else if Z.even n then n else (n + 1)%Z.

(* round(v, 4) on a float64. *)
Definition round4 (v : np_float) : np_float :=
  match v with
  | Fin r => Fin (IZR (rint (r * 10000)) / 10000)
  | _ => v
  end.

(* d[k], raising KeyError on a missing key. *)
Definition getitem {K V} `{Countable K} (d : gmap K V) (k : K) : result V :=
  match d !! k with
  | Some v => Ok v
  | None => Raise KeyError
  end.

(* l[-1] *)
Definition last_item {A} (l : list A) : result A :=
  match last l with
  | Some v => Ok v
  | None => Raise IndexError
  end.

(** ** The interpreter state: dict objects and the search state

    Dicts are objects: [heap] maps a reference to the dict's present
    contents, and a function that receives a reference mutates the
    caller's dict.  [objective_i] is the function attribute objective.i
    and [early_stop_dict] the global dict of cell 10. *)

Definition loc : Type := positive.

Record state : Type := mkState {
  heap : gmap loc (gmap string pyval);
  objective_i : Z;
  early_stop_dict : gmap Z Z
}.

Definition set_heap (h : gmap loc (gmap string pyval)) (s : state) : state :=
  mkState h (objective_i s) (early_stop_dict s).
Definition set_objective_i (i : Z) (s : state) : state :=
  mkState (heap s) i (early_stop_dict s).
Definition set_early_stop_dict (d : gmap Z Z) (s : state) : state :=
  mkState (heap s) (objective_i s) d.

(* A computation returns or raises, and leaves a state either way. *)
Definition M (A : Type) : Type := state -> result A * state.

#[global] Instance M_ret : MRet M := fun A a s => (Ok a, s).
#[global] Instance M_bind : MBind M := fun A B f m s =>
  match m s with
  | (Ok a, s') => f a s'
  | (Raise e, s') => (Raise e, s')
  end.

Definition lift {A} (r : result A) : M A := fun s => (r, s).
Definition gets {A} (f : state -> A) : M A := fun s => (Ok (f s), s).
Definition modify (f : state -> state) : M unit := fun s => (Ok (), f s).

(* The contents of the dict behind a reference.  A reference always
   points to a dict; the default only makes the operations total. *)
Definition deref (p : loc) : M (gmap string pyval) :=
  gets (fun s => default ∅ (heap s !! p)).

(* p[k] *)
Definition dict_get (p : loc) (k : string) : M pyval :=
  d ← deref p; lift (getitem d k).

(* p[k] = v *)
Definition dict_set (p : loc) (k : string) (v : pyval) : M unit :=
  modify (fun s => set_heap (<[p := <[k := v]> (default ∅ (heap s !! p))]> (heap s)) s).

(* A new dict object. *)
Definition alloc (d : gmap string pyval) : M loc :=
  fun s => let p := fresh (dom (heap s)) in (Ok p, set_heap (<[p := d]> (heap s)) s).

(** ** Cell 3: the trial runner *)

Definition fobj_t : Type :=
  ndval np_float -> Dataset np_float -> result (ndval np_float * ndval np_float).
Definition feval_t : Type :=
  ndval np_float -> Dataset np_float -> result (string * np_float * bool).

Section Search.
(* The global training set of cell 9. *)
Variable train : Dataset np_float.

(* sklearn.metrics.f1_score *)
Variable f1_score : ndval np_float -> list Z -> result np_float.

(* lightgbm.cv(params, train_set, num_boost_round, fobj, feval, nfold,
   stratified, early_stopping_rounds): the boosting engine, an external
   collaborator.  It works on a copy of params and returns the dict of
   metric histories, one entry per completed round, or raises. *)
Variable lgb_cv :
  gmap string pyval -> Dataset np_float -> pyval -> fobj_t -> feval_t ->
  Z -> bool -> Z -> result (gmap string (list np_float)).

(* lambda x,y: focal_loss_lgb(x, y, params['alpha'], params['gamma']),
   over the contents [d] the dict has while the engine runs. *)
Definition focal_loss_of (d : gmap string pyval) : fobj_t := fun x y =>
  a ← getitem d "alpha";
  g ← getitem d "gamma";
  focal_loss_lgb x y (py_float a) (py_float g).

(** def objective(params):
        params['num_boost_round'] = int(params['num_boost_round'])
        params['num_leaves'] = int(params['num_leaves'])
        params['verbose'] = -1
        params['seed'] = 1
        focal_loss = lambda x,y: focal_loss_lgb(x, y,
            params['alpha'], params['gamma'])
        cv_result = lgb.cv(params, train,
            num_boost_round=params['num_boost_round'],
            fobj = focal_loss, feval = lgb_focal_f1_score,
            nfold=3, stratified=True, early_stopping_rounds=20)
        early_stop_dict[objective.i] = len(cv_result['f1-mean'])
        score = round(cv_result['f1-mean'][-1], 4)
        objective.i+=1
        return -score

    The body is written in its three phases: the assignments into params,
    the call of the engine, and the bookkeeping on its result. *)
Definition coerce_and_inject (params : loc) : M unit :=
  v ← dict_get params "num_boost_round";
  n ← lift (py_int v);
  dict_set params "num_boost_round" (PyInt n);;
  v ← dict_get params "num_leaves";
  n ← lift (py_int v);
  dict_set params "num_leaves" (PyInt n);;
  dict_set params "verbose" (PyInt (-1));;
  dict_set params "seed" (PyInt 1).

Definition run_cv (params : loc) : M (gmap string (list np_float)) :=
  nbr ← dict_get params "num_boost_round";
  d ← deref params;
  lift (lgb_cv d train nbr (focal_loss_of d) (lgb_focal_f1_score f1_score)
          3 true 20).

Definition record_and_score (cv_result : gmap string (list np_float))
    : M np_float :=
  h ← lift (getitem cv_result "f1-mean");
  i ← gets objective_i;
  modify (fun s => set_early_stop_dict
                     (<[i := Z.of_nat (length h)]> (early_stop_dict s)) s);;
  h ← lift (getitem cv_result "f1-mean");
  v ← lift (last_item h);
  let score := round4 v in
  i ← gets objective_i;
  modify (set_objective_i (i + 1));;
  mret (np_fneg score).

Definition objective (params : loc) : M np_float :=
  coerce_and_inject params;;
  cv_result ← run_cv params;
  record_and_score cv_result.

(* The contents of a configuration after the four assignments that open
   objective. *)
Definition coerced (d : gmap string pyval) (n1 n2 : Z) : gmap string pyval :=
  <["seed" := PyInt 1]>
    (<["verbose" := PyInt (-1)]>
       (<["num_leaves" := PyInt n2]>
          (<["num_boost_round" := PyInt n1]> d))).

(* The engine, run as objective runs it on the configuration cfg,
   completes r rounds. *)
Definition realized_rounds (cfg : gmap string pyval) (r : Z) : Prop :=
  exists (v1 v2 : pyval) (n1 n2 : Z) (cv : gmap string (list np_float))
         (hist : list np_float),
    cfg !! "num_boost_round" = Some v1 /\ py_int v1 = Ok n1
    /\ cfg !! "num_leaves" = Some v2 /\ py_int v2 = Ok n2
    /\ lgb_cv (coerced cfg n1 n2) train (PyInt n1)
          (focal_loss_of (coerced cfg n1 n2))
          (lgb_focal_f1_score f1_score) 3 true 20 = Ok cv
    /\ cv !! "f1-mean" = Some hist
    /\ r = Z.of_nat (length hist).

(** ** Cells 10 and 12: the search loop

    Modelled from the spec: hyperopt's fmin and Trials, which the
    notebook imports.  Spec section 4.5 has the loop run the trials one
    at a time: for each of max_evals iterations the strategy proposes a
    configuration given the trials so far, the trial runner scores it,
    and the best-scoring trial is resolved at the end.  As in the
    library, trials are numbered 0, 1, 2, ... in the order they run, fn
    is called on a new dict holding the proposed values, an exception of
    fn escapes, and fmin returns the proposed values of the best trial
    as a new dict. *)
Record trial : Type := mkTrial {
  tid : Z;
  vals : gmap string pyval;
  loss_of : np_float
}.

(* tpe.suggest over the space of cell 5 *)
Variable suggest : list trial -> gmap string pyval.

Fixpoint fmin_loop (fn : loc -> M np_float) (max_evals : nat)
    (trials : list trial) : M (list trial) :=
  match max_evals with
  | O => mret trials
  | S k =>
      let cfg := suggest trials in
      p ← alloc cfg;
      r ← fn p;
      fmin_loop fn k (trials ++ [mkTrial (Z.of_nat (length trials)) cfg r])
  end.

(* What holds between two trials of a search: the counter is the number
   of trials run, the recorded keys are the identities issued so far,
   and trial j has identity j and its realized round count on record. *)
Definition search_inv (trials : list trial) (s : state) : Prop :=
  objective_i s = Z.of_nat (length trials)
  /\ size (early_stop_dict s) = length trials
  /\ (forall k : Z,
        k ∈ dom (early_stop_dict s) <-> (0 <= k < Z.of_nat (length trials))%Z)
  /\ (forall (j : nat) (t : trial),
        trials !! j = Some t ->
        tid t = Z.of_nat j
        /\ exists r : Z,
             early_stop_dict s !! tid t = Some r /\ realized_rounds (vals t) r).

(* The lowest loss; numpy's argmin keeps the first of equal losses and
   takes a nan for the minimum. *)
Definition better (x y : np_float) : bool :=
  match y, x with
  | NaN, _ => false
  | _, NaN => true
  | _, _ => np_fgt y x
  end.

Fixpoint argmin_from (best : trial) (ts : list trial) : trial :=
  match ts with
  | [] => best
  | t :: ts' =>
      argmin_from (if better (loss_of t) (loss_of best) then t else best) ts'
  end.

(* trials.best_trial; with no trial to choose from the search has found
   no viable configuration (spec section 7). *)
Definition best_trial (trials : list trial) : result trial :=
  match trials with
  | [] => Raise AllTrialsFailed
  | t :: ts => Ok (argmin_from t ts)
  end.

Definition fmin (fn : loc -> M np_float) (max_evals : nat)
    : M (loc * list trial) :=
  trials ← fmin_loop fn max_evals [];
  bt ← lift (best_trial trials);
  best ← alloc (vals bt);
  mret (best, trials).

(** objective.i=0
    trials = Trials()
    early_stop_dict = {}
    best = fmin(fn=objective, space=space, algo=tpe.suggest,
                max_evals=5, trials=trials) *)
Definition search (max_evals : nat) : M (loc * list trial) :=
  modify (set_objective_i 0);;
  modify (set_early_stop_dict ∅);;
  fmin objective max_evals.

Definition cell_10 : M (loc * list trial) := search 5.

(** best['num_boost_round'] = early_stop_dict[trials.best_trial['tid']]
    best['num_leaves'] = int(best['num_leaves'])
    best['verbose'] = -1 *)
Definition cell_12 (best : loc) (trials : list trial) : M unit :=
  bt ← lift (best_trial trials);
  d ← gets early_stop_dict;
  r ← lift (getitem d (tid bt));
  dict_set best "num_boost_round" (PyInt r);;
  v ← dict_get best "num_leaves";
  n ← lift (py_int v);
  dict_set best "num_leaves" (PyInt n);;
  dict_set best "verbose" (PyInt (-1)).

End Search.

(** ** Cell 12, continued: the final fit and its predictions

    focal_loss = lambda x,y: focal_loss_lgb(x, y, best['alpha'], best['gamma'])
    model = lgb.train(best, train, fobj=focal_loss)
    preds = model.predict(X_val)
    preds = sigmoid(preds)
    preds = (preds > 0.5).astype('int') *)

(* (preds > 0.5).astype('int'): a comparison is a ufunc and works on an
   array and on a 0-d value alike. *)
Definition threshold {F : Type} `{Float64 F} (preds : ndval F) : ndval Z :=
  match preds with
  | Scalar p => Scalar (if fgt p (fcst (1 # 2)) then 1%Z else 0%Z)
  | Array ps => Array (map (fun p => if fgt p (fcst (1 # 2)) then 1%Z else 0%Z) ps)
  end.

Section Refit.
(* The global training set of cell 9. *)
Variable train : Dataset np_float.

(* A fitted booster and the validation features X_val of cell 9 are
   opaque to the notebook. *)
Variable Booster : Type.
Variable Features : Type.
Variable X_val : Features.

(* lightgbm.train(params, train_set, fobj), an external collaborator like
   lightgbm.cv: it works on a copy of params and returns a booster, or
   raises. *)
Variable lgb_train :
  gmap string pyval -> Dataset np_float -> fobj_t -> result Booster.

(* Booster.predict: with a custom objective the booster returns raw
   scores. *)
Variable predict : Booster -> Features -> result (ndval np_float).

Definition cell_12_fit (best : loc) : M (ndval Z) :=
  d ← deref best;
  model ← lift (lgb_train d train (focal_loss_of d));
  preds ← lift (predict model X_val);
  preds ← lift (sigmoid preds);
  mret (threshold preds).

(* The whole of cell 12. *)
Definition cell_12_all (best : loc) (trials : list trial) : M (ndval Z) :=
  cell_12 best trials;;
  cell_12_fit best.

End Refit.

Definition init_state : state := mkState ∅ 0 ∅.

(** ** Sample inputs *)

Definition sample_config : gmap string pyval :=
  {[ "num_boost_round" := PyFloat (Fin 60);
     "num_leaves" := PyFloat (Fin 31);
     "alpha" := PyFloat (Fin (1 / 4));
     "gamma" := PyFloat (Fin 2) ]}.

Definition sample_train : Dataset np_float :=
  {| label := Array [Fin 1; Fin 0] |}.

Definition sample_f1_score : ndval np_float -> list Z -> result np_float :=
  fun _ _ => Ok (Fin 1).

(* An engine that stops with the metric history [hist]. *)
Definition engine_stopping_with (hist : list np_float) :
    gmap string pyval -> Dataset np_float -> pyval -> fobj_t -> feval_t ->
    Z -> bool -> Z -> result (gmap string (list np_float)) :=
  fun _ _ _ _ _ _ _ _ => Ok {[ "f1-mean" := hist ]}.

(* A configuration with no round to run. *)
Definition zero_budget_config : gmap string pyval :=
  <["num_boost_round" := PyFloat (Fin 0)]> sample_config.

(* An engine that completes no round and returns the empty dict. *)
Definition engine_without_rounds :
    gmap string pyval -> Dataset np_float -> pyval -> fobj_t -> feval_t ->
    Z -> bool -> Z -> result (gmap string (list np_float)) :=
  fun _ _ _ _ _ _ _ _ => Ok ∅.

(** * Properties *)

Lemma bind_Ok {A B} (a : A) (f : A -> result B) : (Ok a ≫= f) = f a.
Proof. reflexivity. Qed.

Section NumPyFacts.
Context {F : Type} `{Float64 F}.

Lemma bop_arrays (f : F -> F -> F) (xs ys : list F) :
  length xs = length ys ->
  bop f (Array xs) (Array ys) = Ok (Array (zip_with f xs ys)).
Proof. intros E. unfold bop. destruct (decide _); [done | contradiction]. Qed.

Lemma bop_scalar_array (f : F -> F -> F) (x : F) (ys : list F) :
  bop f (Scalar x) (Array ys) = Ok (Array (map (f x) ys)).
Proof. reflexivity. Qed.

Lemma bop_array_scalar (f : F -> F -> F) (xs : list F) (y : F) :
  bop f (Array xs) (Scalar y) = Ok (Array (map (fun x => f x y) xs)).
Proof. reflexivity. Qed.

(** On scalars [fl] is the loss of one sample. *)
Lemma fl_scalar (a g x t : F) :
  fl a g (Scalar x) (Scalar t) = Ok (Scalar (loss a g x t)).
Proof. reflexivity. Qed.

(** On a batch [fl] works sample by sample. *)
Lemma fl_arrays (a g : F) (xs ts : list F) :
  length xs = length ts ->
  fl a g (Array xs) (Array ts) = Ok (Array (zip_with (loss a g) xs ts)).
Proof.
  intros E. unfold fl, np_add, np_sub, np_mul, np_div, np_pow, np_exp, np_log, np_neg.
  repeat (first [ rewrite bind_Ok; cbv beta
                | rewrite bop_scalar_array
                | rewrite bop_array_scalar
                | rewrite bop_arrays
                    by (repeat first [rewrite length_zip_with | rewrite length_map]; lia)
                | progress cbn [umap] ]).
  f_equal. f_equal.
  revert ts E. induction xs as [|x xs IH]; intros [|t ts] E; simpl in *;
    try discriminate; [done|].
  f_equal. apply IH. lia.
Qed.

(** scipy's three-point stencil on a batch, for a function that works
    sample by sample. *)
Lemma derivative_arrays (f : F -> F -> F) (func : ndval F -> result (ndval F))
    (xs ts : list F) (h : F) (n : nat) (w0 w1 w2 : F) :
  (forall xs', length xs' = length ts ->
               func (Array xs') = Ok (Array (zip_with f xs' ts))) ->
  length xs = length ts ->
  weights n = Ok [w0; w1; w2] ->
  derivative func (Array xs) h n =
    Ok (Array (zip_with
      (fun x t => three_point w0 w1 w2 (fun x' => f x' t) x h
                    (product (replicate n h)))
      xs ts)).
Proof.
  intros Hf E Hw. unfold derivative. rewrite Hw, bind_Ok.
  cbn [stencil]. unfold np_add, np_mul, np_div.
  repeat (first [ rewrite bind_Ok; cbv beta
                | rewrite bop_scalar_array
                | rewrite bop_array_scalar
                | rewrite Hf by (rewrite length_map; lia)
                | rewrite bop_arrays
                    by (repeat first [rewrite length_zip_with | rewrite length_map]; lia) ]).
  f_equal. f_equal.
  change (inject_Z (0 - 1)) with (-1)%Q.
  change (inject_Z (0 + 1 - 1)) with 0%Q.
  change (inject_Z (0 + 1 + 1 - 1)) with 1%Q.
  clear Hf. revert ts E. induction xs as [|x xs IH]; intros [|t ts] E; simpl in *;
    try discriminate; [done|].
  f_equal. apply IH. lia.
Qed.

(** On a batch with as many labels as scores focal_loss_lgb returns the
    two stencils of the per-sample loss. *)
Lemma focal_loss_lgb_arrays (a g : F) (xs ts : list F) :
  length xs = length ts ->
  focal_loss_lgb (Array xs) {| label := Array ts |} a g
    = Ok (Array (zip_with
                   (fun x t =>
                      three_point (fdiv (fcst (-1)) (fcst 2)) (fdiv zero (fcst 2))
                        (fdiv one (fcst 2)) (fun x' => loss a g x' t) x step
                        (product (replicate 1 step)))
                   xs ts),
          Array (zip_with
                   (fun x t =>
                      three_point one (fcst (-2)) one (fun x' => loss a g x' t)
                        x step (product (replicate 2 step)))
                   xs ts)).
Proof.
  intros E. unfold focal_loss_lgb. cbn [label].
  rewrite (derivative_arrays (loss a g) _ xs ts step 1 _ _ _
             (fun xs' E' => fl_arrays a g xs' ts E') E eq_refl).
  rewrite bind_Ok.
  rewrite (derivative_arrays (loss a g) _ xs ts step 2 _ _ _
             (fun xs' E' => fl_arrays a g xs' ts E') E eq_refl).
  reflexivity.
Qed.

End NumPyFacts.

(** Shapes that do not broadcast raise, in an operation and in the whole
    objective; an array of length one is stretched. *)
Example np_add_shape_mismatch :
  np_add (Array [1%R; 2%R]) (Array [1%R; 2%R; 3%R]) = Raise ValueError.
Proof. reflexivity. Qed.

Example np_mul_stretches_length_one :
  np_mul (Array [2%R]) (Array [1%R; 3%R]) = Ok (Array [(2 * 1)%R; (2 * 3)%R]).
Proof. reflexivity. Qed.

Example focal_loss_lgb_shape_mismatch (alpha gamma : R) :
  focal_loss_lgb (Array [0%R; 0%R]) {| label := Array [1%R; 0%R; 1%R] |}
    alpha gamma = Raise ValueError.
Proof. reflexivity. Qed.

Example binarize_scalar (p : R) : binarize (Scalar p) = Raise TypeError.
Proof. reflexivity. Qed.

(** ** The gradient and Hessian of the focal loss, in exact arithmetic *)

Section CentralDifferences.
Local Open Scope R_scope.

Lemma R_one : (one : R) = 1.
Proof. apply RMicromega.Q2R_1. Qed.

(* The two stencils of focal_loss_lgb in exact arithmetic. *)
Lemma R_three_point_1 (f : R -> R) (x : R) :
  three_point (fdiv (fcst (-1)) (fcst 2)) (fdiv zero (fcst 2)) (fdiv one (fcst 2))
    f x step (product (replicate 1 step))
  = (f (x + 1 / 1000000) - f (x - 1 / 1000000)) / (2 * (1 / 1000000)).
Proof.
  unfold three_point, product, step, zero, one. cbn [replicate fold_left].
  cbn [fcst fadd fsub fmul fdiv R_float64].
  unfold Q2R. cbn [Qnum Qden].
  replace (x + -1 * / 1 * (1 * / 1000000)) with (x - 1 / 1000000) by lra.
  replace (x + 1 * / 1 * (1 * / 1000000)) with (x + 1 / 1000000) by lra.
  field.
Qed.

Lemma R_three_point_2 (f : R -> R) (x : R) :
  three_point one (fcst (-2)) one f x step (product (replicate 2 step))
  = (f (x + 1 / 1000000) - 2 * f x + f (x - 1 / 1000000)) / (1 / 1000000) ^ 2.
Proof.
  unfold three_point, product, step, zero, one. cbn [replicate fold_left].
  cbn [fcst fadd fsub fmul fdiv R_float64].
  unfold Q2R. cbn [Qnum Qden].
  replace (x + -1 * / 1 * (1 * / 1000000)) with (x - 1 / 1000000) by lra.
  replace (x + 1 * / 1 * (1 * / 1000000)) with (x + 1 / 1000000) by lra.
  replace (x + 0 * / 1 * (1 * / 1000000)) with x by lra.
  field.
Qed.

(* What the stencils are when nothing rounds or overflows: over the real
   numbers, an idealisation of float64, entry i of the first array is
   (f(x+h) - f(x-h)) / (2h) and entry i of the second is
   (f(x+h) - 2 f(x) + f(x-h)) / h^2, where x is score i, h = 1e-6 and f is
   the focal loss of sample i alone. *)
Lemma central_differences_exact
    (y_pred y_true : list R) (alpha gamma : R) :
  length y_pred = length y_true ->
  exists grad hess : list R,
    focal_loss_lgb (Array y_pred) {| label := Array y_true |} alpha gamma
      = Ok (Array grad, Array hess)
    /\ length grad = length y_pred
    /\ length hess = length y_pred
    /\ forall (i : nat) (x t : R),
         y_pred !! i = Some x -> y_true !! i = Some t ->
         let f := fun x' => loss alpha gamma x' t in
         let h := 1 / 1000000 in
         (forall x', fl alpha gamma (Scalar x') (Scalar t) = Ok (Scalar (f x')))
         /\ grad !! i = Some ((f (x + h) - f (x - h)) / (2 * h))
         /\ hess !! i = Some ((f (x + h) - 2 * f x + f (x - h)) / h ^ 2).
Proof.
  intros E. rewrite (focal_loss_lgb_arrays alpha gamma y_pred y_true E).
  eexists _, _. split; [reflexivity|].
  split; [rewrite length_zip_with; lia|].
  split; [rewrite length_zip_with; lia|].
  intros i x t Hx Ht. split; [intros x'; apply fl_scalar|].
  rewrite !lookup_zip_with, Hx, Ht. cbn [mbind option_bind].
  by rewrite R_three_point_1, R_three_point_2.
Qed.

End CentralDifferences.



(** ** Running the stateful code *)

Lemma run_bind {A B} (m : M A) (f : A -> M B) (s : state) :
  (m ≫= f) s =
  match m s with
  | (Ok a, s') => f a s'
  | (Raise e, s') => (Raise e, s')
  end.
Proof. reflexivity. Qed.

Lemma run_dict_get (p : loc) (k : string) (s : state) (d : gmap string pyval) :
  heap s !! p = Some d -> dict_get p k s = (getitem d k, s).
Proof. intros E. unfold dict_get, deref, gets. rewrite run_bind, E. reflexivity. Qed.

Lemma run_dict_set (p : loc) (k : string) (v : pyval) (s : state)
    (d : gmap string pyval) :
  heap s !! p = Some d ->
  dict_set p k v s = (Ok (), set_heap (<[p := <[k := v]> d]> (heap s)) s).
Proof. intros E. unfold dict_set, modify. rewrite E. reflexivity. Qed.

Lemma getitem_Some {K V} `{Countable K} (d : gmap K V) (k : K) (v : V) :
  d !! k = Some v -> getitem d k = Ok v.
Proof. intros E. unfold getitem. rewrite E. reflexivity. Qed.

Lemma getitem_None {K V} `{Countable K} (d : gmap K V) (k : K) :
  d !! k = None -> getitem d k = Raise KeyError.
Proof. intros E. unfold getitem. rewrite E. reflexivity. Qed.

(* int() leaves an integral float as it is and otherwise drops the
   fractional part, toward zero. *)
Lemma trunc_IZR (n : Z) : trunc (IZR n) = n.
Proof.
  unfold trunc. destruct (Rle_dec 0 (IZR n)).
  - symmetry. apply Int_part_spec. lra.
  - rewrite <- opp_IZR. rewrite <- (Int_part_spec (IZR (- n)) (- n)%Z); [lia | lra].
Qed.

Lemma trunc_toward_zero (r : R) :
  ((0 <= r -> IZR (trunc r) <= r < IZR (trunc r) + 1)
   /\ (r < 0 -> IZR (trunc r) - 1 < r <= IZR (trunc r)))%R.
Proof.
  unfold trunc. split; intros Hr.
  - destruct (Rle_dec 0 r); [|lra]. pose proof (base_Int_part r). lra.
  - destruct (Rle_dec 0 r); [lra|]. rewrite opp_IZR.
    pose proof (base_Int_part (- r)). lra.
Qed.

(* Rounding to the nearest integer moves a number by at most one half. *)
Lemma rint_close (x : R) : (- (1 / 2) <= IZR (rint x) - x <= 1 / 2)%R.
Proof.
  unfold rint.
  pose proof (base_fp x) as [F0 F1].
  pose proof (Rplus_Int_part_frac_part x) as Ex.
  set (n := Int_part x) in *. set (f := frac_part x) in *.
  destruct (Rlt_dec f (1 / 2)) as [Hlt|Hge];
    [|destruct (Rlt_dec (1 / 2) f) as [Hgt|Hle]; [|destruct (Z.even n)]];
    rewrite ?plus_IZR; lra.
Qed.

Lemma round4_close (r : R) :
  exists k : Z,
    round4 (Fin r) = Fin (IZR k / 10000)
    /\ (Rabs (IZR k / 10000 - r) <= 1 / 20000)%R.
Proof.
  exists (rint (r * 10000)). split; [reflexivity|].
  pose proof (rint_close (r * 10000)) as Hc.
  apply Rabs_le. lra.
Qed.

Section SearchFacts.
Variable train : Dataset np_float.
Variable f1_score : ndval np_float -> list Z -> result np_float.
Variable lgb_cv :
  gmap string pyval -> Dataset np_float -> pyval -> fobj_t -> feval_t ->
  Z -> bool -> Z -> result (gmap string (list np_float)).

Variable suggest : list trial -> gmap string pyval.

Lemma run_coerce_and_inject (p : loc) (s : state) (d : gmap string pyval)
    (v1 v2 : pyval) (n1 n2 : Z) :
  heap s !! p = Some d ->
  d !! "num_boost_round" = Some v1 -> py_int v1 = Ok n1 ->
  d !! "num_leaves" = Some v2 -> py_int v2 = Ok n2 ->
  coerce_and_inject p s
    = (Ok (), set_heap (<[p := coerced d n1 n2]> (heap s)) s).
Proof.
  intros Hp H1 E1 H2 E2. unfold coerce_and_inject.
  rewrite run_bind, (run_dict_get _ _ _ _ Hp), (getitem_Some _ _ _ H1).
  rewrite run_bind. unfold lift at 1. rewrite E1.
  rewrite run_bind, (run_dict_set _ _ _ _ _ Hp).
  set (s1 := set_heap _ s).
  assert (Hp1 : heap s1 !! p = Some (<["num_boost_round" := PyInt n1]> d))
    by apply lookup_insert_eq.
  rewrite run_bind, (run_dict_get _ _ _ _ Hp1).
  rewrite (getitem_Some _ "num_leaves" v2) by (rewrite lookup_insert_ne; done).
  rewrite run_bind. unfold lift at 1. rewrite E2.
  rewrite run_bind, (run_dict_set _ _ _ _ _ Hp1).
  set (s2 := set_heap _ s1).
  assert (Hp2 : heap s2 !! p
                = Some (<["num_leaves" := PyInt n2]>
                          (<["num_boost_round" := PyInt n1]> d)))
    by apply lookup_insert_eq.
  rewrite run_bind, (run_dict_set _ _ _ _ _ Hp2).
  set (s3 := set_heap _ s2).
  assert (Hp3 : heap s3 !! p
                = Some (<["verbose" := PyInt (-1)]>
                          (<["num_leaves" := PyInt n2]>
                             (<["num_boost_round" := PyInt n1]> d))))
    by apply lookup_insert_eq.
  rewrite (run_dict_set _ _ _ _ _ Hp3).
  f_equal. subst s3 s2 s1. unfold set_heap, coerced. cbn [heap objective_i early_stop_dict].
  rewrite !insert_insert_eq. reflexivity.
Qed.

Lemma run_objective (p : loc) (s : state) (d : gmap string pyval)
    (v1 v2 : pyval) (n1 n2 : Z) :
  heap s !! p = Some d ->
  d !! "num_boost_round" = Some v1 -> py_int v1 = Ok n1 ->
  d !! "num_leaves" = Some v2 -> py_int v2 = Ok n2 ->
  objective train f1_score lgb_cv p s =
    let d' := coerced d n1 n2 in
    let s1 := set_heap (<[p := d']> (heap s)) s in
    match lgb_cv d' train (PyInt n1) (focal_loss_of d')
            (lgb_focal_f1_score f1_score) 3 true 20 with
    | Ok cv => record_and_score cv s1
    | Raise e => (Raise e, s1)
    end.
Proof.
  intros Hp H1 E1 H2 E2. unfold objective.
  rewrite run_bind, (run_coerce_and_inject p s d v1 v2 n1 n2) by done.
  set (s1 := set_heap _ s).
  assert (Hp1 : heap s1 !! p = Some (coerced d n1 n2)) by apply lookup_insert_eq.
  rewrite run_bind. unfold run_cv.
  rewrite run_bind, (run_dict_get _ _ _ _ Hp1).
  rewrite (getitem_Some _ "num_boost_round" (PyInt n1))
    by (unfold coerced; rewrite !lookup_insert_ne by done; apply lookup_insert_eq).
  rewrite run_bind. unfold deref, gets. rewrite Hp1. cbn [default].
  unfold lift. cbv zeta. destruct (lgb_cv _ _ _ _ _ _ _ _); reflexivity.
Qed.

Lemma run_record_no_key (cv : gmap string (list np_float)) (s : state) :
  cv !! "f1-mean" = None -> record_and_score cv s = (Raise KeyError, s).
Proof.
  intros E. unfold record_and_score. rewrite run_bind. unfold lift at 1.
  rewrite (getitem_None _ _ E). reflexivity.
Qed.

Lemma run_record_empty (cv : gmap string (list np_float)) (s : state) :
  cv !! "f1-mean" = Some [] ->
  record_and_score cv s
    = (Raise IndexError,
       set_early_stop_dict (<[objective_i s := 0%Z]> (early_stop_dict s)) s).
Proof.
  intros E. unfold record_and_score. rewrite run_bind. unfold lift at 1.
  rewrite (getitem_Some _ _ _ E). reflexivity.
Qed.

Lemma run_record_ok (cv : gmap string (list np_float)) (s : state)
    (h : list np_float) (v : np_float) :
  cv !! "f1-mean" = Some h -> last h = Some v ->
  record_and_score cv s
    = (Ok (np_fneg (round4 v)),
       mkState (heap s) (objective_i s + 1)
               (<[objective_i s := Z.of_nat (length h)]> (early_stop_dict s))).
Proof.
  intros E L. unfold record_and_score. rewrite run_bind. unfold lift at 1.
  rewrite (getitem_Some _ _ _ E).
  rewrite run_bind. unfold gets at 1.
  rewrite run_bind. unfold modify at 1.
  rewrite run_bind. unfold lift at 1.
  rewrite run_bind. unfold lift at 1, last_item. rewrite L.
  reflexivity.
Qed.

Lemma record_and_score_heap (cv : gmap string (list np_float)) (s : state) :
  heap (record_and_score cv s).2 = heap s.
Proof.
  destruct (cv !! "f1-mean") as [h|] eqn:E.
  - destruct (last h) as [v|] eqn:L.
    + rewrite (run_record_ok cv s h v E L). reflexivity.
    + apply last_None in L. subst h. rewrite (run_record_empty cv s E). reflexivity.
  - rewrite (run_record_no_key cv s E). reflexivity.
Qed.

Lemma coerce_and_inject_inv (p : loc) (s s1 : state) (u : ()) :
  coerce_and_inject p s = (Ok u, s1) ->
  exists (d : gmap string pyval) (v1 v2 : pyval) (n1 n2 : Z),
    heap s !! p = Some d
    /\ d !! "num_boost_round" = Some v1 /\ py_int v1 = Ok n1
    /\ d !! "num_leaves" = Some v2 /\ py_int v2 = Ok n2.
Proof.
  intros Hc.
  destruct (heap s !! p) as [d|] eqn:Hp.
  - destruct (d !! "num_boost_round") as [v1|] eqn:H1.
    + destruct (py_int v1) as [n1|e1] eqn:E1.
      * destruct (d !! "num_leaves") as [v2|] eqn:H2.
        -- destruct (py_int v2) as [n2|e2] eqn:E2.
           ++ exists d, v1, v2, n1, n2. done.
           ++ exfalso. revert Hc. unfold coerce_and_inject.
              rewrite run_bind, (run_dict_get _ _ _ _ Hp), (getitem_Some _ _ _ H1).
              rewrite run_bind. unfold lift at 1. rewrite E1.
              rewrite run_bind, (run_dict_set _ _ _ _ _ Hp).
              rewrite run_bind, (run_dict_get _ _ _ (<["num_boost_round" := PyInt n1]> d))
                by apply lookup_insert_eq.
              rewrite (getitem_Some _ "num_leaves" v2) by (rewrite lookup_insert_ne; done).
              rewrite run_bind. unfold lift at 1. rewrite E2. discriminate.
        -- exfalso. revert Hc. unfold coerce_and_inject.
           rewrite run_bind, (run_dict_get _ _ _ _ Hp), (getitem_Some _ _ _ H1).
           rewrite run_bind. unfold lift at 1. rewrite E1.
           rewrite run_bind, (run_dict_set _ _ _ _ _ Hp).
           rewrite run_bind, (run_dict_get _ _ _ (<["num_boost_round" := PyInt n1]> d))
             by apply lookup_insert_eq.
           rewrite (getitem_None _ "num_leaves") by (rewrite lookup_insert_ne; done).
           discriminate.
      * exfalso. revert Hc. unfold coerce_and_inject.
        rewrite run_bind, (run_dict_get _ _ _ _ Hp), (getitem_Some _ _ _ H1).
        rewrite run_bind. unfold lift at 1. rewrite E1. discriminate.
    + exfalso. revert Hc. unfold coerce_and_inject.
      rewrite run_bind, (run_dict_get _ _ _ _ Hp), (getitem_None _ _ H1). discriminate.
  - exfalso. revert Hc. unfold coerce_and_inject, dict_get, deref, gets.
    rewrite !run_bind, Hp. discriminate.
Qed.

(* What a call of objective that returns has done. *)
Lemma objective_Ok_inv (p : loc) (s s' : state) (r : np_float) :
  objective train f1_score lgb_cv p s = (Ok r, s') ->
  exists (d : gmap string pyval) (v1 v2 : pyval) (n1 n2 : Z)
         (cv : gmap string (list np_float)) (hist : list np_float)
         (v : np_float),
    heap s !! p = Some d
    /\ d !! "num_boost_round" = Some v1 /\ py_int v1 = Ok n1
    /\ d !! "num_leaves" = Some v2 /\ py_int v2 = Ok n2
    /\ lgb_cv (coerced d n1 n2) train (PyInt n1) (focal_loss_of (coerced d n1 n2))
         (lgb_focal_f1_score f1_score) 3 true 20 = Ok cv
    /\ cv !! "f1-mean" = Some hist
    /\ last hist = Some v
    /\ r = np_fneg (round4 v)
    /\ s' = mkState (<[p := coerced d n1 n2]> (heap s)) (objective_i s + 1)
              (<[objective_i s := Z.of_nat (length hist)]> (early_stop_dict s)).
Proof.
  intros Ho.
  assert (Hc : exists u s1, coerce_and_inject p s = (Ok u, s1)).
  { revert Ho. unfold objective. rewrite run_bind.
    destruct (coerce_and_inject p s) as [[u|e] s1]; [eauto | discriminate]. }
  destruct Hc as (u & s1 & Hc).
  destruct (coerce_and_inject_inv p s s1 u Hc)
    as (d & v1 & v2 & n1 & n2 & Hp & H1 & E1 & H2 & E2).
  rewrite (run_objective p s d v1 v2 n1 n2 Hp H1 E1 H2 E2) in Ho. cbv zeta in Ho.
  destruct (lgb_cv _ _ _ _ _ _ _ _) as [cv|e] eqn:Hcv; [|discriminate].
  destruct (cv !! "f1-mean") as [hist|] eqn:Hh.
  - destruct (last hist) as [v|] eqn:Hl.
    + rewrite (run_record_ok cv _ hist v Hh Hl) in Ho.
      exists d, v1, v2, n1, n2, cv, hist, v.
      repeat (split; [done|]). inversion Ho. done.
    + apply last_None in Hl. subst hist.
      rewrite (run_record_empty cv _ Hh) in Ho. discriminate.
  - rewrite (run_record_no_key cv _ Hh) in Ho. discriminate.
Qed.

Local Abbreviation objective' := (objective train f1_score lgb_cv).
Local Abbreviation search_inv' := (search_inv train f1_score lgb_cv).
Local Abbreviation realized_rounds' := (realized_rounds train f1_score lgb_cv).

Lemma search_inv_step (trials : list trial) (s s' : state) (p : loc)
    (cfg : gmap string pyval) (r : np_float) :
  search_inv' trials s ->
  objective' p (set_heap (<[p := cfg]> (heap s)) s) = (Ok r, s') ->
  search_inv' (trials ++ [mkTrial (Z.of_nat (length trials)) cfg r]) s'.
Proof.
  intros (Hi & Hsz & Hdom & Htr) Ho.
  apply objective_Ok_inv in Ho
    as (d & v1 & v2 & n1 & n2 & cv & hist & v & Hp & H1 & E1 & H2 & E2 & Hcv & Hh & Hl & -> & ->).
  cbn [heap set_heap objective_i early_stop_dict] in *.
  rewrite lookup_insert_eq in Hp. injection Hp as <-.
  assert (Hfresh : early_stop_dict s !! objective_i s = None).
  { apply not_elem_of_dom. rewrite Hdom. lia. }
  unfold search_inv. cbn [objective_i early_stop_dict].
  rewrite length_app. cbn [length].
  split; [lia|].
  split; [rewrite map_size_insert_None by done; lia|].
  split.
  - intros k. rewrite dom_insert, elem_of_union, elem_of_singleton, Hdom. lia.
  - intros j t Hj.
    destruct (decide (j < length trials)%nat) as [Hlt|Hge].
    + rewrite lookup_app_l in Hj by done.
      destruct (Htr j t Hj) as (Ht & r & Hr & Hrr).
      split; [done|]. exists r. split; [|done].
      rewrite lookup_insert_ne; [done|]. rewrite Ht, Hi. lia.
    + rewrite lookup_app_r in Hj by lia.
      destruct (j - length trials)%nat as [|m] eqn:Em; [|destruct m; discriminate].
      injection Hj as <-. cbn [tid vals].
      split; [f_equal; lia|].
      exists (Z.of_nat (length hist)). split.
      * rewrite Hi. apply lookup_insert_eq.
      * exists v1, v2, n1, n2, cv, hist. done.
Qed.

Lemma fmin_loop_inv (n : nat) :
  forall (trials trials' : list trial) (s s' : state),
    search_inv' trials s ->
    fmin_loop suggest objective' n trials s = (Ok trials', s') ->
    search_inv' trials' s' /\ length trials' = (length trials + n)%nat.
Proof.
  induction n as [|n IH]; intros trials trials' s s' Hinv Hrun.
  - injection Hrun as <- <-. split; [done | lia].
  - cbn [fmin_loop] in Hrun. cbv zeta in Hrun.
    rewrite run_bind in Hrun. unfold alloc at 1 in Hrun. cbv zeta in Hrun.
    rewrite run_bind in Hrun.
    destruct (objective' _ _) as [[r|e] s1] eqn:Ho; [|discriminate].
    apply (search_inv_step trials s s1 _ _ r Hinv) in Ho.
    destruct (IH _ _ _ _ Ho Hrun) as [Hinv' Hlen].
    split; [done|]. rewrite Hlen, length_app. cbn [length]. lia.
Qed.

Lemma argmin_from_lookup (ts : list trial) :
  forall best : trial,
    argmin_from best ts = best
    \/ exists j : nat, ts !! j = Some (argmin_from best ts).
Proof.
  induction ts as [|t ts IH]; intros best; cbn [argmin_from]; [by left|].
  destruct (better (loss_of t) (loss_of best)).
  - right. destruct (IH t) as [->|[j Hj]]; [by exists 0%nat | by exists (S j)].
  - destruct (IH best) as [->|[j Hj]]; [by left | right; by exists (S j)].
Qed.

Lemma best_trial_lookup (trials : list trial) (bt : trial) :
  best_trial trials = Ok bt -> exists j : nat, trials !! j = Some bt.
Proof.
  destruct trials as [|t ts]; [discriminate|]. cbn [best_trial]. intros [= <-].
  destruct (argmin_from_lookup ts t) as [->|[j Hj]];
    [by exists 0%nat | by exists (S j)].
Qed.

(* What a search that returns has done. *)
Lemma search_Ok_inv (n : nat) (s0 s : state) (best : loc) (trials : list trial) :
  search train f1_score lgb_cv suggest n s0 = (Ok (best, trials), s) ->
  exists (s1 : state) (bt : trial),
    search_inv' trials s1
    /\ length trials = n
    /\ best_trial trials = Ok bt
    /\ best = fresh (dom (heap s1))
    /\ s = set_heap (<[best := vals bt]> (heap s1)) s1.
Proof.
  unfold search. rewrite run_bind. unfold modify at 1.
  rewrite run_bind. unfold modify at 1. unfold fmin.
  set (si := set_early_stop_dict ∅ (set_objective_i 0 s0)).
  rewrite run_bind.
  destruct (fmin_loop _ _ n [] si) as [[trials'|e] s1] eqn:Hloop; [|discriminate].
  assert (Hinit : search_inv' [] si).
  { unfold search_inv. cbn. split; [done|]. split; [apply map_size_empty|].
    split; [intros k; rewrite dom_empty; split; [intros []%not_elem_of_empty | lia]|].
    intros j t Hj. done. }
  destruct (fmin_loop_inv n [] trials' si s1 Hinit Hloop) as [Hinv Hlen].
  rewrite run_bind. unfold lift at 1.
  destruct (best_trial trials') as [bt|e] eqn:Hbt; [|discriminate].
  rewrite run_bind. unfold alloc at 1. cbv zeta.
  intros [= <- <- <-]. exists s1, bt. done.
Qed.

Lemma run_cell_12 (best : loc) (trials : list trial) (s : state) (bt : trial)
    (r : Z) (d : gmap string pyval) (v : pyval) (n : Z) :
  best_trial trials = Ok bt ->
  early_stop_dict s !! tid bt = Some r ->
  heap s !! best = Some d ->
  d !! "num_leaves" = Some v -> py_int v = Ok n ->
  cell_12 best trials s
    = (Ok (),
       set_heap
         (<[best := <["verbose" := PyInt (-1)]>
                      (<["num_leaves" := PyInt n]>
                         (<["num_boost_round" := PyInt r]> d))]> (heap s)) s).
Proof.
  intros Hbt Hr Hp Hv En. unfold cell_12.
  rewrite run_bind. unfold lift at 1. rewrite Hbt.
  rewrite run_bind. unfold gets at 1.
  rewrite run_bind. unfold lift at 1. rewrite (getitem_Some _ _ _ Hr).
  rewrite run_bind, (run_dict_set _ _ _ _ _ Hp).
  set (s1 := set_heap _ s).
  assert (Hp1 : heap s1 !! best = Some (<["num_boost_round" := PyInt r]> d))
    by apply lookup_insert_eq.
  rewrite run_bind, (run_dict_get _ _ _ _ Hp1).
  rewrite (getitem_Some _ "num_leaves" v) by (rewrite lookup_insert_ne; done).
  rewrite run_bind. unfold lift at 1. rewrite En.
  rewrite run_bind, (run_dict_set _ _ _ _ _ Hp1).
  set (s2 := set_heap _ s1).
  assert (Hp2 : heap s2 !! best
                = Some (<["num_leaves" := PyInt n]>
                          (<["num_boost_round" := PyInt r]> d)))
    by apply lookup_insert_eq.
  rewrite (run_dict_set _ _ _ _ _ Hp2).
  f_equal. subst s2 s1. unfold set_heap. cbn [heap objective_i early_stop_dict].
  rewrite !insert_insert_eq. reflexivity.
Qed.

(** C10: objective writes into the dict the caller passed.  When the
    entries num_boost_round and num_leaves hold finite floats a and b,
    the engine is called on the dict that already has the two entries
    truncated to integers and verbose = -1, seed = 1 added; after
    the call, whether it returned or raised, the caller's dict is
    exactly that one: every other key is as before, and so is every
    other dict. *)
Theorem objective_mutates_params_in_place (p : loc) (s : state)
    (d : gmap string pyval) (a b : R) :
  heap s !! p = Some d ->
  d !! "num_boost_round" = Some (PyFloat (Fin a)) ->
  d !! "num_leaves" = Some (PyFloat (Fin b)) ->
  let d' := coerced d (trunc a) (trunc b) in
  let s1 := set_heap (<[p := d']> (heap s)) s in
  let out := objective train f1_score lgb_cv p s in
  out = match lgb_cv d' train (PyInt (trunc a)) (focal_loss_of d')
                (lgb_focal_f1_score f1_score) 3 true 20 with
        | Ok cv => record_and_score cv s1
        | Raise e => (Raise e, s1)
        end
  /\ heap out.2 !! p = Some d'
  /\ (forall q : loc, q <> p -> heap out.2 !! q = heap s !! q)
  /\ d' !! "num_boost_round" = Some (PyInt (trunc a))
  /\ d' !! "num_leaves" = Some (PyInt (trunc b))
  /\ d' !! "verbose" = Some (PyInt (-1))
  /\ d' !! "seed" = Some (PyInt 1)
  /\ (forall k : string,
        k <> "num_boost_round" -> k <> "num_leaves" ->
        k <> "verbose" -> k <> "seed" -> d' !! k = d !! k).
Proof.
  intros Hp H1 H2 d' s1 out.
  assert (Hout : out = match lgb_cv d' train (PyInt (trunc a)) (focal_loss_of d')
                               (lgb_focal_f1_score f1_score) 3 true 20 with
                       | Ok cv => record_and_score cv s1
                       | Raise e => (Raise e, s1)
                       end).
  { subst out. apply (run_objective p s d _ _ _ _ Hp H1 eq_refl H2 eq_refl). }
  assert (Hheap : heap out.2 = <[p := d']> (heap s)).
  { rewrite Hout. destruct (lgb_cv _ _ _ _ _ _ _ _); [|reflexivity].
    rewrite record_and_score_heap. reflexivity. }
  split; [exact Hout|].
  split; [rewrite Hheap; apply lookup_insert_eq|].
  split; [intros q Hq; rewrite Hheap; apply lookup_insert_ne; congruence|].
  subst d'. unfold coerced.
  split; [rewrite !lookup_insert_ne by done; apply lookup_insert_eq|].
  split; [rewrite !lookup_insert_ne by done; apply lookup_insert_eq|].
  split; [rewrite !lookup_insert_ne by done; apply lookup_insert_eq|].
  split; [apply lookup_insert_eq|].
  intros k K1 K2 K3 K4. rewrite !lookup_insert_ne by congruence. reflexivity.
Qed.

(** C3: when the cross-validated run returns a history of mean F1
    values whose last element is v, objective returns -(round(v, 4)),
    where round(v, 4) is a multiple of 1e-4 at most 0.5e-4 away from v,
    and stores the number of completed rounds, the length of that
    history, under the current trial counter; that number is the
    engine's and need not be the requested num_boost_round. *)
Theorem objective_returns_negated_rounded_f1 (p : loc) (s : state)
    (d : gmap string pyval) (v1 v2 : pyval) (n1 n2 : Z)
    (cv : gmap string (list np_float)) (hist : list np_float) (v : np_float) :
  heap s !! p = Some d ->
  d !! "num_boost_round" = Some v1 -> py_int v1 = Ok n1 ->
  d !! "num_leaves" = Some v2 -> py_int v2 = Ok n2 ->
  lgb_cv (coerced d n1 n2) train (PyInt n1) (focal_loss_of (coerced d n1 n2))
    (lgb_focal_f1_score f1_score) 3 true 20 = Ok cv ->
  cv !! "f1-mean" = Some hist ->
  last hist = Some v ->
  exists s' : state,
    objective train f1_score lgb_cv p s = (Ok (np_fneg (round4 v)), s')
    /\ early_stop_dict s' !! objective_i s = Some (Z.of_nat (length hist))
    /\ (forall r : R, v = Fin r ->
          exists k : Z,
            np_fneg (round4 v) = Fin (- (IZR k / 10000))
            /\ (Rabs (IZR k / 10000 - r) <= 1 / 20000)%R).
Proof.
  intros Hp H1 E1 H2 E2 Hcv Hh Hl.
  rewrite (run_objective p s d v1 v2 n1 n2 Hp H1 E1 H2 E2). cbv zeta.
  rewrite Hcv, (run_record_ok cv _ hist v Hh Hl).
  eexists. split; [reflexivity|]. cbn [early_stop_dict objective_i set_heap].
  split; [apply lookup_insert_eq|].
  intros r ->. destruct (round4_close r) as (k & -> & Hk).
  exists k. split; [reflexivity | exact Hk].
Qed.

(** C8, as amended: on a configuration whose cross-validation completes
    no round objective returns no score.  If the engine raises, the
    exception passes through objective; if its result has no 'f1-mean'
    entry the lookup raises KeyError and nothing is recorded; if the
    entry is the empty list, 0 is recorded under the current counter,
    the counter is not advanced and taking the last element raises
    IndexError.  An exception of objective ends the search loop: fmin
    runs no further trial. *)
Theorem objective_raises_on_empty_history (p : loc) (s : state)
    (d : gmap string pyval) (v1 v2 : pyval) (n1 n2 : Z) :
  heap s !! p = Some d ->
  d !! "num_boost_round" = Some v1 -> py_int v1 = Ok n1 ->
  d !! "num_leaves" = Some v2 -> py_int v2 = Ok n2 ->
  let d' := coerced d n1 n2 in
  let s1 := set_heap (<[p := d']> (heap s)) s in
  let cv_result := lgb_cv d' train (PyInt n1) (focal_loss_of d')
                     (lgb_focal_f1_score f1_score) 3 true 20 in
  (forall e : pyexn,
     cv_result = Raise e ->
     objective train f1_score lgb_cv p s = (Raise e, s1))
  /\ (forall cv : gmap string (list np_float),
        cv_result = Ok cv -> cv !! "f1-mean" = None ->
        objective train f1_score lgb_cv p s = (Raise KeyError, s1))
  /\ (forall cv : gmap string (list np_float),
        cv_result = Ok cv -> cv !! "f1-mean" = Some [] ->
        objective train f1_score lgb_cv p s
          = (Raise IndexError,
             set_early_stop_dict
               (<[objective_i s := 0%Z]> (early_stop_dict s)) s1))
  /\ (forall (k : nat) (trials : list trial) (s0 s' : state) (e : pyexn),
        let q := fresh (dom (heap s0)) in
        objective train f1_score lgb_cv q
          (set_heap (<[q := suggest trials]> (heap s0)) s0) = (Raise e, s') ->
        fmin_loop suggest (objective train f1_score lgb_cv) (S k) trials s0
          = (Raise e, s')).
Proof.
  intros Hp H1 E1 H2 E2 d' s1 cv_result.
  rewrite (run_objective p s d v1 v2 n1 n2 Hp H1 E1 H2 E2). cbv zeta.
  fold d' s1 cv_result.
  split; [|split; [|split]].
  - intros e ->. reflexivity.
  - intros cv -> E. apply (run_record_no_key cv _ E).
  - intros cv -> E. rewrite (run_record_empty cv _ E). reflexivity.
  - intros k trials s0 s' e Hq. cbn [fmin_loop]. cbv zeta.
    rewrite run_bind. unfold alloc at 1. cbv zeta.
    rewrite run_bind, Hq. reflexivity.
Qed.


(** C4: after a search that returns, cell 12 sets the num_boost_round
    entry of the returned best configuration to the value recorded under
    the best trial's identity, whatever round budget the strategy had
    proposed there, and leaves every key other than num_boost_round,
    num_leaves and verbose as proposed.  Trials being numbered in the
    order objective ran them, the value recorded under that identity is
    the number of rounds the engine completed on the best trial's own
    configuration. *)
Theorem best_num_boost_round_is_realized (n : nat) (s0 s1 : state) (best : loc)
    (trials : list trial) :
  search train f1_score lgb_cv suggest n s0 = (Ok (best, trials), s1) ->
  exists (bt : trial) (r : Z) (s2 : state) (d2 : gmap string pyval),
    best_trial trials = Ok bt
    /\ heap s1 !! best = Some (vals bt)
    /\ early_stop_dict s1 !! tid bt = Some r
    /\ realized_rounds' (vals bt) r
    /\ cell_12 best trials s1 = (Ok (), s2)
    /\ heap s2 !! best = Some d2
    /\ d2 !! "num_boost_round" = Some (PyInt r)
    /\ (forall k : string,
          k <> "num_boost_round" -> k <> "num_leaves" -> k <> "verbose" ->
          d2 !! k = vals bt !! k).
Proof.
  intros Hs.
  apply search_Ok_inv in Hs as (s & bt & (Hi & Hsz & Hdom & Htr) & Hlen & Hbt & Hb & ->).
  destruct (best_trial_lookup trials bt Hbt) as [j Hj].
  destruct (Htr j bt Hj) as (Ht & r & Hr & Hrr).
  pose proof Hrr as (v1 & v2 & n1 & n2 & cv & hist & H1 & E1 & H2 & E2 & _).
  set (s1 := set_heap _ s).
  assert (Hp : heap s1 !! best = Some (vals bt)) by apply lookup_insert_eq.
  eexists bt, r, _, _.
  split; [done|]. split; [done|]. split; [done|]. split; [done|].
  split; [apply (run_cell_12 best trials s1 bt r (vals bt) v2 n2); done|].
  cbn [heap set_heap].
  split; [apply lookup_insert_eq|].
  split; [rewrite !lookup_insert_ne by done; apply lookup_insert_eq|].
  intros k K1 K2 K3. rewrite !lookup_insert_ne by congruence. reflexivity.
Qed.

(* A search of one trial whose cross-validation returns a history. *)
Lemma run_search_one (s0 : state) (v1 v2 : pyval) (n1 n2 : Z)
    (cv : gmap string (list np_float)) (hist : list np_float) (v : np_float) :
  let cfg := suggest [] in
  cfg !! "num_boost_round" = Some v1 -> py_int v1 = Ok n1 ->
  cfg !! "num_leaves" = Some v2 -> py_int v2 = Ok n2 ->
  lgb_cv (coerced cfg n1 n2) train (PyInt n1) (focal_loss_of (coerced cfg n1 n2))
    (lgb_focal_f1_score f1_score) 3 true 20 = Ok cv ->
  cv !! "f1-mean" = Some hist ->
  last hist = Some v ->
  exists (best : loc) (s : state),
    search train f1_score lgb_cv suggest 1 s0
      = (Ok (best, [mkTrial 0 cfg (np_fneg (round4 v))]), s).
Proof.
  intros cfg H1 E1 H2 E2 Hcv Hh Hl.
  unfold search. rewrite run_bind. unfold modify at 1.
  rewrite run_bind. unfold modify at 1. unfold fmin.
  set (si := set_early_stop_dict ∅ (set_objective_i 0 s0)).
  rewrite run_bind. cbn [fmin_loop]. cbv zeta.
  rewrite run_bind. unfold alloc at 1. cbv zeta.
  set (p := fresh (dom (heap si))).
  rewrite run_bind.
  rewrite (run_objective p _ cfg v1 v2 n1 n2 (lookup_insert_eq _ _ _) H1 E1 H2 E2).
  cbv zeta. fold cfg. rewrite Hcv, (run_record_ok cv _ hist v Hh Hl).
  cbn [fmin_loop]. unfold mret at 1, M_ret at 1.
  rewrite run_bind. unfold lift at 1. cbn [app length best_trial argmin_from Z.of_nat].
  rewrite run_bind. unfold alloc at 1. cbv zeta.
  eexists _, _. reflexivity.
Qed.

End SearchFacts.

(** ** The notebook's functions on sample inputs *)

Lemma sample_config_rounds :
  sample_config !! "num_boost_round" = Some (PyFloat (Fin 60)).
Proof. reflexivity. Qed.

Lemma sample_config_leaves :
  sample_config !! "num_leaves" = Some (PyFloat (Fin 31)).
Proof. reflexivity. Qed.

Lemma zero_budget_config_rounds :
  zero_budget_config !! "num_boost_round" = Some (PyFloat (Fin 0)).
Proof. reflexivity. Qed.

Lemma zero_budget_config_leaves :
  zero_budget_config !! "num_leaves" = Some (PyFloat (Fin 31)).
Proof. reflexivity. Qed.

(* A search of one trial in which the engine stops after one round of the
   sixty asked for. *)
Lemma sample_search :
  exists (best : loc) (s : state),
    search sample_train sample_f1_score (engine_stopping_with [Fin (1 / 2)])
      (fun _ => sample_config) 1 init_state
      = (Ok (best, [mkTrial 0 sample_config (np_fneg (round4 (Fin (1 / 2))))]), s).
Proof.
  apply (run_search_one sample_train sample_f1_score
           (engine_stopping_with [Fin (1 / 2)]) (fun _ => sample_config)
           init_state _ _ _ _ _ [Fin (1 / 2)] (Fin (1 / 2))
           sample_config_rounds eq_refl sample_config_leaves eq_refl eq_refl).
  - reflexivity.
  - reflexivity.
Qed.

(* A trial on the sample configuration: the dict the caller holds ends up
   with the two truncated entries. *)
Lemma objective_mutates_params_in_place_witness :
  let s := mkState {[ 1%positive := sample_config ]} 0 ∅ in
  let out := objective sample_train sample_f1_score
               (engine_stopping_with [Fin (1 / 2)]) 1%positive s in
  heap s !! 1%positive = Some sample_config
  /\ sample_config !! "num_boost_round" = Some (PyFloat (Fin 60))
  /\ sample_config !! "num_leaves" = Some (PyFloat (Fin 31))
  /\ heap out.2 !! 1%positive = Some (coerced sample_config 60 31).
Proof.
  intros s out. split; [reflexivity|].
  split; [exact sample_config_rounds|]. split; [exact sample_config_leaves|].
  rewrite <- (trunc_IZR 60), <- (trunc_IZR 31).
  apply (objective_mutates_params_in_place sample_train sample_f1_score
           (engine_stopping_with [Fin (1 / 2)]) 1%positive s sample_config 60 31
           eq_refl sample_config_rounds sample_config_leaves).
Defined.

(* A trial in which the engine stops after one round of the sixty asked
   for: the score is -(round(0.5, 4)) and 1 is recorded under counter 0. *)
Lemma objective_returns_negated_rounded_f1_witness :
  let s := mkState {[ 1%positive := sample_config ]} 0 ∅ in
  let d' := coerced sample_config (trunc 60) (trunc 31) in
  heap s !! 1%positive = Some sample_config
  /\ sample_config !! "num_boost_round" = Some (PyFloat (Fin 60))
  /\ py_int (PyFloat (Fin 60)) = Ok (trunc 60)
  /\ sample_config !! "num_leaves" = Some (PyFloat (Fin 31))
  /\ py_int (PyFloat (Fin 31)) = Ok (trunc 31)
  /\ engine_stopping_with [Fin (1 / 2)] d' sample_train (PyInt (trunc 60))
       (focal_loss_of d') (lgb_focal_f1_score sample_f1_score) 3 true 20
     = Ok {[ "f1-mean" := [Fin (1 / 2)] ]}
  /\ ({[ "f1-mean" := [Fin (1 / 2)] ]} : gmap string (list np_float)) !! "f1-mean"
     = Some [Fin (1 / 2)]
  /\ last [Fin (1 / 2)] = Some (Fin (1 / 2))
  /\ exists s' : state,
       objective sample_train sample_f1_score
         (engine_stopping_with [Fin (1 / 2)]) 1%positive s
         = (Ok (np_fneg (round4 (Fin (1 / 2)))), s')
       /\ early_stop_dict s' !! 0%Z = Some 1%Z.
Proof.
  intros s d'. do 8 (split; [reflexivity|]).
  destruct (objective_returns_negated_rounded_f1 sample_train sample_f1_score
              (engine_stopping_with [Fin (1 / 2)]) 1%positive s sample_config
              _ _ _ _ _ [Fin (1 / 2)] (Fin (1 / 2))
              eq_refl sample_config_rounds eq_refl sample_config_leaves eq_refl
              eq_refl eq_refl eq_refl) as (s' & Ho & Hr & _).
  exists s'. split; [exact Ho | exact Hr].
Defined.

(* A trial with no round to run, on an engine that returns the empty
   dict. *)
Lemma objective_raises_on_empty_history_witness :
  let s := mkState {[ 1%positive := zero_budget_config ]} 0 ∅ in
  heap s !! 1%positive = Some zero_budget_config
  /\ zero_budget_config !! "num_boost_round" = Some (PyFloat (Fin 0))
  /\ py_int (PyFloat (Fin 0)) = Ok (trunc 0)
  /\ zero_budget_config !! "num_leaves" = Some (PyFloat (Fin 31))
  /\ py_int (PyFloat (Fin 31)) = Ok (trunc 31)
  /\ objective sample_train sample_f1_score engine_without_rounds 1%positive s
     = (Raise KeyError,
        set_heap (<[1%positive := coerced zero_budget_config 0 31]> (heap s)) s).
Proof.
  intros s. do 5 (split; [reflexivity|]).
  replace (coerced zero_budget_config 0 31)
    with (coerced zero_budget_config (trunc 0) (trunc 31))
    by (by rewrite !trunc_IZR).
  destruct (objective_raises_on_empty_history sample_train sample_f1_score
              engine_without_rounds (fun _ => zero_budget_config)
              1%positive s zero_budget_config _ _ _ _
              eq_refl zero_budget_config_rounds eq_refl zero_budget_config_leaves
              eq_refl) as (_ & Hk & _ & _).
  apply (Hk ∅ eq_refl eq_refl).
Defined.

(** C8, as stated, fails: with no completed round objective returns no
    score.  On the engine's empty result dict it raises KeyError, and on
    an empty 'f1-mean' history it raises IndexError. *)
Lemma objective_empty_history_counterexample :
  let s := mkState {[ 1%positive := zero_budget_config ]} 0 ∅ in
  (objective sample_train sample_f1_score engine_without_rounds 1%positive s).1
    = Raise KeyError
  /\ (objective sample_train sample_f1_score (engine_stopping_with [])
        1%positive s).1
     = Raise IndexError.
Proof.
  intros s. split.
  - rewrite (run_objective sample_train sample_f1_score engine_without_rounds
               1%positive s zero_budget_config _ _ _ _
               eq_refl zero_budget_config_rounds eq_refl
               zero_budget_config_leaves eq_refl).
    cbv zeta. unfold engine_without_rounds.
    rewrite run_record_no_key by reflexivity. reflexivity.
  - rewrite (run_objective sample_train sample_f1_score (engine_stopping_with [])
               1%positive s zero_budget_config _ _ _ _
               eq_refl zero_budget_config_rounds eq_refl
               zero_budget_config_leaves eq_refl).
    cbv zeta. unfold engine_stopping_with.
    rewrite run_record_empty by reflexivity. reflexivity.
Qed.


(* A search of one trial that stopped after one round of sixty: cell 12
   sets the budget of the returned configuration to 1. *)
Lemma best_num_boost_round_is_realized_witness :
  exists (best : loc) (trials : list trial) (s1 s2 : state)
         (d2 : gmap string pyval),
    search sample_train sample_f1_score (engine_stopping_with [Fin (1 / 2)])
      (fun _ => sample_config) 1 init_state = (Ok (best, trials), s1)
    /\ cell_12 best trials s1 = (Ok (), s2)
    /\ heap s2 !! best = Some d2
    /\ d2 !! "num_boost_round" = Some (PyInt 1).
Proof.
  destruct sample_search as (best & s1 & Hs).
  destruct (best_num_boost_round_is_realized _ _ _ _ _ _ _ _ _ Hs)
    as (bt & r & s2 & d2 & Hbt & _ & _ & Hrr & Hc & Hd & Hn & _).
  eexists _, _, _, s2, d2. split; [exact Hs|]. split; [exact Hc|].
  split; [exact Hd|]. rewrite Hn.
  injection Hbt as <-. cbn [vals] in Hrr.
  destruct Hrr as (v1 & v2 & n1 & n2 & cv & hist & _ & _ & _ & _ & Hcv & Hh & ->).
  unfold engine_stopping_with in Hcv. injection Hcv as <-.
  rewrite lookup_singleton_eq in Hh. injection Hh as <-. reflexivity.
Defined.

(** ** Overflow and the sigmoid in IEEE arithmetic *)

Section Overflow.
Local Open Scope R_scope.

Lemma DBL_MAX_ge_4 : 4 <= DBL_MAX.
Proof.
  unfold DBL_MAX. apply IZR_le. apply Z.leb_le. vm_compute. reflexivity.
Qed.

Lemma DBL_MAX_ge_2000 : 2000 <= DBL_MAX.
Proof.
  unfold DBL_MAX. apply IZR_le. apply Z.leb_le. vm_compute. reflexivity.
Qed.

Lemma overflow_fin (r : R) : - DBL_MAX <= r <= DBL_MAX -> overflow r = Fin r.
Proof.
  intros [Hl Hu]. unfold overflow.
  destruct (Rlt_dec DBL_MAX r); [lra|]. destruct (Rlt_dec r (- DBL_MAX)); [lra|].
  reflexivity.
Qed.

Lemma overflow_small (r : R) : -4 <= r <= 4 -> overflow r = Fin r.
Proof. intros H. apply overflow_fin. pose proof DBL_MAX_ge_4. lra. Qed.

Lemma overflow_PInf (r : R) : overflow r = PInf <-> DBL_MAX < r.
Proof.
  unfold overflow. destruct (Rlt_dec DBL_MAX r); [tauto|].
  destruct (Rlt_dec r (- DBL_MAX)); split; intros; try discriminate; lra.
Qed.

Lemma overflow_pos (r : R) :
  0 < r -> overflow r = PInf \/ (overflow r = Fin r /\ r <= DBL_MAX).
Proof.
  intros Hr. unfold overflow. pose proof DBL_MAX_ge_4.
  destruct (Rlt_dec DBL_MAX r); [by left|].
  destruct (Rlt_dec r (- DBL_MAX)); [lra|]. right. split; [done | lra].
Qed.

Lemma exp_mult_INR (x : R) (n : nat) : exp (INR n * x) = exp x ^ n.
Proof.
  induction n as [|n IH].
  - simpl. rewrite Rmult_0_l. apply exp_0.
  - rewrite S_INR, Rmult_plus_distr_r, Rmult_1_l, exp_plus, IH. simpl. ring.
Qed.

(* e^999 is not a double. *)
Lemma exp_999_overflows : DBL_MAX < exp 999.
Proof.
  replace 999 with (INR 1998 * (1 / 2))
    by (rewrite INR_IZR_INZ; change (Z.of_nat 1998) with 1998%Z; lra).
  rewrite exp_mult_INR.
  apply Rlt_le_trans with ((3 / 2) ^ 1998).
  - unfold Rdiv. rewrite Rpow_mult_distr, pow_inv, !pow_IZR. unfold DBL_MAX.
    apply Rmult_lt_reg_r with (IZR (2 ^ Z.of_nat 1998)).
    + apply IZR_lt. apply Z.ltb_lt. vm_compute. reflexivity.
    + rewrite Rmult_assoc, Rinv_l, Rmult_1_r.
      * rewrite <- mult_IZR. apply IZR_lt. apply Z.ltb_lt. vm_compute. reflexivity.
      * apply not_0_IZR. vm_compute. discriminate.
  - apply pow_incr. pose proof (exp_ineq1_le (1 / 2)). lra.
Qed.

(* e^600 is. *)
Lemma exp_600_fits : exp 600 <= DBL_MAX.
Proof.
  replace 600 with (INR 600 * 1)
    by (rewrite INR_IZR_INZ; change (Z.of_nat 600) with 600%Z; lra).
  rewrite exp_mult_INR.
  apply Rle_trans with (3 ^ 600).
  - apply pow_incr. pose proof (exp_pos 1). pose proof exp_le_3. lra.
  - rewrite pow_IZR. unfold DBL_MAX. apply IZR_le. apply Z.leb_le.
    vm_compute. reflexivity.
Qed.

Lemma exp_le_mono (x y : R) : x <= y -> exp x <= exp y.
Proof.
  intros [H| ->]; [left; by apply exp_increasing | lra].
Qed.

Lemma exp_1000_overflows : DBL_MAX < exp 1000.
Proof.
  apply Rlt_le_trans with (1 := exp_999_overflows). apply exp_le_mono. lra.
Qed.

End Overflow.

Section IEEEFacts.
Local Open Scope R_scope.

Lemma np_one : (one : np_float) = Fin 1.
Proof. unfold one. cbn [fcst np_float64]. by rewrite RMicromega.Q2R_1. Qed.

Lemma np_half : (fcst (1 # 2) : np_float) = Fin (1 / 2).
Proof. reflexivity. Qed.

Lemma sigmoid_scalar {F : Type} `{Float64 F} (x : F) :
  sigmoid (Scalar x) = Ok (Scalar (fdiv one (fadd one (fexp (fneg x))))).
Proof. reflexivity. Qed.

Lemma sigmoid_array {F : Type} `{Float64 F} (xs : list F) :
  sigmoid (Array xs)
    = Ok (Array (map (fun x => fdiv one (fadd one (fexp (fneg x)))) xs)).
Proof.
  unfold sigmoid, np_add, np_div, np_exp, np_neg. cbn [umap].
  rewrite bop_scalar_array, bind_Ok, bop_scalar_array, !map_map. reflexivity.
Qed.

(* The probability computed from a finite score. *)
Lemma sigmoid_value (r : R) :
  exists p : R,
    fdiv one (fadd one (fexp (fneg (Fin r)))) = Fin p
    /\ 0 <= p <= 1
    /\ (DBL_MAX < exp (- r) -> p = 0)
    /\ (exp (- r) <= DBL_MAX - 1 -> p = 1 / (1 + exp (- r)))
    /\ (1 / 2 < p <-> 0 < r).
Proof.
  assert (Hsmall : 0 < r -> exp (- r) < 1).
  { intros Hr. rewrite <- exp_0. apply exp_increasing. lra. }
  assert (Hbig : r <= 0 -> 1 <= exp (- r)).
  { intros Hr. rewrite <- exp_0. apply exp_le_mono. lra. }
  rewrite np_one. cbn [fdiv fadd fexp fneg np_float64 np_fneg np_fexp].
  pose proof DBL_MAX_ge_4 as HM.
  destruct (overflow_pos (exp (- r)) (exp_pos _)) as [E | [E He]]; rewrite E.
  - exists 0. cbn. split; [done|]. split; [lra|]. split; [done|].
    apply overflow_PInf in E. split; [intros Hle; lra|].
    split; [lra|]. intros Hr. apply Hsmall in Hr. lra.
  - cbn [np_fadd]. clear E.
    assert (H1e : 0 < 1 + exp (- r)) by (pose proof (exp_pos (- r)); lra).
    destruct (overflow_pos _ H1e) as [E | [E He1]]; rewrite E.
    + exists 0. cbn. split; [done|]. split; [lra|]. split; [done|].
      apply overflow_PInf in E. split; [intros Hle; lra|].
      split; [lra|]. intros Hr. apply Hsmall in Hr. lra.
    + cbn [np_fdiv]. destruct (Req_dec_T (1 + exp (- r)) 0) as [E0|_]; [lra|].
      assert (Hq : 0 < 1 / (1 + exp (- r)) <= 1).
      { pose proof (exp_pos (- r)). split.
        - apply Rdiv_lt_0_compat; lra.
        - apply (Rmult_le_reg_r (1 + exp (- r))); [lra|].
          unfold Rdiv. rewrite Rmult_assoc, Rinv_l by lra. lra. }
      exists (1 / (1 + exp (- r))).
      split; [apply overflow_small; lra|]. split; [lra|]. split; [lra|].
      split; [done|].
      assert (Hhalf : 1 / 2 < 1 / (1 + exp (- r)) <-> exp (- r) < 1).
      { pose proof (exp_pos (- r)) as Hpos. split; intros Hc.
        - apply (Rmult_lt_compat_r (1 + exp (- r))) in Hc; [|lra].
          unfold Rdiv at 2 in Hc. rewrite Rmult_assoc, Rinv_l in Hc by lra. lra.
        - apply (Rmult_lt_reg_r (1 + exp (- r))); [lra|].
          unfold Rdiv at 2. rewrite Rmult_assoc, Rinv_l by lra. lra. }
      rewrite Hhalf. split; [|apply Hsmall].
      intros Hc. destruct (Rlt_dec 0 r) as [|Hn]; [done|].
      assert (1 <= exp (- r)) by (apply Hbig; lra). lra.
Qed.

(** C2, as amended: for every finite raw score x the sigmoid, the same
    expression in [sigmoid] and as p inside [fl], returns a number in
    [0, 1] and raises nothing.  It is not stabilised: its exponential
    overflows to inf exactly when exp(-x) exceeds the largest finite
    double, which it does for every x <= -1000 and does not for
    x >= -600; the sigmoid is then 0. *)
Theorem sigmoid_in_unit_interval (r : R) :
  exists p : R,
    sigmoid (Scalar (Fin r)) = Ok (Scalar (Fin p))
    /\ (forall a g t : np_float, loss a g (Fin r) t = focal a g (Fin p) t)
    /\ 0 <= p <= 1
    /\ (np_exp (np_neg (Scalar (Fin r))) = Scalar PInf <-> DBL_MAX < exp (- r))
    /\ (DBL_MAX < exp (- r) -> p = 0)
    /\ (r <= -1000 -> DBL_MAX < exp (- r))
    /\ (-600 <= r -> exp (- r) <= DBL_MAX).
Proof.
  destruct (sigmoid_value r) as (p & Hp & Hb & H0 & _).
  exists p. rewrite sigmoid_scalar, Hp. split; [done|].
  split; [intros a g t; unfold loss; by rewrite Hp|].
  split; [done|].
  split.
  { cbn. rewrite <- overflow_PInf. split; [by intros [= ->] | by intros ->]. }
  split; [done|].
  split.
  - intros Hr. apply Rlt_le_trans with (1 := exp_1000_overflows).
    apply exp_le_mono. lra.
  - intros Hr. apply Rle_trans with (2 := exp_600_fits).
    apply exp_le_mono. lra.
Qed.

(** C2, as stated, fails: at the raw score -1000 the exponential inside
    the sigmoid overflows. *)
Lemma sigmoid_exponential_overflows :
  np_exp (np_neg (Scalar (Fin (-1000)))) = Scalar PInf (F := np_float)
  /\ sigmoid (Scalar (Fin (-1000))) = Ok (Scalar (Fin 0)).
Proof.
  assert (E : np_exp (np_neg (Scalar (Fin (-1000)))) = Scalar PInf (F := np_float)).
  { cbn. f_equal. apply overflow_PInf.
    replace (- -1000) with 1000 by lra. apply exp_1000_overflows. }
  split; [exact E|].
  unfold sigmoid. rewrite E. rewrite np_one. reflexivity.
Qed.

(** C6: on an array of raw scores lgb_focal_f1_score returns the triple
    ('f1', v, True), v being what f1_score returns on the labels and the
    list of binary predictions; prediction i is 1 if the sigmoid of score
    i is greater than 0.5 and 0 otherwise.  The comparison is strict: the
    score 0 has probability exactly 0.5, and 0.5 > 0.5 is false, so its
    prediction is 0. *)
Theorem lgb_focal_f1_score_thresholds_sigmoid
    (f1_score : ndval np_float -> list Z -> result np_float)
    (preds : list np_float) (lgbDataset : Dataset np_float) :
  exists binary_preds : list Z,
    lgb_focal_f1_score f1_score (Array preds) lgbDataset
      = (v ← f1_score (label lgbDataset) binary_preds; Ok ("f1"%string, v, true))
    /\ length binary_preds = length preds
    /\ (forall (i : nat) (x : np_float),
          preds !! i = Some x ->
          exists p : np_float,
            sigmoid (Scalar x) = Ok (Scalar p)
            /\ binary_preds !! i
               = Some (if fgt p (fcst (1 # 2)) then 1%Z else 0%Z))
    /\ sigmoid (Scalar (Fin 0)) = Ok (Scalar (Fin (1 / 2)))
    /\ fgt (Fin (1 / 2)) (fcst (1 # 2)) = false.
Proof.
  set (sg := fun x : np_float => fdiv one (fadd one (fexp (fneg x)))).
  set (th := fun p : np_float => if fgt p (fcst (1 # 2)) then 1%Z else 0%Z).
  exists (map th (map sg preds)).
  assert (Hi : forall (i : nat) (x : np_float),
             preds !! i = Some x -> map th (map sg preds) !! i = Some (th (sg x))).
  { intros i x Hx. by rewrite !list_lookup_fmap, Hx. }
  split; [unfold lgb_focal_f1_score; by rewrite sigmoid_array|].
  split; [by rewrite !length_map|].
  split.
  { intros i x Hx. exists (sg x). split; [apply sigmoid_scalar | by apply Hi]. }
  split.
  - rewrite sigmoid_scalar.
    destruct (sigmoid_value 0) as (p & -> & _ & _ & Hv & _).
    rewrite Hv.
    + do 3 f_equal. rewrite Ropp_0, exp_0. lra.
    + rewrite Ropp_0, exp_0. pose proof DBL_MAX_ge_4. lra.
  - rewrite np_half. cbn. destruct (Rlt_dec (1 / 2) (1 / 2)); [lra | done].
Qed.

(** C7, as amended: focal_loss_lgb does not look at the label values.
    For every batch with as many labels as scores, whatever the labels
    are, it returns a gradient and a Hessian array of the batch's length,
    computed by the same stencils of the same loss expression. *)
Theorem focal_loss_lgb_does_not_check_labels
    (y_pred y_true : list np_float) (alpha gamma : np_float) :
  length y_pred = length y_true ->
  exists grad hess : list np_float,
    focal_loss_lgb (Array y_pred) {| label := Array y_true |} alpha gamma
      = Ok (Array grad, Array hess)
    /\ length grad = length y_pred
    /\ length hess = length y_pred
    /\ forall (i : nat) (x t : np_float),
         y_pred !! i = Some x -> y_true !! i = Some t ->
         grad !! i
           = Some (three_point (fdiv (fcst (-1)) (fcst 2)) (fdiv zero (fcst 2))
                     (fdiv one (fcst 2)) (fun x' => loss alpha gamma x' t) x step
                     (product (replicate 1 step)))
         /\ hess !! i
            = Some (three_point one (fcst (-2)) one
                      (fun x' => loss alpha gamma x' t) x step
                      (product (replicate 2 step))).
Proof.
  intros E. rewrite (focal_loss_lgb_arrays alpha gamma y_pred y_true E).
  eexists _, _. split; [reflexivity|].
  split; [rewrite length_zip_with; lia|].
  split; [rewrite length_zip_with; lia|].
  intros i x t Hx Ht. by rewrite !lookup_zip_with, Hx, Ht.
Qed.

(** C7, as stated, fails: a batch whose only label is 2 gets a gradient
    and a Hessian. *)
Lemma focal_loss_lgb_accepts_label_2 :
  exists grad hess : list np_float,
    focal_loss_lgb (Array [Fin 0]) {| label := Array [Fin 2] |}
      (Fin (1 / 4)) (Fin 2)
      = Ok (Array grad, Array hess)
    /\ length grad = 1%nat /\ length hess = 1%nat.
Proof.
  rewrite (focal_loss_lgb_arrays (Fin (1 / 4)) (Fin 2) [Fin 0] [Fin 2] eq_refl).
  eexists _, _. split; [reflexivity|]. split; reflexivity.
Qed.

(* One sample with score 0 and label 2. *)
Lemma focal_loss_lgb_does_not_check_labels_witness :
  length [Fin 0] = length [Fin 2]
  /\ exists grad hess : list np_float,
       focal_loss_lgb (Array [Fin 0]) {| label := Array [Fin 2] |}
         (Fin (1 / 4)) (Fin 2)
         = Ok (Array grad, Array hess)
       /\ length grad = 1%nat.
Proof.
  split; [reflexivity|].
  destruct (focal_loss_lgb_does_not_check_labels [Fin 0] [Fin 2]
              (Fin (1 / 4)) (Fin 2) eq_refl) as (grad & hess & Hf & Hg & _).
  exists grad, hess. split; [exact Hf | exact Hg].
Defined.

Lemma np_fpow_zero (b : np_float) : np_fpow b (Fin 0) = Fin 1.
Proof. unfold np_fpow. destruct (Req_dec_T 0 0); [done | lra]. Qed.

Local Ltac np_arith :=
  repeat (cbn [fadd fsub fmul fneg fpow np_float64
               np_fadd np_fsub np_fmul np_fneg];
          rewrite ?np_fpow_zero;
          try rewrite overflow_small by lra).

(* With alpha = 0.5 and gamma = 0 the focal expression is half the
   log-loss expression, for the labels 0 and 1 and every probability,
   finite or not. *)
Lemma focal_half_log_loss (x t : np_float) :
  t = Fin 0 \/ t = Fin 1 ->
  loss (Fin (1 / 2)) (Fin 0) x t = fmul (Fin (1 / 2)) (binary_log_loss x t).
Proof.
  unfold loss, focal, binary_log_loss. cbv zeta.
  generalize (fdiv one (fadd one (fexp (fneg x)))). intros p.
  set (l := fadd (fmul t (flog p)) (fmul (fsub one t) (flog (fsub one p)))).
  clearbody l. rewrite np_one.
  intros [-> | ->]; np_arith;
    destruct l as [r| | |]; cbn [np_fmul np_fneg]; try reflexivity;
    try (f_equal; lra);
    unfold inf_times;
    repeat match goal with
           | |- context [Rlt_dec ?a ?b] => destruct (Rlt_dec a b); try lra
           end;
    reflexivity.
Qed.

(** *** The stencils with special values

    The exact-arithmetic formulas of the two stencils hold in [np_float],
    which does not round, up to overflow, whenever the three loss values
    are finite and, for the second difference, its partial sums stay in
    range. *)

Lemma np_fmul_Fin_range (x y : np_float) (r : R) :
  np_fmul x y = Fin r -> - DBL_MAX <= r <= DBL_MAX.
Proof.
  destruct x as [a| | |], y as [b| | |]; cbn [np_fmul]; try discriminate;
    unfold inf_times, overflow;
    repeat match goal with
           | |- context [Rlt_dec ?u ?v] => destruct (Rlt_dec u v)
           | |- context [if ?c then _ else _] => destruct c
           end;
    try discriminate.
  intros [= <-]. lra.
Qed.

Lemma loss_Fin_range (a g x t : np_float) (r : R) :
  loss a g x t = Fin r -> - DBL_MAX <= r <= DBL_MAX.
Proof. unfold loss, focal. apply np_fmul_Fin_range. Qed.

Lemma np_weights_1 :
  (fdiv (fcst (-1)) (fcst 2) : np_float) = Fin (- (1 / 2))
  /\ (fdiv zero (fcst 2) : np_float) = Fin 0
  /\ (fdiv one (fcst 2) : np_float) = Fin (1 / 2).
Proof.
  unfold zero, one. cbn [fdiv fcst np_float64 np_fdiv].
  unfold Q2R. cbn [Qnum Qden].
  repeat split;
    (destruct (Req_dec_T (2 * / 1) 0) as [E|_]; [lra|]);
    rewrite overflow_small by lra; f_equal; lra.
Qed.

Lemma np_step : (step : np_float) = Fin (1 / 1000000).
Proof. reflexivity. Qed.

Lemma np_three_point_1 (f : np_float -> np_float) (x : np_float) (A B C : R) :
  - DBL_MAX <= A <= DBL_MAX -> - DBL_MAX <= B <= DBL_MAX ->
  - DBL_MAX <= C <= DBL_MAX ->
  f (fadd x (fmul (fcst (-1)) step)) = Fin A ->
  f (fadd x (fmul (fcst 0) step)) = Fin B ->
  f (fadd x (fmul (fcst 1) step)) = Fin C ->
  three_point (fdiv (fcst (-1)) (fcst 2)) (fdiv zero (fcst 2)) (fdiv one (fcst 2))
    f x step (product (replicate 1 step))
  = overflow ((C - A) / (2 * (1 / 1000000))).
Proof.
  intros HA HB HC EA EB EC. unfold three_point. rewrite EA, EB, EC.
  destruct np_weights_1 as (-> & -> & ->).
  unfold product. cbn [replicate fold_left]. unfold zero. rewrite np_one, np_step.
  cbn [fcst fadd fmul fdiv np_float64 np_fadd np_fmul]. rewrite RMicromega.Q2R_0.
  pose proof DBL_MAX_ge_4 as HM.
  repeat (cbn [np_fadd np_fmul]; rewrite overflow_fin by lra).
  cbn [np_fdiv]. destruct (Req_dec_T (1 * (1 / 1000000)) 0) as [E|_]; [lra|].
  f_equal. field.
Qed.

Lemma np_three_point_2 (f : np_float -> np_float) (x : np_float) (A B C : R) :
  - DBL_MAX <= A <= DBL_MAX -> - DBL_MAX <= 2 * B <= DBL_MAX ->
  - DBL_MAX <= A - 2 * B <= DBL_MAX ->
  - DBL_MAX <= A - 2 * B + C <= DBL_MAX -> - DBL_MAX <= C <= DBL_MAX ->
  f (fadd x (fmul (fcst (-1)) step)) = Fin A ->
  f (fadd x (fmul (fcst 0) step)) = Fin B ->
  f (fadd x (fmul (fcst 1) step)) = Fin C ->
  three_point one (fcst (-2)) one f x step (product (replicate 2 step))
  = overflow ((C - 2 * B + A) / (1 / 1000000) ^ 2).
Proof.
  intros HA HB HAB HABC HC EA EB EC. unfold three_point. rewrite EA, EB, EC.
  unfold product. cbn [replicate fold_left]. unfold zero. rewrite np_one, np_step.
  cbn [fcst fadd fmul fdiv np_float64 np_fadd np_fmul]. rewrite RMicromega.Q2R_0.
  replace (Q2R (-2)) with (-2) by (unfold Q2R; cbn [Qnum Qden]; lra).
  pose proof DBL_MAX_ge_4 as HM.
  repeat (cbn [np_fadd np_fmul]; rewrite overflow_fin by lra).
  cbn [np_fdiv].
  destruct (Req_dec_T (1 * (1 / 1000000) * (1 / 1000000)) 0) as [E|_]; [lra|].
  f_equal. field.
Qed.

(* The gradient and Hessian entries of focal_loss_lgb in IEEE arithmetic,
   at a sample whose three loss values are finite. *)
Lemma focal_loss_lgb_central_differences_ieee
    (y_pred y_true : list np_float) (alpha gamma : np_float) :
  length y_pred = length y_true ->
  exists grad hess : list np_float,
    focal_loss_lgb (Array y_pred) {| label := Array y_true |} alpha gamma
      = Ok (Array grad, Array hess)
    /\ forall (i : nat) (x t : np_float) (A B C : R),
         y_pred !! i = Some x -> y_true !! i = Some t ->
         loss alpha gamma (fadd x (fmul (fcst (-1)) step)) t = Fin A ->
         loss alpha gamma (fadd x (fmul (fcst 0) step)) t = Fin B ->
         loss alpha gamma (fadd x (fmul (fcst 1) step)) t = Fin C ->
         grad !! i = Some (overflow ((C - A) / (2 * (1 / 1000000))))
         /\ (- DBL_MAX <= 2 * B <= DBL_MAX ->
             - DBL_MAX <= A - 2 * B <= DBL_MAX ->
             - DBL_MAX <= A - 2 * B + C <= DBL_MAX ->
             hess !! i = Some (overflow ((C - 2 * B + A) / (1 / 1000000) ^ 2))).
Proof.
  intros E. rewrite (focal_loss_lgb_arrays alpha gamma y_pred y_true E).
  eexists _, _. split; [reflexivity|].
  intros i x t A B C Hx Ht EA EB EC.
  pose proof (loss_Fin_range _ _ _ _ _ EA) as HA.
  pose proof (loss_Fin_range _ _ _ _ _ EB) as HB.
  pose proof (loss_Fin_range _ _ _ _ _ EC) as HC.
  rewrite !lookup_zip_with, Hx, Ht. cbn [mbind option_bind]. split.
  - f_equal.
    apply (np_three_point_1 (fun x' => loss alpha gamma x' t) x A B C); done.
  - intros H2B HAB HABC. f_equal.
    apply (np_three_point_2 (fun x' => loss alpha gamma x' t) x A B C); done.
Qed.

(** *** The focal loss where the sigmoid has overflowed *)

Lemma inf_times_pos (pos : bool) (r : R) :
  0 < r -> inf_times pos r = if pos then PInf else NInf.
Proof. intros Hr. unfold inf_times. destruct (Rlt_dec 0 r); [done | lra]. Qed.

Lemma inf_times_neg (pos : bool) (r : R) :
  r < 0 -> inf_times pos r = if pos then NInf else PInf.
Proof.
  intros Hr. unfold inf_times. destruct (Rlt_dec 0 r); [lra|].
  destruct (Rlt_dec r 0); [done | lra].
Qed.

Lemma inf_times_zero (pos : bool) : inf_times pos 0 = NaN.
Proof.
  unfold inf_times. destruct (Rlt_dec 0 0); [lra|]. destruct (Rlt_dec 0 0); [lra | done].
Qed.

Lemma np_fpow_one (b : R) : np_fpow (Fin 1) (Fin b) = Fin 1.
Proof.
  unfold np_fpow. destruct (Req_dec_T b 0); [done|].
  destruct (Rlt_dec 0 1); [|lra].
  unfold Rpower. rewrite ln_1, Rmult_0_r, exp_0. apply overflow_small. lra.
Qed.

(* For the label 1 the loss is inf wherever exp(-x) overflows. *)
Lemma loss_inf_at_overflow (r : R) :
  DBL_MAX < exp (- r) ->
  loss (Fin (1 / 4)) (Fin 2) (Fin r) (Fin 1) = PInf.
Proof.
  intros Hov. unfold loss.
  destruct (sigmoid_value r) as (p & -> & _ & Hp & _). rewrite (Hp Hov).
  unfold focal. rewrite np_one.
  cbn [flog np_float64 np_flog].
  destruct (Rlt_dec 0 0) as [E|_]; [lra|].
  destruct (Req_dec_T 0 0) as [_|E]; [|lra].
  np_arith.
  replace (1 + - (1 * 0 + (1 + - (1)) * (1 + - 0))) with 1 by lra.
  rewrite np_fpow_one.
  replace (1 + - 0) with 1 by lra.
  cbn [np_flog]. destruct (Rlt_dec 0 1); [|lra]. rewrite ln_1.
  rewrite (inf_times_pos false 1) by lra.
  np_arith. cbn [np_fadd np_fmul]. apply inf_times_neg. lra.
Qed.

(* The three evaluation points of the stencil around -1000. *)
Lemma points_near_minus_1000 (k : Q) :
  (k = (-1)%Q \/ k = 0%Q \/ k = 1%Q) ->
  exists r : R,
    (fadd (Fin (-1000)) (fmul (fcst k) step) : np_float) = Fin r /\ r <= -999.
Proof.
  pose proof DBL_MAX_ge_2000 as HM.
  intros Hk. exists (-1000 + Q2R k * (1 / 1000000)).
  assert (Hq : -1 <= Q2R k <= 1).
  { destruct Hk as [-> | [-> | ->]]; unfold Q2R; cbn [Qnum Qden]; lra. }
  rewrite np_step. cbn [fadd fmul fcst np_float64 np_fadd np_fmul].
  rewrite (overflow_small (Q2R k * (1 / 1000000))) by lra.
  cbn [np_fadd]. split; [apply overflow_fin; lra | lra].
Qed.

Lemma loss_near_minus_1000 (k : Q) :
  (k = (-1)%Q \/ k = 0%Q \/ k = 1%Q) ->
  loss (Fin (1 / 4)) (Fin 2) (fadd (Fin (-1000)) (fmul (fcst k) step)) (Fin 1)
    = PInf.
Proof.
  intros Hk. destruct (points_near_minus_1000 k Hk) as (r & -> & Hr).
  apply loss_inf_at_overflow.
  apply Rlt_le_trans with (1 := exp_999_overflows). apply exp_le_mono. lra.
Qed.

(* At the raw score -1000 with label 1 the objective returns nan for the
   gradient and for the Hessian. *)
Lemma focal_loss_lgb_nan_at_minus_1000 :
  focal_loss_lgb (Array [Fin (-1000)]) {| label := Array [Fin 1] |}
    (Fin (1 / 4)) (Fin 2)
    = Ok (Array [NaN], Array [NaN]).
Proof.
  rewrite (focal_loss_lgb_arrays (Fin (1 / 4)) (Fin 2) [Fin (-1000)] [Fin 1] eq_refl).
  cbn [zip_with]. unfold three_point.
  rewrite !loss_near_minus_1000 by tauto.
  destruct np_weights_1 as (-> & -> & ->).
  unfold zero. rewrite np_one.
  cbn [fcst fadd fmul fdiv np_float64 np_fadd np_fmul].
  rewrite RMicromega.Q2R_0.
  replace (Q2R (-2)) with (-2) by (unfold Q2R; cbn [Qnum Qden]; lra).
  rewrite (inf_times_neg true (- (1 / 2))) by lra.
  rewrite (inf_times_neg true (-2)) by lra.
  rewrite (inf_times_pos true 1) by lra.
  rewrite inf_times_zero.
  reflexivity.
Qed.

End IEEEFacts.

(** ** The log-loss limit in exact arithmetic: derivatives and tolerances *)

Section LogLossLimit.
Local Open Scope R_scope.

Lemma dlim_eq (f : R -> R) (x l l' : R) :
  derivable_pt_lim f x l -> l = l' -> derivable_pt_lim f x l'.
Proof. by intros H <-. Qed.

Lemma dlim_exp_opp (x : R) : derivable_pt_lim (fun y => exp (- y)) x (- exp (- x)).
Proof.
  apply (dlim_eq _ _ (exp (- x) * -1)); [|ring].
  apply (derivable_pt_lim_comp (fun y => - y) exp).
  - apply (dlim_eq _ _ (- 1)); [|ring].
    apply (derivable_pt_lim_opp Ranalysis1.id). apply derivable_pt_lim_id.
  - apply derivable_pt_lim_exp.
Qed.

Lemma dlim_den (x : R) :
  derivable_pt_lim (fun y => 1 + exp (- y)) x (- exp (- x)).
Proof.
  apply (dlim_eq _ _ (0 + - exp (- x))); [|ring].
  apply (derivable_pt_lim_plus (fct_cte 1) (fun y => exp (- y))).
  - apply derivable_pt_lim_const.
  - apply dlim_exp_opp.
Qed.

Lemma logistic_range (x : R) : 0 < logistic x < 1.
Proof.
  unfold logistic. pose proof (exp_pos (- x)) as He. split.
  - apply Rdiv_lt_0_compat; lra.
  - apply (Rmult_lt_reg_r (1 + exp (- x))); [lra|].
    unfold Rdiv. rewrite Rmult_assoc, Rinv_l by lra. lra.
Qed.

Lemma logistic_compl (x : R) : 1 - logistic x = exp (- x) / (1 + exp (- x)).
Proof. unfold logistic. pose proof (exp_pos (- x)). field. lra. Qed.

Lemma dlim_logistic (x : R) : derivable_pt_lim logistic x (logistic_d1 x).
Proof.
  pose proof (exp_pos (- x)) as He.
  apply (dlim_eq _ _ ((0 * (1 + exp (- x)) - - exp (- x) * 1) / Rsqr (1 + exp (- x)))).
  - apply (derivable_pt_lim_div (fct_cte 1) (fun y => 1 + exp (- y))).
    + apply derivable_pt_lim_const.
    + apply dlim_den.
    + lra.
  - unfold logistic_d1. rewrite logistic_compl. unfold logistic, Rsqr. field. lra.
Qed.

Lemma dlim_softplus (x : R) :
  derivable_pt_lim (fun y => ln (1 + exp (- y))) x (logistic x - 1).
Proof.
  pose proof (exp_pos (- x)) as He.
  apply (dlim_eq _ _ (/ (1 + exp (- x)) * - exp (- x))).
  - apply (derivable_pt_lim_comp (fun y => 1 + exp (- y)) ln).
    + apply dlim_den.
    + apply derivable_pt_lim_ln. lra.
  - unfold logistic. field. lra.
Qed.

Lemma dlim_logistic_d1 (x : R) : derivable_pt_lim logistic_d1 x (logistic_d2 x).
Proof.
  apply (dlim_eq _ _ (logistic_d1 x * (1 - logistic x) + logistic x * (0 - logistic_d1 x))).
  - apply (derivable_pt_lim_mult logistic (fun y => 1 - logistic y)).
    + apply dlim_logistic.
    + apply (derivable_pt_lim_minus (fct_cte 1) logistic).
      * apply derivable_pt_lim_const.
      * apply dlim_logistic.
  - unfold logistic_d2, logistic_d1. ring.
Qed.

Lemma logistic_d1_range (x : R) : 0 <= logistic_d1 x <= 1 / 4.
Proof.
  unfold logistic_d1. pose proof (logistic_range x).
  pose proof (Rle_0_sqr (logistic x - 1 / 2)) as Hs. unfold Rsqr in Hs. nra.
Qed.

Lemma logistic_d2_range (x : R) : - (1 / 4) <= logistic_d2 x <= 1 / 4.
Proof.
  unfold logistic_d2. pose proof (logistic_d1_range x). pose proof (logistic_range x). nra.
Qed.

(* A function whose derivative stays within [-k, k] is k-Lipschitz. *)
Lemma lipschitz (f f' : R -> R) (k : R) :
  (forall c, derivable_pt_lim f c (f' c)) ->
  (forall c, - k <= f' c <= k) ->
  forall x y, Rabs (f y - f x) <= k * Rabs (y - x).
Proof.
  intros Hd Hb x y.
  assert (Hlt : forall a b, a < b -> Rabs (f b - f a) <= k * (b - a)).
  { intros a b Hab.
    destruct (MVT_cor2 f f' a b Hab (fun c _ => Hd c)) as (c & -> & _).
    pose proof (Hb c). apply Rabs_le. nra. }
  destruct (Rtotal_order x y) as [Hxy | [-> | Hxy]].
  - rewrite (Rabs_right (y - x)) by lra. by apply Hlt.
  - replace (f y - f y) with 0 by ring. rewrite Rabs_R0.
    replace (y - y) with 0 by ring. rewrite Rabs_R0. lra.
  - rewrite (Rabs_minus_sym (f y)), (Rabs_minus_sym y).
    rewrite (Rabs_right (x - y)) by lra. by apply Hlt.
Qed.

Lemma Int_part_0 : Int_part 0 = 0%Z.
Proof. symmetry. apply Int_part_spec. lra. Qed.

Lemma R_pow_zero (b : R) : R_pow b 0 = 1.
Proof.
  unfold R_pow, is_int. rewrite Int_part_0.
  destruct (Req_dec_T 0 0); [reflexivity | contradiction].
Qed.

Lemma sigmoid_logistic (x : R) : sigmoid (Scalar x) = Ok (Scalar (logistic x)).
Proof.
  rewrite sigmoid_scalar. cbn [fdiv fadd fexp fneg R_float64].
  by rewrite R_one.
Qed.

(* The log-loss of a label 0 or 1 in closed form. *)
Lemma binary_log_loss_closed (x t : R) :
  t = 0 \/ t = 1 ->
  binary_log_loss x t = ln (1 + exp (- x)) + (1 - t) * x.
Proof.
  pose proof (exp_pos (- x)) as He.
  unfold binary_log_loss. cbv zeta. cbn [fdiv fadd fsub fmul fneg fexp flog R_float64].
  rewrite R_one.
  assert (Hp : ln (1 / (1 + exp (- x))) = - ln (1 + exp (- x))).
  { unfold Rdiv. rewrite Rmult_1_l. apply ln_Rinv. lra. }
  assert (Hq : ln (1 - 1 / (1 + exp (- x))) = - x - ln (1 + exp (- x))).
  { replace (1 - 1 / (1 + exp (- x))) with (exp (- x) * / (1 + exp (- x)))
      by (field; lra).
    rewrite ln_mult, ln_exp, ln_Rinv; [ring | lra | lra |].
    apply Rinv_0_lt_compat. lra. }
  rewrite Hp, Hq. intros [-> | ->]; ring.
Qed.

Lemma loss_half_R (x t : R) :
  loss (1 / 2) 0 x t = 1 / 2 * binary_log_loss x t.
Proof.
  unfold loss, focal, binary_log_loss. cbv zeta.
  cbn [fdiv fadd fsub fmul fneg fexp flog fpow R_float64].
  rewrite R_pow_zero, R_one.
  set (l := t * ln _ + (1 - t) * ln _). clearbody l. lra.
Qed.

Lemma dlim_binary_log_loss (x t : R) :
  t = 0 \/ t = 1 ->
  derivable_pt_lim (fun y => binary_log_loss y t) x (log_loss_grad x t).
Proof.
  intros Ht.
  apply (derivable_pt_lim_ext (fun y => ln (1 + exp (- y)) + (1 - t) * y)).
  { intros z. symmetry. by apply binary_log_loss_closed. }
  apply (dlim_eq _ _ ((logistic x - 1) + (1 - t) * 1)); [|unfold log_loss_grad; ring].
  apply (derivable_pt_lim_plus (fun y => ln (1 + exp (- y))) (fun y => (1 - t) * y)).
  - apply dlim_softplus.
  - apply (derivable_pt_lim_scal Ranalysis1.id). apply derivable_pt_lim_id.
Qed.

Lemma dlim_log_loss_grad (x t : R) :
  derivable_pt_lim (fun y => log_loss_grad y t) x (log_loss_hess x).
Proof.
  apply (dlim_eq _ _ (logistic_d1 x - 0)); [|unfold log_loss_hess; ring].
  apply (derivable_pt_lim_minus logistic (fct_cte t)).
  - apply dlim_logistic.
  - apply derivable_pt_lim_const.
Qed.

(* The centred difference of f is within k h of f'(x) when f' is
   k-Lipschitz. *)
Lemma central_difference_tolerance (f f' : R -> R) (k x h : R) :
  (forall c, derivable_pt_lim f c (f' c)) ->
  (forall a b, Rabs (f' b - f' a) <= k * Rabs (b - a)) ->
  0 < h ->
  Rabs ((f (x + h) - f (x - h)) / (2 * h) - f' x) <= k * h.
Proof.
  intros Hd Hl Hh.
  destruct (MVT_cor2 f f' (x - h) (x + h) ltac:(lra) (fun c _ => Hd c))
    as (c & Hc & Hin).
  rewrite Hc. replace (f' c * (x + h - (x - h)) / (2 * h)) with (f' c) by (field; lra).
  apply Rle_trans with (1 := Hl x c).
  assert (0 <= k).
  { pose proof (Hl 0 1) as H1. pose proof (Rabs_pos (f' 1 - f' 0)).
    rewrite Rminus_0_r, Rabs_R1 in H1. lra. }
  assert (Rabs (c - x) <= h) by (apply Rabs_le; lra). nra.
Qed.

(* The three-point second difference of f is within k h of f''(x) when
   f'' is k-Lipschitz. *)
Lemma second_difference_tolerance (f f' f'' : R -> R) (k x h : R) :
  (forall c, derivable_pt_lim f c (f' c)) ->
  (forall c, derivable_pt_lim f' c (f'' c)) ->
  (forall a b, Rabs (f'' b - f'' a) <= k * Rabs (b - a)) ->
  0 < h ->
  Rabs ((f (x + h) - 2 * f x + f (x - h)) / h ^ 2 - f'' x) <= k * h.
Proof.
  intros Hd1 Hd2 Hl Hh.
  assert (Hphi : forall c, derivable_pt_lim (fun y => f (y + h) - f y) c
                             (f' (c + h) - f' c)).
  { intros c.
    apply (derivable_pt_lim_minus (fun y => f (y + h)) f); [|apply Hd1].
    apply (dlim_eq _ _ (f' (c + h) * (1 + 0))); [|ring].
    apply (derivable_pt_lim_comp (fun y => y + h) f); [|apply Hd1].
    apply (derivable_pt_lim_plus Ranalysis1.id (fct_cte h)).
    - apply derivable_pt_lim_id.
    - apply derivable_pt_lim_const. }
  destruct (MVT_cor2 _ _ (x - h) x ltac:(lra) (fun c _ => Hphi c))
    as (c1 & Hc1 & Hin1).
  cbv beta in Hc1. replace (x - h + h) with x in Hc1 by ring.
  destruct (MVT_cor2 f' f'' c1 (c1 + h) ltac:(lra) (fun c _ => Hd2 c))
    as (c2 & Hc2 & Hin2).
  rewrite Hc2 in Hc1.
  replace ((f (x + h) - 2 * f x + f (x - h)) / h ^ 2) with (f'' c2).
  2:{ replace (f (x + h) - 2 * f x + f (x - h))
        with (f (x + h) - f x - (f x - f (x - h))) by ring.
      rewrite Hc1. field. lra. }
  apply Rle_trans with (1 := Hl x c2).
  assert (0 <= k).
  { pose proof (Hl 0 1) as H1. pose proof (Rabs_pos (f'' 1 - f'' 0)).
    rewrite Rminus_0_r, Rabs_R1 in H1. lra. }
  assert (Rabs (c2 - x) <= h) by (apply Rabs_le; lra). nra.
Qed.

(* The log-loss limit when nothing rounds or overflows: over the real
   numbers, an idealisation of float64, the focal loss with gamma = 0 and
   alpha = 0.5 is half the binary log-loss, whose gradient and Hessian
   with respect to the raw score are p - t and p (1 - p), and entry i of
   the arrays focal_loss_lgb returns differs from 0.5 (p - t) and from
   0.5 p (1 - p) by at most 1.25e-7, which is h / 8 for the step h = 1e-6.
   float64 does not keep that tolerance: the second difference divides
   rounding errors by h^2. *)
Lemma half_log_loss_limit_exact :
  (forall x t : R, loss (1 / 2) 0 x t = 1 / 2 * binary_log_loss x t)
  /\ (forall x t : R,
        t = 0 \/ t = 1 ->
        sigmoid (Scalar x) = Ok (Scalar (logistic x))
        /\ derivable_pt_lim (fun y => binary_log_loss y t) x (log_loss_grad x t)
        /\ derivable_pt_lim (fun y => log_loss_grad y t) x (log_loss_hess x))
  /\ (forall y_pred y_true : list R,
        length y_pred = length y_true ->
        (forall t : R, t ∈ y_true -> t = 0 \/ t = 1) ->
        exists grad hess : list R,
          focal_loss_lgb (Array y_pred) {| label := Array y_true |} (1 / 2) 0
            = Ok (Array grad, Array hess)
          /\ forall (i : nat) (x t : R),
               y_pred !! i = Some x -> y_true !! i = Some t ->
               exists g h : R,
                 grad !! i = Some g
                 /\ hess !! i = Some h
                 /\ Rabs (g - 1 / 2 * log_loss_grad x t) <= 1 / 8000000
                 /\ Rabs (h - 1 / 2 * log_loss_hess x) <= 1 / 8000000).
Proof.
  split; [exact loss_half_R|].
  split.
  { intros x t Ht. split; [apply sigmoid_logistic|].
    split; [by apply dlim_binary_log_loss | apply dlim_log_loss_grad]. }
  intros y_pred y_true E Hlab.
  rewrite (focal_loss_lgb_arrays (1 / 2) 0 y_pred y_true E).
  eexists _, _. split; [reflexivity|].
  intros i x t Hx Ht.
  assert (Ht01 : t = 0 \/ t = 1).
  { apply Hlab. apply list_elem_of_lookup. by exists i. }
  rewrite !lookup_zip_with, Hx, Ht. cbn [mbind option_bind].
  eexists _, _. split; [reflexivity|]. split; [reflexivity|].
  rewrite R_three_point_1, R_three_point_2.
  set (f := fun x' : R => loss (1 / 2) 0 x' t).
  set (f' := fun c : R => 1 / 2 * log_loss_grad c t).
  set (f'' := fun c : R => 1 / 2 * log_loss_hess c).
  assert (Hd1 : forall c, derivable_pt_lim f c (f' c)).
  { intros c.
    apply (derivable_pt_lim_ext (fun y => 1 / 2 * binary_log_loss y t)).
    { intros z. symmetry. apply loss_half_R. }
    apply (derivable_pt_lim_scal (fun y => binary_log_loss y t)).
    by apply dlim_binary_log_loss. }
  assert (Hd2 : forall c, derivable_pt_lim f' c (f'' c)).
  { intros c. apply (derivable_pt_lim_scal (fun y => log_loss_grad y t)).
    apply dlim_log_loss_grad. }
  assert (Hd3 : forall c, derivable_pt_lim f'' c (1 / 2 * logistic_d2 c)).
  { intros c. apply (derivable_pt_lim_scal logistic_d1). apply dlim_logistic_d1. }
  assert (Hl1 : forall a b, Rabs (f' b - f' a) <= 1 / 8 * Rabs (b - a)).
  { apply (lipschitz f' f''); [exact Hd2|].
    intros c. subst f''. cbv beta. unfold log_loss_hess.
    pose proof (logistic_d1_range c). lra. }
  assert (Hl2 : forall a b, Rabs (f'' b - f'' a) <= 1 / 8 * Rabs (b - a)).
  { apply (lipschitz f'' (fun c => 1 / 2 * logistic_d2 c)); [exact Hd3|].
    intros c. cbv beta. pose proof (logistic_d2_range c). lra. }
  split.
  - replace (1 / 8000000) with (1 / 8 * (1 / 1000000)) by lra.
    apply (central_difference_tolerance f f' (1 / 8) x (1 / 1000000) Hd1 Hl1). lra.
  - replace (1 / 8000000) with (1 / 8 * (1 / 1000000)) by lra.
    apply (second_difference_tolerance f f' f'' (1 / 8) x (1 / 1000000) Hd1 Hd2 Hl2).
    lra.
Qed.

End LogLossLimit.


(** * Further properties of the notebook's functions *)

(** ** Shapes: scores and labels of different lengths *)

Section Broadcasting.
Context {F : Type} `{Float64 F}.

(* Two arrays of different lengths, neither of length one, do not
   broadcast. *)
Lemma bop_mismatch (f : F -> F -> F) (xs ys : list F) :
  length xs <> length ys -> length xs <> 1%nat -> length ys <> 1%nat ->
  bop f (Array xs) (Array ys) = Raise ValueError.
Proof.
  intros Hne Hx Hy. unfold bop. destruct (decide _); [done|].
  destruct xs as [|x [|x' xs]], ys as [|y [|y' ys]]; simpl in *; done.
Qed.

(* An array of length one is stretched over the other operand. *)
Lemma bop_single_left (f : F -> F -> F) (x : F) (ys : list F) :
  bop f (Array [x]) (Array ys) = Ok (Array (map (f x) ys)).
Proof.
  unfold bop. destruct (decide _) as [E|E]; [|done].
  destruct ys as [|y [|y' ys]]; simpl in *; done.
Qed.

Lemma bop_single_right (f : F -> F -> F) (xs : list F) (y : F) :
  bop f (Array xs) (Array [y]) = Ok (Array (map (fun x => f x y) xs)).
Proof.
  unfold bop. destruct (decide _) as [E|E].
  - destruct xs as [|x [|x' xs]]; simpl in *; done.
  - destruct xs as [|x [|x' xs]]; simpl in *; done.
Qed.

(* The first operation of fl that combines the scores with the labels is
   t*p. *)
Lemma fl_mismatch (a g : F) (xs ts : list F) :
  length xs <> length ts -> length xs <> 1%nat -> length ts <> 1%nat ->
  fl a g (Array xs) (Array ts) = Raise ValueError.
Proof.
  intros Hne Hx Ht.
  unfold fl, np_add, np_sub, np_mul, np_div, np_pow, np_exp, np_log, np_neg.
  cbn [umap].
  repeat (first [ rewrite bind_Ok; cbv beta
                | rewrite bop_scalar_array
                | rewrite bop_arrays
                    by (repeat first [rewrite length_zip_with | rewrite length_map]; lia) ]).
  rewrite bop_mismatch by (rewrite ?length_map; lia).
  rewrite bop_arrays by (rewrite !length_map; lia).
  reflexivity.
Qed.

Lemma fl_single_label (a g : F) (xs : list F) (t : F) :
  fl a g (Array xs) (Array [t]) = Ok (Array (map (fun x => loss a g x t) xs)).
Proof.
  unfold fl, np_add, np_sub, np_mul, np_div, np_pow, np_exp, np_log, np_neg.
  repeat (first [ rewrite bind_Ok; cbv beta
                | rewrite bop_scalar_array
                | rewrite bop_array_scalar
                | rewrite bop_single_left
                | rewrite bop_single_right
                | rewrite bop_arrays
                    by (repeat first [rewrite length_zip_with | rewrite length_map]; lia)
                | progress cbn [umap map] ]).
  f_equal. f_equal.
  induction xs as [|x xs IH]; [done|]. cbn [map zip_with]. f_equal. apply IH.
Qed.

Lemma fl_single_score (a g : F) (x : F) (ts : list F) :
  fl a g (Array [x]) (Array ts) = Ok (Array (map (fun t => loss a g x t) ts)).
Proof.
  unfold fl, np_add, np_sub, np_mul, np_div, np_pow, np_exp, np_log, np_neg.
  repeat (first [ rewrite bind_Ok; cbv beta
                | rewrite bop_scalar_array
                | rewrite bop_array_scalar
                | rewrite bop_single_left
                | rewrite bop_single_right
                | rewrite bop_arrays
                    by (repeat first [rewrite length_zip_with | rewrite length_map]; lia)
                | progress cbn [umap map] ]).
  f_equal. f_equal.
  induction ts as [|t ts IH]; [done|]. cbn [map zip_with]. f_equal. apply IH.
Qed.

(* An exception of the differentiated function escapes derivative. *)
Lemma derivative_raises (func : ndval F -> result (ndval F)) (xs : list F)
    (h : F) (n : nat) (w0 w1 w2 : F) (e : pyexn) :
  (forall xs', length xs' = length xs -> func (Array xs') = Raise e) ->
  weights n = Ok [w0; w1; w2] ->
  derivative func (Array xs) h n = Raise e.
Proof.
  intros Hf Hw. unfold derivative. rewrite Hw, bind_Ok.
  cbn [stencil]. unfold np_add.
  rewrite !bop_array_scalar, !bind_Ok.
  rewrite !Hf by (rewrite length_map; lia).
  reflexivity.
Qed.

(* The stencil on a batch, for a function that maps over its argument. *)
Lemma derivative_map (fn : F -> F) (func : ndval F -> result (ndval F))
    (xs : list F) (h : F) (n : nat) (w0 w1 w2 : F) :
  (forall xs', func (Array xs') = Ok (Array (map fn xs'))) ->
  weights n = Ok [w0; w1; w2] ->
  derivative func (Array xs) h n =
    Ok (Array (map
      (fun x => three_point w0 w1 w2 fn x h (product (replicate n h))) xs)).
Proof.
  intros Hf Hw. unfold derivative. rewrite Hw, bind_Ok.
  cbn [stencil]. unfold np_add, np_mul, np_div.
  repeat (first [ rewrite bind_Ok; cbv beta
                | rewrite bop_scalar_array
                | rewrite bop_array_scalar
                | rewrite Hf
                | rewrite bop_arrays
                    by (repeat first [rewrite length_zip_with | rewrite length_map]; lia) ]).
  f_equal. f_equal.
  change (inject_Z (0 - 1)) with (-1)%Q.
  change (inject_Z (0 + 1 - 1)) with 0%Q.
  change (inject_Z (0 + 1 + 1 - 1)) with 1%Q.
  clear Hf. induction xs as [|x xs IH]; [done|].
  cbn [map zip_with]. f_equal. apply IH.
Qed.

(* The stencil at a single point, for a function that returns one value
   per label. *)
Lemma derivative_single (f : F -> F -> F) (func : ndval F -> result (ndval F))
    (x : F) (ts : list F) (h : F) (n : nat) (w0 w1 w2 : F) :
  (forall x', func (Array [x']) = Ok (Array (map (f x') ts))) ->
  weights n = Ok [w0; w1; w2] ->
  derivative func (Array [x]) h n =
    Ok (Array (map
      (fun t => three_point w0 w1 w2 (fun x' => f x' t) x h
                  (product (replicate n h))) ts)).
Proof.
  intros Hf Hw. unfold derivative. rewrite Hw, bind_Ok.
  cbn [stencil]. unfold np_add, np_mul, np_div.
  repeat (first [ rewrite bind_Ok; cbv beta
                | rewrite bop_scalar_array
                | rewrite bop_array_scalar; cbn [map]
                | rewrite Hf
                | rewrite bop_arrays
                    by (repeat first [rewrite length_zip_with | rewrite length_map]; lia) ]).
  f_equal. f_equal.
  change (inject_Z (0 - 1)) with (-1)%Q.
  change (inject_Z (0 + 1 - 1)) with 0%Q.
  change (inject_Z (0 + 1 + 1 - 1)) with 1%Q.
  clear Hf. induction ts as [|t ts IH]; [done|].
  cbn [map zip_with]. f_equal. apply IH.
Qed.

(* On a single score and a single label. *)
Lemma focal_loss_lgb_scalars (a g x t : F) :
  focal_loss_lgb (Scalar x) {| label := Scalar t |} a g
    = Ok (Scalar (three_point (fdiv (fcst (-1)) (fcst 2)) (fdiv zero (fcst 2))
                    (fdiv one (fcst 2)) (fun x' => loss a g x' t) x step
                    (product (replicate 1 step))),
          Scalar (three_point one (fcst (-2)) one (fun x' => loss a g x' t)
                    x step (product (replicate 2 step)))).
Proof. reflexivity. Qed.

(** X1: when the score array and the label array differ in length and
    neither has length one, focal_loss_lgb raises ValueError (numpy cannot
    broadcast the operands of t*p inside fl) and returns no gradient. *)
Theorem focal_loss_lgb_rejects_mismatched_lengths (a g : F) (xs ts : list F) :
  length xs <> length ts -> length xs <> 1%nat -> length ts <> 1%nat ->
  focal_loss_lgb (Array xs) {| label := Array ts |} a g = Raise ValueError.
Proof.
  intros Hne Hx Ht. unfold focal_loss_lgb. cbn [label].
  rewrite (derivative_raises (fun x => fl a g x (Array ts)) xs step 1
             (fdiv (fcst (-1)) (fcst 2)) (fdiv zero (fcst 2)) (fdiv one (fcst 2))
             ValueError); [reflexivity| |reflexivity].
  intros xs' E. apply fl_mismatch; lia.
Qed.

(** X2: a label array of length one is not rejected: numpy stretches it,
    and focal_loss_lgb returns what it returns when that label is repeated
    for every score.  Likewise a score array of length one against n labels
    is stretched, and the gradient and the Hessian then have n entries, one
    per label. *)
Theorem focal_loss_lgb_stretches_length_one (a g : F) :
  (forall (xs : list F) (t : F),
     focal_loss_lgb (Array xs) {| label := Array [t] |} a g
     = focal_loss_lgb (Array xs)
         {| label := Array (replicate (length xs) t) |} a g)
  /\ (forall (x : F) (ts : list F),
        focal_loss_lgb (Array [x]) {| label := Array ts |} a g
        = focal_loss_lgb (Array (replicate (length ts) x))
            {| label := Array ts |} a g).
Proof.
  split.
  - intros xs t.
    rewrite (focal_loss_lgb_arrays a g xs (replicate (length xs) t))
      by (by rewrite length_replicate).
    rewrite !zip_with_replicate_r_eq by done.
    unfold focal_loss_lgb. cbn [label].
    rewrite (derivative_map (fun x => loss a g x t) _ xs step 1 _ _ _
               (fun xs' => fl_single_label a g xs' t) eq_refl).
    rewrite bind_Ok.
    rewrite (derivative_map (fun x => loss a g x t) _ xs step 2 _ _ _
               (fun xs' => fl_single_label a g xs' t) eq_refl).
    reflexivity.
  - intros x ts.
    rewrite (focal_loss_lgb_arrays a g (replicate (length ts) x) ts)
      by (by rewrite length_replicate).
    rewrite !zip_with_replicate_l by done.
    unfold focal_loss_lgb. cbn [label].
    rewrite (derivative_single (loss a g) _ x ts step 1 _ _ _
               (fun x' => fl_single_score a g x' ts) eq_refl).
    rewrite bind_Ok.
    rewrite (derivative_single (loss a g) _ x ts step 2 _ _ _
               (fun x' => fl_single_score a g x' ts) eq_refl).
    reflexivity.
Qed.

(** X3: the batch call treats samples independently.  For every float
    arithmetic, entry i of the gradient and of the Hessian that
    focal_loss_lgb returns on a batch is what focal_loss_lgb returns when
    called on score i and label i alone, as 0-d values or as a batch of one
    sample; the other samples of the batch have no influence on it. *)
Theorem focal_loss_lgb_batch_is_per_sample (a g : F) (xs ts : list F) :
  length xs = length ts ->
  exists grad hess : list F,
    focal_loss_lgb (Array xs) {| label := Array ts |} a g
      = Ok (Array grad, Array hess)
    /\ forall (i : nat) (x t : F),
         xs !! i = Some x -> ts !! i = Some t ->
         exists gi hi : F,
           grad !! i = Some gi /\ hess !! i = Some hi
           /\ focal_loss_lgb (Scalar x) {| label := Scalar t |} a g
              = Ok (Scalar gi, Scalar hi)
           /\ focal_loss_lgb (Array [x]) {| label := Array [t] |} a g
              = Ok (Array [gi], Array [hi]).
Proof.
  intros E. rewrite (focal_loss_lgb_arrays a g xs ts E).
  eexists _, _. split; [reflexivity|].
  intros i x t Hx Ht. rewrite !lookup_zip_with, Hx, Ht. cbn [mbind option_bind].
  eexists _, _. split; [reflexivity|]. split; [reflexivity|].
  split; [apply focal_loss_lgb_scalars|].
  by rewrite (focal_loss_lgb_arrays a g [x] [t] eq_refl).
Qed.

End Broadcasting.

(* Two scores against three labels. *)
Lemma focal_loss_lgb_rejects_mismatched_lengths_witness :
  length [0%R; 0%R] <> length [1%R; 0%R; 1%R]
  /\ length [0%R; 0%R] <> 1%nat
  /\ length [1%R; 0%R; 1%R] <> 1%nat
  /\ focal_loss_lgb (Array [0%R; 0%R]) {| label := Array [1%R; 0%R; 1%R] |}
       (1 / 4)%R 2%R = Raise ValueError.
Proof.
  split; [simpl; lia|]. split; [simpl; lia|]. split; [simpl; lia|].
  apply (focal_loss_lgb_rejects_mismatched_lengths (1 / 4)%R 2%R
           [0%R; 0%R] [1%R; 0%R; 1%R]); simpl; lia.
Defined.

(* The second sample of a batch of two. *)
Lemma focal_loss_lgb_batch_is_per_sample_witness :
  length [0%R; 3%R] = length [1%R; 0%R]
  /\ exists grad hess : list R,
       focal_loss_lgb (Array [0%R; 3%R]) {| label := Array [1%R; 0%R] |}
         (1 / 4)%R 2%R = Ok (Array grad, Array hess)
       /\ exists gi hi : R,
            grad !! 1%nat = Some gi /\ hess !! 1%nat = Some hi
            /\ focal_loss_lgb (Scalar 3%R) {| label := Scalar 0%R |}
                 (1 / 4)%R 2%R = Ok (Scalar gi, Scalar hi).
Proof.
  split; [reflexivity|].
  destruct (focal_loss_lgb_batch_is_per_sample (1 / 4)%R 2%R
              [0%R; 3%R] [1%R; 0%R] eq_refl) as (grad & hess & Hf & Hi).
  exists grad, hess. split; [exact Hf|].
  destruct (Hi 1%nat 3%R 0%R eq_refl eq_refl) as (gi & hi & Hg & Hh & Hs & _).
  exists gi, hi. split; [exact Hg|]. split; [exact Hh | exact Hs].
Defined.

(** ** The sigmoid and the decision rule on every double *)

Section IEEEDecisions.
Local Open Scope R_scope.

(* The probability computed from a finite score: 0 once 1 + exp(-x) has
   overflowed, the exact quotient before. *)
Lemma sigmoid_value_exact (r : R) :
  fdiv one (fadd one (fexp (fneg (Fin r))))
  = Fin (if Rlt_dec DBL_MAX (1 + exp (- r)) then 0 else 1 / (1 + exp (- r))).
Proof.
  rewrite np_one. cbn [fdiv fadd fexp fneg np_float64 np_fneg np_fexp].
  pose proof DBL_MAX_ge_4 as HM. pose proof (exp_pos (- r)) as He.
  destruct (overflow_pos (exp (- r)) He) as [E | [E Hle]]; rewrite E.
  - apply overflow_PInf in E. cbn. destruct (Rlt_dec _ _); [done | lra].
  - cbn [np_fadd]. unfold overflow at 1.
    destruct (Rlt_dec DBL_MAX (1 + exp (- r))) as [Hov|Hfit]; [done|].
    destruct (Rlt_dec (1 + exp (- r)) (- DBL_MAX)); [lra|].
    cbn [np_fdiv]. destruct (Req_dec_T (1 + exp (- r)) 0); [lra|].
    apply overflow_small.
    assert (0 < 1 / (1 + exp (- r))) by (apply Rdiv_lt_0_compat; lra).
    assert (1 / (1 + exp (- r)) <= 1).
    { apply (Rmult_le_reg_r (1 + exp (- r))); [lra|].
      unfold Rdiv. rewrite Rmult_assoc, Rinv_l by lra. lra. }
    lra.
Qed.

(* The sigmoid of the infinities and of nan. *)
Lemma sigmoid_special :
  fdiv one (fadd one (fexp (fneg NInf))) = Fin 0
  /\ fdiv one (fadd one (fexp (fneg PInf))) = Fin 1
  /\ fdiv one (fadd one (fexp (fneg NaN))) = NaN.
Proof.
  rewrite np_one. cbn [fdiv fadd fexp fneg np_float64 np_fneg np_fexp np_fadd].
  split; [reflexivity|]. split; [|reflexivity].
  rewrite overflow_small by lra. cbn [np_fdiv].
  destruct (Req_dec_T (1 + 0) 0); [lra|].
  rewrite overflow_small; [f_equal; field | ].
  replace (1 / (1 + 0)) with 1 by field. lra.
Qed.

(** X7: the sigmoid preserves the order of raw scores.  For finite scores
    r1 <= r2 the two probabilities are finite and satisfy
    0 <= sigmoid(r1) <= sigmoid(r2) <= 1, overflow of the exponential
    included; the ends of the range are reached at the infinities,
    sigmoid(-inf) = 0 and sigmoid(inf) = 1. *)
Theorem sigmoid_is_monotone (r1 r2 : R) :
  r1 <= r2 ->
  exists p1 p2 : R,
    sigmoid (Scalar (Fin r1)) = Ok (Scalar (Fin p1))
    /\ sigmoid (Scalar (Fin r2)) = Ok (Scalar (Fin p2))
    /\ sigmoid (Scalar NInf) = Ok (Scalar (Fin 0))
    /\ sigmoid (Scalar PInf) = Ok (Scalar (Fin 1))
    /\ 0 <= p1 /\ p1 <= p2 /\ p2 <= 1.
Proof.
  intros Hr. rewrite !sigmoid_scalar, !sigmoid_value_exact.
  destruct sigmoid_special as (-> & -> & _).
  eexists _, _. do 4 (split; [reflexivity|]).
  pose proof (exp_pos (- r1)) as He1. pose proof (exp_pos (- r2)) as He2.
  assert (Hexp : exp (- r2) <= exp (- r1)) by (apply exp_le_mono; lra).
  assert (Hq : forall e, 0 < e -> 0 < 1 / (1 + e) <= 1).
  { intros e He. split; [apply Rdiv_lt_0_compat; lra|].
    apply (Rmult_le_reg_r (1 + e)); [lra|].
    unfold Rdiv. rewrite Rmult_assoc, Rinv_l by lra. lra. }
  pose proof (Hq _ He1). pose proof (Hq _ He2).
  destruct (Rlt_dec DBL_MAX (1 + exp (- r1))), (Rlt_dec DBL_MAX (1 + exp (- r2)));
    try lra.
  split; [lra|]. split; [|lra].
  unfold Rdiv. rewrite !Rmult_1_l. apply Rinv_le_contravar; lra.
Qed.

End IEEEDecisions.

(* The scores 1 and 2. *)
Lemma sigmoid_is_monotone_witness :
  (1 <= 2)%R
  /\ exists p1 p2 : R,
       sigmoid (Scalar (Fin 1)) = Ok (Scalar (Fin p1))
       /\ sigmoid (Scalar (Fin 2)) = Ok (Scalar (Fin p2))
       /\ (p1 <= p2)%R.
Proof.
  split; [lra|].
  destruct (sigmoid_is_monotone 1%R 2%R ltac:(lra))
    as (p1 & p2 & H1 & H2 & _ & _ & _ & Hle & _).
  exists p1, p2. split; [exact H1|]. split; [exact H2 | exact Hle].
Defined.

(** ** Gradients where the sigmoid has overflowed *)

Section NanGradients.
Local Open Scope R_scope.

Local Ltac np_reduce :=
  repeat (cbn [fadd fsub fmul fneg fpow np_float64
               np_fadd np_fsub np_fmul np_fneg];
          rewrite ?np_fpow_zero;
          try rewrite overflow_small by lra).

(* For the label 1 and a weight alpha in (0, 1] the loss is inf wherever
   the sigmoid has overflowed to 0, whatever gamma is. *)
Lemma loss_inf_where_sigmoid_is_0 (a g : R) (x : np_float) :
  0 < a <= 1 ->
  fdiv one (fadd one (fexp (fneg x))) = Fin 0 ->
  loss (Fin a) (Fin g) x (Fin 1) = PInf.
Proof.
  intros Ha Hp. unfold loss. rewrite Hp. unfold focal. rewrite np_one.
  cbn [flog np_float64 np_flog].
  destruct (Rlt_dec 0 0) as [E|_]; [lra|].
  destruct (Req_dec_T 0 0) as [_|E]; [|lra].
  np_reduce.
  replace (1 + - (1 * 0 + (1 + - (1)) * (1 + - 0))) with 1 by lra.
  rewrite np_fpow_one.
  replace (1 + - 0) with 1 by lra.
  cbn [np_flog]. destruct (Rlt_dec 0 1); [|lra]. rewrite ln_1.
  rewrite (inf_times_pos false 1) by lra.
  np_reduce. cbn [np_fadd np_fmul]. apply inf_times_neg. lra.
Qed.

Lemma sigmoid_0_below_minus_999 (r : R) :
  r <= -999 -> fdiv one (fadd one (fexp (fneg (Fin r)))) = Fin 0.
Proof.
  intros Hr. destruct (sigmoid_value r) as (p & -> & _ & Hp & _).
  f_equal. apply Hp.
  apply Rlt_le_trans with (1 := exp_999_overflows). apply exp_le_mono. lra.
Qed.

(* The sigmoid is 0 at the stencil's three points around a score of
   -1000 or less; the point may itself have overflowed to -inf. *)
Lemma sigmoid_0_at_stencil_point (r : R) (k : Q) :
  r <= -1000 ->
  -1 <= Q2R k <= 1 ->
  fdiv one (fadd one (fexp (fneg (fadd (Fin r) (fmul (fcst k) step))))) = Fin 0.
Proof.
  intros Hr Hk. pose proof DBL_MAX_ge_4.
  assert (Hx : (fadd (Fin r) (fmul (fcst k) step) : np_float) = NInf
               \/ exists r', (fadd (Fin r) (fmul (fcst k) step) : np_float) = Fin r'
                              /\ r' <= -999).
  { rewrite np_step. cbn [fadd fmul fcst np_float64 np_fadd np_fmul].
    rewrite (overflow_small (Q2R k * (1 / 1000000))) by lra.
    cbn [np_fadd]. unfold overflow.
    destruct (Rlt_dec DBL_MAX (r + Q2R k * (1 / 1000000))); [lra|].
    destruct (Rlt_dec (r + Q2R k * (1 / 1000000)) (- DBL_MAX)); [by left|].
    right. eexists. split; [reflexivity | lra]. }
  destruct Hx as [-> | (r' & -> & Hr')].
  - by destruct sigmoid_special as (-> & _).
  - by apply sigmoid_0_below_minus_999.
Qed.

(* Both stencils are nan as soon as the loss is inf at the point itself and
   at the point before it: the centre weight 0 of the first difference
   multiplies an inf, and the second difference adds inf and -inf. *)
Lemma three_point_nan (f : np_float -> np_float) (x : np_float) :
  f (fadd x (fmul (fcst (-1)) step)) = PInf ->
  f (fadd x (fmul (fcst 0) step)) = PInf ->
  three_point (fdiv (fcst (-1)) (fcst 2)) (fdiv zero (fcst 2)) (fdiv one (fcst 2))
    f x step (product (replicate 1 step)) = NaN
  /\ three_point one (fcst (-2)) one f x step (product (replicate 2 step)) = NaN.
Proof.
  intros EA EB. unfold three_point. rewrite EA, EB.
  destruct np_weights_1 as (-> & -> & ->).
  unfold zero. rewrite np_one.
  cbn [fcst fadd fmul fdiv np_float64 np_fadd np_fmul].
  rewrite RMicromega.Q2R_0.
  replace (Q2R (-2)) with (-2) by (unfold Q2R; cbn [Qnum Qden]; lra).
  rewrite (inf_times_neg true (- (1 / 2))) by lra.
  rewrite (inf_times_neg true (-2)) by lra.
  rewrite (inf_times_pos true 1) by lra.
  rewrite inf_times_zero.
  split; reflexivity.
Qed.

(** X9: focal_loss_lgb returns nan for a positive sample whose raw score
    is -1000 or less.  For every alpha in (0, 1], every gamma and every
    batch, if sample i has label 1 and a score r <= -1000, the
    exponential inside the sigmoid overflows, the probability is 0, the
    term log(p) makes the loss inf at the stencil's points, and entry
    i of the gradient and of the Hessian is nan: the centre weight 0 of the
    first difference multiplies inf, and the second difference adds inf and
    -inf.  Nothing is raised. *)
Theorem focal_loss_lgb_nan_where_sigmoid_overflows
    (y_pred y_true : list np_float) (alpha gamma : R) (i : nat) (r : R) :
  length y_pred = length y_true ->
  0 < alpha <= 1 ->
  y_pred !! i = Some (Fin r) -> y_true !! i = Some (Fin 1) ->
  r <= -1000 ->
  exists grad hess : list np_float,
    focal_loss_lgb (Array y_pred) {| label := Array y_true |}
      (Fin alpha) (Fin gamma) = Ok (Array grad, Array hess)
    /\ sigmoid (Scalar (Fin r)) = Ok (Scalar (Fin 0))
    /\ loss (Fin alpha) (Fin gamma) (Fin r) (Fin 1) = PInf
    /\ grad !! i = Some NaN
    /\ hess !! i = Some NaN.
Proof.
  intros E Ha Hx Ht Hr.
  rewrite (focal_loss_lgb_arrays (Fin alpha) (Fin gamma) y_pred y_true E).
  eexists _, _. split; [reflexivity|].
  split; [rewrite sigmoid_scalar, sigmoid_0_below_minus_999 by lra; reflexivity|].
  split; [apply loss_inf_where_sigmoid_is_0; [done|]; apply sigmoid_0_below_minus_999; lra|].
  rewrite !lookup_zip_with, Hx, Ht. cbn [mbind option_bind].
  destruct (three_point_nan (fun x' => loss (Fin alpha) (Fin gamma) x' (Fin 1)) (Fin r))
    as [-> ->]; [| |done].
  - apply loss_inf_where_sigmoid_is_0; [done|].
    apply sigmoid_0_at_stencil_point; [done|]. unfold Q2R; cbn [Qnum Qden]. lra.
  - apply loss_inf_where_sigmoid_is_0; [done|].
    apply sigmoid_0_at_stencil_point; [done|]. unfold Q2R; cbn [Qnum Qden]. lra.
Qed.

End NanGradients.

(* A batch of two; the second sample has score -1000 and label 1. *)
Lemma focal_loss_lgb_nan_where_sigmoid_overflows_witness :
  length [Fin 0; Fin (-1000)] = length [Fin 0; Fin 1]
  /\ (0 < 1 / 4 <= 1)%R
  /\ (-1000 <= -1000)%R
  /\ exists grad hess : list np_float,
       focal_loss_lgb (Array [Fin 0; Fin (-1000)])
         {| label := Array [Fin 0; Fin 1] |} (Fin (1 / 4)) (Fin 2)
         = Ok (Array grad, Array hess)
       /\ grad !! 1%nat = Some NaN
       /\ hess !! 1%nat = Some NaN.
Proof.
  assert (Hr : (-1000 <= -1000)%R) by lra.
  split; [reflexivity|]. split; [lra|]. split; [exact Hr|].
  destruct (focal_loss_lgb_nan_where_sigmoid_overflows
              [Fin 0; Fin (-1000)] [Fin 0; Fin 1] (1 / 4)%R 2%R 1%nat (-1000)%R
              eq_refl ltac:(lra) eq_refl eq_refl Hr)
    as (grad & hess & Hf & _ & _ & Hg & Hh).
  exists grad, hess. split; [exact Hf|]. split; [exact Hg | exact Hh].
Defined.

(** ** The trial runner: failed coercions and repeated calls *)

Lemma run_dict_get_default (p : loc) (k : string) (s : state) :
  dict_get p k s = (getitem (default ∅ (heap s !! p)) k, s).
Proof. reflexivity. Qed.

Lemma run_dict_set_default (p : loc) (k : string) (v : pyval) (s : state) :
  dict_set p k v s
  = (Ok (), set_heap (<[p := <[k := v]> (default ∅ (heap s !! p))]> (heap s)) s).
Proof. reflexivity. Qed.

(* The entries of a configuration after the four assignments. *)
Lemma lookup_coerced (d : gmap string pyval) (n1 n2 : Z) (k : string) :
  coerced d n1 n2 !! k =
    if decide (k = "seed") then Some (PyInt 1)
    else if decide (k = "verbose") then Some (PyInt (-1))
    else if decide (k = "num_leaves") then Some (PyInt n2)
    else if decide (k = "num_boost_round") then Some (PyInt n1)
    else d !! k.
Proof. unfold coerced. rewrite !lookup_insert. repeat case_decide; congruence. Qed.

Lemma coerced_idem (d : gmap string pyval) (n1 n2 : Z) :
  coerced (coerced d n1 n2) n1 n2 = coerced d n1 n2.
Proof.
  apply map_eq. intros k. rewrite !lookup_coerced. repeat case_decide; done.
Qed.

Lemma set_heap_id (s : state) (p : loc) (d : gmap string pyval) :
  heap s !! p = Some d -> set_heap (<[p := d]> (heap s)) s = s.
Proof. intros E. rewrite insert_id by done. by destruct s. Qed.

(* What the four assignments that open objective do, on any dict. *)
Lemma coerce_and_inject_run (p : loc) (s : state) (d : gmap string pyval) :
  heap s !! p = Some d ->
  coerce_and_inject p s =
    match d !! "num_boost_round" with
    | None => (Raise KeyError, s)
    | Some v1 =>
        match py_int v1 with
        | Raise e => (Raise e, s)
        | Ok n1 =>
            let s1 := set_heap (<[p := <["num_boost_round" := PyInt n1]> d]> (heap s)) s in
            match d !! "num_leaves" with
            | None => (Raise KeyError, s1)
            | Some v2 =>
                match py_int v2 with
                | Raise e => (Raise e, s1)
                | Ok n2 => (Ok (), set_heap (<[p := coerced d n1 n2]> (heap s)) s)
                end
            end
        end
    end.
Proof.
  intros Hp.
  destruct (d !! "num_boost_round") as [v1|] eqn:H1.
  2:{ unfold coerce_and_inject.
      by rewrite run_bind, (run_dict_get _ _ _ _ Hp), (getitem_None _ _ H1). }
  destruct (py_int v1) as [n1|e1] eqn:E1.
  2:{ unfold coerce_and_inject.
      rewrite run_bind, (run_dict_get _ _ _ _ Hp), (getitem_Some _ _ _ H1).
      rewrite run_bind. unfold lift at 1. by rewrite E1. }
  cbv zeta.
  destruct (d !! "num_leaves") as [v2|] eqn:H2.
  2:{ unfold coerce_and_inject.
      rewrite run_bind, (run_dict_get _ _ _ _ Hp), (getitem_Some _ _ _ H1).
      rewrite run_bind. unfold lift at 1. rewrite E1.
      rewrite run_bind, (run_dict_set _ _ _ _ _ Hp).
      rewrite run_bind, (run_dict_get _ _ _ (<["num_boost_round" := PyInt n1]> d))
        by apply lookup_insert_eq.
      by rewrite (getitem_None _ "num_leaves") by (rewrite lookup_insert_ne; done). }
  destruct (py_int v2) as [n2|e2] eqn:E2.
  - by apply (run_coerce_and_inject p s d v1 v2 n1 n2).
  - unfold coerce_and_inject.
    rewrite run_bind, (run_dict_get _ _ _ _ Hp), (getitem_Some _ _ _ H1).
    rewrite run_bind. unfold lift at 1. rewrite E1.
    rewrite run_bind, (run_dict_set _ _ _ _ _ Hp).
    rewrite run_bind, (run_dict_get _ _ _ (<["num_boost_round" := PyInt n1]> d))
      by apply lookup_insert_eq.
    rewrite (getitem_Some _ "num_leaves" v2) by (rewrite lookup_insert_ne; done).
    rewrite run_bind. unfold lift at 1. by rewrite E2.
Qed.

(* int() fails on nan and on the infinities only. *)
Lemma py_int_Raise (v : pyval) (e : pyexn) :
  py_int v = Raise e <->
  (v = PyFloat NaN /\ e = ValueError)
  \/ ((v = PyFloat PInf \/ v = PyFloat NInf) /\ e = OverflowError).
Proof.
  split.
  - destruct v as [n|[r| | |]]; cbn; intros [=]; subst; auto.
  - intros [[-> ->] | [[-> | ->] ->]]; reflexivity.
Qed.

Section TrialRunnerFacts.
Variable train : Dataset np_float.
Variable f1_score : ndval np_float -> list Z -> result np_float.
Variable lgb_cv :
  gmap string pyval -> Dataset np_float -> pyval -> fobj_t -> feval_t ->
  Z -> bool -> Z -> result (gmap string (list np_float)).

Lemma objective_coerce_Raise (p : loc) (s s' : state) (e : pyexn) :
  coerce_and_inject p s = (Raise e, s') ->
  objective train f1_score lgb_cv p s = (Raise e, s').
Proof. intros Hc. unfold objective. by rewrite run_bind, Hc. Qed.

(** X10: objective validates nothing up front; a configuration whose
    num_boost_round cannot be converted fails at the first statement.  If
    the key is missing objective raises KeyError; if its value is nan,
    int() raises ValueError, and if it is inf or -inf, OverflowError (int()
    fails on no other number).  In each case the engine is not called and
    the whole state, the caller's dict included, is as before the call. *)
Theorem objective_rejects_bad_num_boost_round (p : loc) (s : state)
    (d : gmap string pyval) :
  heap s !! p = Some d ->
  (d !! "num_boost_round" = None ->
   objective train f1_score lgb_cv p s = (Raise KeyError, s))
  /\ (forall (v : pyval) (e : pyexn),
        d !! "num_boost_round" = Some v -> py_int v = Raise e ->
        objective train f1_score lgb_cv p s = (Raise e, s))
  /\ (forall (v : pyval) (e : pyexn),
        py_int v = Raise e <->
        (v = PyFloat NaN /\ e = ValueError)
        \/ ((v = PyFloat PInf \/ v = PyFloat NInf) /\ e = OverflowError)).
Proof.
  intros Hp. split; [|split].
  - intros H1. apply objective_coerce_Raise.
    by rewrite (coerce_and_inject_run p s d Hp), H1.
  - intros v e H1 E1. apply objective_coerce_Raise.
    by rewrite (coerce_and_inject_run p s d Hp), H1, E1.
  - apply py_int_Raise.
Qed.

(** X11: a configuration whose num_leaves is missing or not convertible
    fails at the second statement, after the first has already been
    executed: objective raises (KeyError, or what int() raises), the
    engine is not called, and the caller's dict is left half-converted,
    with num_boost_round replaced by its integer and every other entry as
    before, verbose and seed not added.  The trial counter and the
    recorded round counts are unchanged. *)
Theorem objective_half_converts_on_bad_num_leaves (p : loc) (s : state)
    (d : gmap string pyval) (v1 : pyval) (n1 : Z) :
  heap s !! p = Some d ->
  d !! "num_boost_round" = Some v1 -> py_int v1 = Ok n1 ->
  let d1 := <["num_boost_round" := PyInt n1]> d in
  let s1 := set_heap (<[p := d1]> (heap s)) s in
  (d !! "num_leaves" = None ->
   objective train f1_score lgb_cv p s = (Raise KeyError, s1))
  /\ (forall (v : pyval) (e : pyexn),
        d !! "num_leaves" = Some v -> py_int v = Raise e ->
        objective train f1_score lgb_cv p s = (Raise e, s1))
  /\ heap s1 !! p = Some d1
  /\ d1 !! "num_boost_round" = Some (PyInt n1)
  /\ (forall k : string, k <> "num_boost_round" -> d1 !! k = d !! k)
  /\ objective_i s1 = objective_i s
  /\ early_stop_dict s1 = early_stop_dict s.
Proof.
  intros Hp H1 E1 d1 s1. split; [|split].
  - intros H2. apply objective_coerce_Raise.
    by rewrite (coerce_and_inject_run p s d Hp), H1, E1, H2.
  - intros v e H2 E2. apply objective_coerce_Raise.
    by rewrite (coerce_and_inject_run p s d Hp), H1, E1, H2, E2.
  - split; [apply lookup_insert_eq|]. split; [apply lookup_insert_eq|].
    split; [|done]. intros k Hk. by apply lookup_insert_ne.
Qed.

(** X12: objective can be called again on the dict it has already
    converted.  After a first call, returned or raised by the engine or by
    the bookkeeping, the four opening assignments leave the dict as it is,
    and a second call runs the engine on exactly the same configuration,
    round budget and loss closure as the first. *)
Theorem objective_second_call_same_configuration (p : loc) (s : state)
    (d : gmap string pyval) (v1 v2 : pyval) (n1 n2 : Z) :
  heap s !! p = Some d ->
  d !! "num_boost_round" = Some v1 -> py_int v1 = Ok n1 ->
  d !! "num_leaves" = Some v2 -> py_int v2 = Ok n2 ->
  let d' := coerced d n1 n2 in
  let s1 := (objective train f1_score lgb_cv p s).2 in
  heap s1 !! p = Some d'
  /\ coerce_and_inject p s1 = (Ok (), s1)
  /\ objective train f1_score lgb_cv p s1
     = match lgb_cv d' train (PyInt n1) (focal_loss_of d')
               (lgb_focal_f1_score f1_score) 3 true 20 with
       | Ok cv => record_and_score cv s1
       | Raise e => (Raise e, s1)
       end.
Proof.
  intros Hp H1 E1 H2 E2 d' s1.
  assert (Hheap : heap s1 = <[p := d']> (heap s)).
  { subst s1. rewrite (run_objective train f1_score lgb_cv p s d v1 v2 n1 n2) by done.
    cbv zeta. destruct (lgb_cv _ _ _ _ _ _ _ _); [|reflexivity].
    by rewrite record_and_score_heap. }
  assert (Hp1 : heap s1 !! p = Some d') by (rewrite Hheap; apply lookup_insert_eq).
  assert (L1 : d' !! "num_boost_round" = Some (PyInt n1))
    by (unfold d'; by rewrite lookup_coerced).
  assert (L2 : d' !! "num_leaves" = Some (PyInt n2))
    by (unfold d'; by rewrite lookup_coerced).
  clearbody s1. split; [done|]. split.
  - rewrite (run_coerce_and_inject p s1 d' (PyInt n1) (PyInt n2) n1 n2) by done.
    subst d'. by rewrite coerced_idem, set_heap_id.
  - rewrite (run_objective train f1_score lgb_cv p s1 d' (PyInt n1) (PyInt n2) n1 n2)
      by done.
    cbv zeta. subst d'. by rewrite coerced_idem, set_heap_id.
Qed.

End TrialRunnerFacts.

(* A configuration without num_boost_round. *)
Lemma objective_rejects_bad_num_boost_round_witness :
  let d : gmap string pyval := {[ "num_leaves" := PyFloat (Fin 31) ]} in
  let s := mkState {[ 1%positive := d ]} 0 ∅ in
  heap s !! 1%positive = Some d
  /\ d !! "num_boost_round" = None
  /\ objective sample_train sample_f1_score (engine_stopping_with [Fin (1 / 2)])
       1%positive s = (Raise KeyError, s).
Proof.
  intros d s. split; [reflexivity|]. split; [reflexivity|].
  destruct (objective_rejects_bad_num_boost_round sample_train sample_f1_score
              (engine_stopping_with [Fin (1 / 2)]) 1%positive s d eq_refl)
    as (Hk & _).
  apply Hk. reflexivity.
Defined.

(* A configuration whose num_leaves is nan. *)
Lemma objective_half_converts_on_bad_num_leaves_witness :
  let d : gmap string pyval := <["num_leaves" := PyFloat NaN]> sample_config in
  let s := mkState {[ 1%positive := d ]} 0 ∅ in
  heap s !! 1%positive = Some d
  /\ d !! "num_boost_round" = Some (PyFloat (Fin 60))
  /\ py_int (PyFloat (Fin 60)) = Ok (trunc 60)
  /\ d !! "num_leaves" = Some (PyFloat NaN)
  /\ py_int (PyFloat NaN) = Raise ValueError
  /\ objective sample_train sample_f1_score (engine_stopping_with [Fin (1 / 2)])
       1%positive s
     = (Raise ValueError,
        set_heap (<[1%positive := <["num_boost_round" := PyInt (trunc 60)]> d]>
                    (heap s)) s).
Proof.
  intros d s. do 5 (split; [reflexivity|]).
  destruct (objective_half_converts_on_bad_num_leaves sample_train sample_f1_score
              (engine_stopping_with [Fin (1 / 2)]) 1%positive s d
              (PyFloat (Fin 60)) (trunc 60) eq_refl eq_refl eq_refl)
    as (_ & Hv & _).
  apply (Hv (PyFloat NaN) ValueError); reflexivity.
Defined.

(* A second trial on the sample configuration. *)
Lemma objective_second_call_same_configuration_witness :
  let s := mkState {[ 1%positive := sample_config ]} 0 ∅ in
  let s1 := (objective sample_train sample_f1_score
               (engine_stopping_with [Fin (1 / 2)]) 1%positive s).2 in
  heap s !! 1%positive = Some sample_config
  /\ sample_config !! "num_boost_round" = Some (PyFloat (Fin 60))
  /\ py_int (PyFloat (Fin 60)) = Ok (trunc 60)
  /\ sample_config !! "num_leaves" = Some (PyFloat (Fin 31))
  /\ py_int (PyFloat (Fin 31)) = Ok (trunc 31)
  /\ coerce_and_inject 1%positive s1 = (Ok (), s1).
Proof.
  intros s s1. do 5 (split; [reflexivity|]).
  destruct (objective_second_call_same_configuration sample_train sample_f1_score
              (engine_stopping_with [Fin (1 / 2)]) 1%positive s sample_config
              (PyFloat (Fin 60)) (PyFloat (Fin 31)) (trunc 60) (trunc 31)
              eq_refl sample_config_rounds eq_refl sample_config_leaves eq_refl)
    as (_ & Hc & _).
  exact Hc.
Defined.

(** ** The score objective returns *)

Section Rounding.
Local Open Scope R_scope.

Lemma Int_part_le (x y : R) : x <= y -> (Int_part x <= Int_part y)%Z.
Proof.
  intros Hxy. pose proof (base_Int_part x) as [Hx1 Hx2].
  pose proof (base_Int_part y) as [Hy1 Hy2].
  destruct (Z_lt_le_dec (Int_part y) (Int_part x)) as [Hlt|]; [|done].
  assert (IZR (Int_part y) + 1 <= IZR (Int_part x)).
  { rewrite <- plus_IZR. apply IZR_le. lia. }
  lra.
Qed.

Lemma rint_IZR (k : Z) : rint (IZR k) = k.
Proof.
  unfold rint.
  destruct (Int_part_frac_part_spec (IZR k) k 0 ltac:(lra) ltac:(lra)) as [<- <-].
  destruct (Rlt_dec 0 (1 / 2)); [done | lra].
Qed.

(* Rounding to the nearest integer preserves the order. *)
Lemma rint_mono (x y : R) : x <= y -> (rint x <= rint y)%Z.
Proof.
  intros Hxy. pose proof (Int_part_le x y Hxy) as Hn.
  unfold rint, frac_part.
  destruct (Z.eq_dec (Int_part x) (Int_part y)) as [E|E].
  - rewrite <- E. set (n := Int_part x) in *.
    destruct (Rlt_dec (x - IZR n) (1 / 2)), (Rlt_dec (y - IZR n) (1 / 2)),
      (Rlt_dec (1 / 2) (x - IZR n)), (Rlt_dec (1 / 2) (y - IZR n)),
      (Z.even n); try lia; lra.
  - destruct (Rlt_dec (x - IZR (Int_part x)) (1 / 2)),
      (Rlt_dec (y - IZR (Int_part y)) (1 / 2)),
      (Rlt_dec (1 / 2) (x - IZR (Int_part x))),
      (Rlt_dec (1 / 2) (y - IZR (Int_part y))),
      (Z.even (Int_part x)), (Z.even (Int_part y)); lia.
Qed.

(** X13: the value objective returns orders trials as their F1 does.  For
    two runs whose histories end in the finite F1 values r1 <= r2, the two
    returned losses are -k1/10^4 and -k2/10^4 for integers k1 <= k2, so
    the run with the higher F1 never gets the higher loss (the two may
    tie after rounding); and for F1 values in [0, 1] the returned loss lies
    in [-1, 0]. *)
Theorem objective_score_preserves_f1_order
    (cv1 cv2 : gmap string (list np_float)) (s1 s2 : state)
    (h1 h2 : list np_float) (r1 r2 : R) :
  cv1 !! "f1-mean" = Some h1 -> last h1 = Some (Fin r1) ->
  cv2 !! "f1-mean" = Some h2 -> last h2 = Some (Fin r2) ->
  r1 <= r2 ->
  exists k1 k2 : Z,
    (record_and_score cv1 s1).1 = Ok (Fin (- (IZR k1 / 10000)))
    /\ (record_and_score cv2 s2).1 = Ok (Fin (- (IZR k2 / 10000)))
    /\ - (IZR k2 / 10000) <= - (IZR k1 / 10000)
    /\ (0 <= r1 -> r2 <= 1 ->
        -1 <= - (IZR k2 / 10000) /\ - (IZR k1 / 10000) <= 0).
Proof.
  intros E1 L1 E2 L2 Hr.
  rewrite (run_record_ok cv1 s1 h1 (Fin r1) E1 L1).
  rewrite (run_record_ok cv2 s2 h2 (Fin r2) E2 L2).
  exists (rint (r1 * 10000)), (rint (r2 * 10000)).
  split; [reflexivity|]. split; [reflexivity|].
  assert (Hm : IZR (rint (r1 * 10000)) <= IZR (rint (r2 * 10000))).
  { apply IZR_le, rint_mono. lra. }
  split; [lra|]. intros H0 H1.
  assert (0 <= IZR (rint (r1 * 10000))).
  { rewrite <- (rint_IZR 0) at 1. apply IZR_le, rint_mono. lra. }
  assert (IZR (rint (r2 * 10000)) <= 10000).
  { rewrite <- (rint_IZR 10000) at 2. apply IZR_le, rint_mono. lra. }
  lra.
Qed.

End Rounding.

(* Histories ending in 0.5 and in 0.75. *)
Lemma objective_score_preserves_f1_order_witness :
  ({[ "f1-mean" := [Fin (1 / 2)] ]} : gmap string (list np_float)) !! "f1-mean"
    = Some [Fin (1 / 2)]
  /\ last [Fin (1 / 2)] = Some (Fin (1 / 2))
  /\ ({[ "f1-mean" := [Fin 0; Fin (3 / 4)] ]} : gmap string (list np_float))
       !! "f1-mean" = Some [Fin 0; Fin (3 / 4)]
  /\ last [Fin 0; Fin (3 / 4)] = Some (Fin (3 / 4))
  /\ (1 / 2 <= 3 / 4)%R
  /\ exists k1 k2 : Z,
       (record_and_score {[ "f1-mean" := [Fin (1 / 2)] ]} init_state).1
         = Ok (Fin (- (IZR k1 / 10000)))
       /\ (record_and_score {[ "f1-mean" := [Fin 0; Fin (3 / 4)] ]} init_state).1
          = Ok (Fin (- (IZR k2 / 10000)))
       /\ (- (IZR k2 / 10000) <= - (IZR k1 / 10000))%R.
Proof.
  assert (E1 : ({[ "f1-mean" := [Fin (1 / 2)] ]} : gmap string (list np_float))
                 !! "f1-mean" = Some [Fin (1 / 2)]) by reflexivity.
  assert (E2 : ({[ "f1-mean" := [Fin 0; Fin (3 / 4)] ]}
                  : gmap string (list np_float))
                 !! "f1-mean" = Some [Fin 0; Fin (3 / 4)]) by reflexivity.
  split; [exact E1|]. split; [reflexivity|]. split; [exact E2|].
  split; [reflexivity|]. split; [lra|].
  destruct (objective_score_preserves_f1_order _ _
              init_state init_state [Fin (1 / 2)] [Fin 0; Fin (3 / 4)]
              (1 / 2)%R (3 / 4)%R E1 eq_refl E2 eq_refl ltac:(lra))
    as (k1 & k2 & H1 & H2 & Hle & _).
  exists k1, k2. split; [exact H1|]. split; [exact H2 | exact Hle].
Defined.

(** ** Cell 12: the final fit *)

(* What the three assignments that open cell 12 do, on any state. *)
Lemma cell_12_run (best : loc) (trials : list trial) (s : state) :
  cell_12 best trials s =
    match best_trial trials with
    | Raise e => (Raise e, s)
    | Ok bt =>
        match early_stop_dict s !! tid bt with
        | None => (Raise KeyError, s)
        | Some r =>
            let d := default ∅ (heap s !! best) in
            let d1 := <["num_boost_round" := PyInt r]> d in
            let s1 := set_heap (<[best := d1]> (heap s)) s in
            match d !! "num_leaves" with
            | None => (Raise KeyError, s1)
            | Some v =>
                match py_int v with
                | Raise e => (Raise e, s1)
                | Ok n =>
                    (Ok (),
                     set_heap
                       (<[best := <["verbose" := PyInt (-1)]>
                                    (<["num_leaves" := PyInt n]> d1)]> (heap s)) s)
                end
            end
        end
    end.
Proof.
  unfold cell_12. rewrite run_bind. unfold lift at 1.
  destruct (best_trial trials) as [bt|e]; [|reflexivity].
  rewrite run_bind. unfold gets at 1.
  rewrite run_bind. unfold lift at 1, getitem at 1.
  destruct (early_stop_dict s !! tid bt) as [r|]; [|reflexivity].
  cbv zeta. rewrite run_bind, run_dict_set_default.
  rewrite run_bind, run_dict_get_default.
  cbn [heap set_heap]. rewrite lookup_insert_eq. cbn [default Datatypes.id].
  unfold getitem at 1. rewrite lookup_insert_ne by done.
  destruct (default ∅ (heap s !! best) !! "num_leaves") as [v|]; [|reflexivity].
  rewrite run_bind. unfold lift at 1.
  destruct (py_int v) as [n|e]; [|reflexivity].
  rewrite run_bind, run_dict_set_default.
  cbn [heap set_heap]. rewrite lookup_insert_eq. cbn [default Datatypes.id].
  rewrite run_dict_set_default.
  cbn [heap set_heap]. rewrite lookup_insert_eq. cbn [default Datatypes.id].
  unfold set_heap. cbn [heap objective_i early_stop_dict].
  by rewrite !insert_insert_eq.
Qed.

(** X14: cell 12's assignments can be run again.  When they have returned,
    running them a second time returns as well and changes nothing: the
    best configuration keeps the realized round count, the integer
    num_leaves and verbose = -1.  They touch no dict other than best and
    neither the trial counter nor the recorded round counts. *)
Theorem cell_12_is_idempotent (best : loc) (trials : list trial) (s s2 : state) :
  cell_12 best trials s = (Ok (), s2) ->
  cell_12 best trials s2 = (Ok (), s2)
  /\ objective_i s2 = objective_i s
  /\ early_stop_dict s2 = early_stop_dict s
  /\ (forall q : loc, q <> best -> heap s2 !! q = heap s !! q).
Proof.
  rewrite cell_12_run.
  destruct (best_trial trials) as [bt|e] eqn:Hbt; [|discriminate].
  destruct (early_stop_dict s !! tid bt) as [r|] eqn:Hr; [|discriminate].
  cbv zeta. set (d := default ∅ (heap s !! best)).
  destruct (d !! "num_leaves") as [v|] eqn:Hv; [|discriminate].
  destruct (py_int v) as [n|e] eqn:En; [|discriminate].
  intros [= <-]. set (d2 := <["verbose" := _]> _).
  split.
  - rewrite cell_12_run, Hbt. cbn [early_stop_dict heap set_heap]. rewrite Hr.
    cbv zeta. rewrite lookup_insert_eq. cbn [default Datatypes.id].
    assert (L : d2 !! "num_leaves" = Some (PyInt n)).
    { unfold d2. rewrite lookup_insert_ne by done. apply lookup_insert_eq. }
    rewrite L. cbn [py_int].
    assert (E : <["verbose" := PyInt (-1)]>
                  (<["num_leaves" := PyInt n]>
                     (<["num_boost_round" := PyInt r]> d2)) = d2).
    { apply map_eq. intros k. unfold d2. rewrite !lookup_insert.
      repeat case_decide; congruence. }
    rewrite E. unfold set_heap. cbn [heap objective_i early_stop_dict].
    by rewrite insert_insert_eq.
  - cbn [objective_i early_stop_dict heap set_heap]. split; [done|]. split; [done|].
    intros q Hq. apply lookup_insert_ne. congruence.
Qed.

(* The best configuration of a search of one trial that stopped after 7
   rounds. *)
Lemma cell_12_is_idempotent_witness :
  let s := mkState {[ 1%positive := sample_config ]} 1 {[ 0%Z := 7%Z ]} in
  let trials := [mkTrial 0 sample_config (Fin 0)] in
  exists s2 : state,
    cell_12 1%positive trials s = (Ok (), s2)
    /\ cell_12 1%positive trials s2 = (Ok (), s2).
Proof.
  intros s trials.
  assert (H : cell_12 1%positive trials s
              = (Ok (),
                 set_heap
                   (<[1%positive := <["verbose" := PyInt (-1)]>
                        (<["num_leaves" := PyInt (trunc 31)]>
                           (<["num_boost_round" := PyInt 7]> sample_config))]>
                      (heap s)) s)).
  { apply (run_cell_12 1%positive trials s (mkTrial 0 sample_config (Fin 0)) 7
             sample_config (PyFloat (Fin 31)) (trunc 31));
      reflexivity. }
  eexists. split; [exact H|].
  apply (cell_12_is_idempotent 1%positive trials s _ H).
Defined.

(** * The loss, its stencils and the predictions in floating point *)

(** ** The stencils *)

Section FloatStencils.
Local Open Scope R_scope.

(* The first difference multiplies f(x) by its centre weight 0: where f(x)
   is infinite or nan the sum is nan, whatever f is at the two neighbours. *)
Lemma three_point_1_nan (f : np_float -> np_float) (x : np_float) :
  f (fadd x (fmul (fcst 0) step)) = PInf
  \/ f (fadd x (fmul (fcst 0) step)) = NInf
  \/ f (fadd x (fmul (fcst 0) step)) = NaN ->
  three_point (fdiv (fcst (-1)) (fcst 2)) (fdiv zero (fcst 2)) (fdiv one (fcst 2))
    f x step (product (replicate 1 step)) = NaN.
Proof.
  intros HB. unfold three_point.
  destruct np_weights_1 as (-> & -> & ->).
  set (u := fadd zero _).
  assert (E : fmul (Fin 0) (f (fadd x (fmul (fcst 0) step))) = NaN).
  { destruct HB as [-> | [-> | ->]]; cbn; try apply inf_times_zero. reflexivity. }
  rewrite E. cbn [fadd fdiv np_float64].
  replace (np_fadd u NaN) with NaN by (by destruct u).
  reflexivity.
Qed.

Lemma ln_lt_self (x : R) : 0 < x -> ln x < x.
Proof.
  intros Hx. rewrite <- (ln_exp x) at 2.
  apply ln_increasing; [done|]. pose proof (exp_ineq1 x ltac:(lra)). lra.
Qed.

(* Operations on finite operands whose exact result is in range. *)
Lemma np_fadd_Fin (a b : R) :
  - DBL_MAX <= a + b <= DBL_MAX -> np_fadd (Fin a) (Fin b) = Fin (a + b).
Proof. intros Hr. cbn [np_fadd]. by apply overflow_fin. Qed.

Lemma np_fsub_Fin (a b : R) :
  - DBL_MAX <= a - b <= DBL_MAX -> np_fsub (Fin a) (Fin b) = Fin (a - b).
Proof. intros Hr. unfold np_fsub. cbn [np_fneg np_fadd]. by apply overflow_fin. Qed.

Lemma np_fmul_Fin (a b : R) :
  - DBL_MAX <= a * b <= DBL_MAX -> np_fmul (Fin a) (Fin b) = Fin (a * b).
Proof. intros Hr. cbn [np_fmul]. by apply overflow_fin. Qed.

Lemma np_flog_Fin (r : R) : 0 < r -> np_flog (Fin r) = Fin (ln r).
Proof. intros Hr. cbn [np_flog]. destruct (Rlt_dec 0 r); [done | lra]. Qed.

(* Identities of the carrier's operations that float64's own operations
   share: negation is exact, and adding 0.0 or multiplying by 1.0 returns
   the operand. *)
Lemma overflow_opp (r : R) : overflow (- r) = np_fneg (overflow r).
Proof.
  pose proof DBL_MAX_ge_4 as HM. unfold overflow.
  destruct (Rlt_dec DBL_MAX (- r)), (Rlt_dec (- r) (- DBL_MAX)),
    (Rlt_dec DBL_MAX r), (Rlt_dec r (- DBL_MAX)); try lra; reflexivity.
Qed.

Lemma np_fmul_opp_l (a : R) (v : np_float) :
  np_fmul (Fin (- a)) v = np_fneg (np_fmul (Fin a) v).
Proof.
  destruct v as [b| | |]; cbn [np_fmul np_fneg]; [| | |done].
  - replace (- a * b) with (- (a * b)) by lra. apply overflow_opp.
  - unfold inf_times.
    destruct (Rlt_dec 0 (- a)), (Rlt_dec (- a) 0), (Rlt_dec 0 a), (Rlt_dec a 0);
      try lra; reflexivity.
  - unfold inf_times.
    destruct (Rlt_dec 0 (- a)), (Rlt_dec (- a) 0), (Rlt_dec 0 a), (Rlt_dec a 0);
      try lra; reflexivity.
Qed.

Lemma np_fadd_comm (u v : np_float) : np_fadd u v = np_fadd v u.
Proof.
  destruct u as [a| | |], v as [b| | |]; cbn [np_fadd]; try reflexivity.
  by rewrite Rplus_comm.
Qed.

Lemma np_fadd_0_l (v : np_float) : in_range v -> np_fadd (Fin 0) v = v.
Proof.
  intros Hv. destruct v as [b| | |]; cbn [np_fadd]; try reflexivity.
  rewrite Rplus_0_l. apply overflow_fin. by apply Hv.
Qed.

Lemma np_fmul_1_l (v : np_float) : in_range v -> np_fmul (Fin 1) v = v.
Proof.
  intros Hv. destruct v as [b| | |]; cbn [np_fmul]; try reflexivity.
  - rewrite Rmult_1_l. apply overflow_fin. by apply Hv.
  - apply (inf_times_pos true). lra.
  - apply (inf_times_pos false). lra.
Qed.

(* The first difference where f(x) is a number: the centre term 0 * f(x)
   is 0.0 and drops out. *)
Lemma three_point_1_form (f : np_float -> np_float) (x : np_float) (b : R) :
  f (fadd x (fmul (fcst 0) step)) = Fin b ->
  three_point (fdiv (fcst (-1)) (fcst 2)) (fdiv zero (fcst 2)) (fdiv one (fcst 2))
    f x step (product (replicate 1 step))
  = fdiv (fsub (fmul (fcst (1 # 2)) (f (fadd x (fmul (fcst 1) step))))
               (fmul (fcst (1 # 2)) (f (fadd x (fmul (fcst (-1)) step)))))
         step.
Proof.
  intros Hb. unfold three_point. rewrite Hb.
  destruct np_weights_1 as (-> & -> & ->).
  unfold product. cbn [replicate fold_left]. unfold zero.
  rewrite np_half, np_one, np_step.
  set (lo := f _). set (hi := f _).
  cbn [fcst fadd fsub fmul fdiv np_float64]. rewrite RMicromega.Q2R_0.
  pose proof DBL_MAX_ge_4 as HM.
  rewrite (np_fmul_Fin 0 b), (np_fmul_Fin 1 (1 / 1000000)) by lra.
  rewrite np_fmul_opp_l.
  rewrite np_fadd_0_l
    by (intros r Hr; destruct (np_fmul (Fin (1 / 2)) lo) as [c| | |] eqn:Ec;
        try discriminate; injection Hr as <-;
        pose proof (np_fmul_Fin_range _ _ _ Ec); lra).
  replace (0 * b) with 0 by lra.
  rewrite (np_fadd_comm _ (Fin 0)).
  rewrite np_fadd_0_l
    by (intros r Hr; destruct (np_fmul (Fin (1 / 2)) lo) as [c| | |] eqn:Ec;
        try discriminate; injection Hr as <-;
        pose proof (np_fmul_Fin_range _ _ _ Ec); lra).
  unfold np_fsub. rewrite np_fadd_comm.
  do 2 f_equal. lra.
Qed.

(* The second difference: its weights 1, -2, 1 and the starting value 0.0
   leave (f(x-h) - 2 f(x)) + f(x+h). *)
Lemma three_point_2_form (f : np_float -> np_float) (x : np_float) :
  (forall y : np_float, in_range (f y)) ->
  three_point one (fcst (-2)) one f x step (product (replicate 2 step))
  = fdiv (fadd (fsub (f (fadd x (fmul (fcst (-1)) step)))
                     (fmul (fcst 2) (f (fadd x (fmul (fcst 0) step)))))
               (f (fadd x (fmul (fcst 1) step))))
         (fmul step step).
Proof.
  intros Hf. unfold three_point.
  unfold product. cbn [replicate fold_left]. unfold zero.
  rewrite np_one, np_step.
  set (lo := f _). set (mid := f _). set (hi := f _).
  cbn [fcst fadd fsub fmul fdiv np_float64]. rewrite RMicromega.Q2R_0.
  replace (Q2R (-2)) with (Ropp 2) by (unfold Q2R; cbn [Qnum Qden]; lra).
  replace (Q2R 2) with 2 by (unfold Q2R; cbn [Qnum Qden]; lra).
  pose proof DBL_MAX_ge_4 as HM.
  rewrite (np_fmul_Fin 1 (1 / 1000000)) by lra.
  rewrite !np_fmul_1_l by apply Hf.
  rewrite np_fadd_0_l by apply Hf.
  rewrite np_fmul_opp_l, Rmult_1_l. reflexivity.
Qed.

(* A sigmoid that is not 0 is at least 1 / DBL_MAX: below that the
   exponential has overflowed. *)
Lemma sigmoid_pos_bound (x : np_float) (p : R) :
  fdiv one (fadd one (fexp (fneg x))) = Fin p -> 0 < p -> 1 / DBL_MAX <= p.
Proof.
  pose proof DBL_MAX_ge_4 as HM.
  destruct sigmoid_special as (HN & HP & HZ).
  destruct x as [r| | |].
  - rewrite sigmoid_value_exact. intros [= <-].
    destruct (Rlt_dec DBL_MAX (1 + exp (- r))) as [_|Hfit]; [lra|]. intros _.
    pose proof (exp_pos (- r)).
    unfold Rdiv. rewrite !Rmult_1_l.
    apply Rinv_le_contravar; lra.
  - rewrite HP. intros [= <-] _.
    apply (Rmult_le_reg_r DBL_MAX); [lra|].
    unfold Rdiv. rewrite Rmult_assoc, Rinv_l by lra. lra.
  - rewrite HN. intros [= <-]. lra.
  - rewrite HZ. discriminate.
Qed.

Lemma ln_sigmoid_range (x : np_float) (p : R) :
  fdiv one (fadd one (fexp (fneg x))) = Fin p -> 0 < p < 1 ->
  - DBL_MAX <= ln p < 0.
Proof.
  intros Hp [Hp0 Hp1]. pose proof DBL_MAX_ge_4 as HM.
  pose proof (sigmoid_pos_bound x p Hp Hp0) as Hb.
  split; [|rewrite <- ln_1; by apply ln_increasing].
  assert (Hd : 0 < 1 / DBL_MAX) by (apply Rdiv_lt_0_compat; lra).
  assert (Hl : ln (1 / DBL_MAX) <= ln p).
  { destruct Hb as [Hb | <-]; [left; by apply ln_increasing | right; reflexivity]. }
  unfold Rdiv in Hl. rewrite Rmult_1_l, ln_Rinv in Hl by lra.
  pose proof (ln_lt_self DBL_MAX ltac:(lra)). lra.
Qed.

(* With alpha = 0.5 and gamma = 0 the loss of a positive sample is finite
   wherever the sigmoid is a number strictly between 0 and 1. *)
Lemma loss_half_finite (y : np_float) (p : R) :
  fdiv one (fadd one (fexp (fneg y))) = Fin p ->
  0 < p < 1 -> - DBL_MAX <= ln p ->
  exists v : R, loss (Fin (1 / 2)) (Fin 0) y (Fin 1) = Fin v.
Proof.
  intros Hp [Hp0 Hp1] Hln.
  assert (Hneg : ln p < 0) by (rewrite <- ln_1; by apply ln_increasing).
  pose proof DBL_MAX_ge_4 as HM.
  rewrite focal_half_log_loss by (by right).
  unfold binary_log_loss. cbv zeta. rewrite Hp, np_one.
  cbn [flog fsub fadd fmul fneg np_float64].
  rewrite (np_flog_Fin p), (np_fsub_Fin 1 p), (np_fsub_Fin 1 1) by lra.
  rewrite (np_flog_Fin (1 - p)) by lra.
  rewrite !np_fmul_Fin by lra.
  rewrite np_fadd_Fin by lra.
  cbn [np_fneg]. rewrite np_fmul_Fin by lra.
  by eexists.
Qed.

(** C1, as amended: for equal-length arrays of raw scores and labels and
    any alpha and gamma, [focal_loss_lgb] returns a pair (grad, hess) of
    arrays of the length of y_pred whose i-th entries are the two
    three-point stencils of step h = 1e-6 of f = fl(., t_i) at
    x = y_pred[i], independently per sample, as the floating-point
    operations compute them:
      grad_i = (((0.0 + (-1/2) f(x-h)) + 0 f(x)) + (1/2) f(x+h)) / h
      hess_i = (((0.0 + 1 f(x-h)) + (-2) f(x)) + 1 f(x+h)) / (h h),
    whatever the float arithmetic is (first part).  With the special
    values of float64 (second part), grad_i is
    (0.5 f(x+h) - 0.5 f(x-h)) / h where f(x) is a number, and nan where
    f(x) is inf, -inf or nan, because of the centre term 0 f(x); hess_i is
    ((f(x-h) - 2 f(x)) + f(x+h)) / (h h). *)
Theorem focal_loss_lgb_float_stencils :
  (forall (F : Type) (HF : Float64 F) (y_pred y_true : list F) (alpha gamma : F),
     length y_pred = length y_true ->
     exists grad hess : list F,
       focal_loss_lgb (Array y_pred) {| label := Array y_true |} alpha gamma
         = Ok (Array grad, Array hess)
       /\ length grad = length y_pred
       /\ length hess = length y_pred
       /\ forall (i : nat) (x t : F),
            y_pred !! i = Some x -> y_true !! i = Some t ->
            let f := fun x' => loss alpha gamma x' t in
            let lo := f (fadd x (fmul (fcst (-1)) step)) in
            let mid := f (fadd x (fmul (fcst 0) step)) in
            let hi := f (fadd x (fmul (fcst 1) step)) in
            (forall x', fl alpha gamma (Scalar x') (Scalar t) = Ok (Scalar (f x')))
            /\ grad !! i
               = Some (fdiv
                         (fadd (fadd (fadd zero
                            (fmul (fdiv (fcst (-1)) (fcst 2)) lo))
                            (fmul (fdiv zero (fcst 2)) mid))
                            (fmul (fdiv one (fcst 2)) hi))
                         (fmul one step))
            /\ hess !! i
               = Some (fdiv
                         (fadd (fadd (fadd zero
                            (fmul one lo))
                            (fmul (fcst (-2)) mid))
                            (fmul one hi))
                         (fmul (fmul one step) step)))
  /\ (forall (y_pred y_true : list np_float) (alpha gamma : np_float),
        length y_pred = length y_true ->
        exists grad hess : list np_float,
          focal_loss_lgb (Array y_pred) {| label := Array y_true |} alpha gamma
            = Ok (Array grad, Array hess)
          /\ forall (i : nat) (x t : np_float),
               y_pred !! i = Some x -> y_true !! i = Some t ->
               let f := fun x' => loss alpha gamma x' t in
               let lo := f (fadd x (fmul (fcst (-1)) step)) in
               let mid := f (fadd x (fmul (fcst 0) step)) in
               let hi := f (fadd x (fmul (fcst 1) step)) in
               grad !! i
                 = Some match mid with
                        | Fin _ =>
                            fdiv (fsub (fmul (fcst (1 # 2)) hi)
                                       (fmul (fcst (1 # 2)) lo))
                                 step
                        | _ => NaN
                        end
               /\ hess !! i
                  = Some (fdiv (fadd (fsub lo (fmul (fcst 2) mid)) hi)
                               (fmul step step))).
Proof.
  split.
  - intros F HF y_pred y_true alpha gamma E.
    rewrite (focal_loss_lgb_arrays alpha gamma y_pred y_true E).
    eexists _, _. split; [reflexivity|].
    split; [rewrite length_zip_with; lia|].
    split; [rewrite length_zip_with; lia|].
    intros i x t Hx Ht. cbv zeta. split; [intros x'; apply fl_scalar|].
    rewrite !lookup_zip_with, Hx, Ht. cbn [mbind option_bind].
    split; reflexivity.
  - intros y_pred y_true alpha gamma E.
    rewrite (focal_loss_lgb_arrays alpha gamma y_pred y_true E).
    eexists _, _. split; [reflexivity|].
    intros i x t Hx Ht. cbv zeta.
    rewrite !lookup_zip_with, Hx, Ht. cbn [mbind option_bind].
    split; f_equal.
    + destruct (loss alpha gamma (fadd x (fmul (fcst 0) step)) t) as [b| | |] eqn:Em.
      * by apply (three_point_1_form (fun x' => loss alpha gamma x' t) x b).
      * apply (three_point_1_nan (fun x' => loss alpha gamma x' t)). by left.
      * apply (three_point_1_nan (fun x' => loss alpha gamma x' t)).
        by right; left.
      * apply (three_point_1_nan (fun x' => loss alpha gamma x' t)).
        by right; right.
    + apply (three_point_2_form (fun x' => loss alpha gamma x' t)).
      intros y r. apply loss_Fin_range.
Qed.

Lemma DBL_MAX_ge_3000000 : 3000000 <= DBL_MAX.
Proof.
  unfold DBL_MAX. apply IZR_le. apply Z.leb_le. vm_compute. reflexivity.
Qed.

Lemma ln_le_minus_1 (x : R) : 0 < x -> ln x <= x - 1.
Proof.
  intros Hx. destruct (Req_dec_T (ln x) 0) as [E|E].
  - assert (x = 1); [|lra].
    apply ln_inv; [done | lra | by rewrite ln_1].
  - pose proof (exp_ineq1 (ln x) E) as H. rewrite exp_ln in H by done. lra.
Qed.

(* Half a step below the raw score at which the exponential of the
   sigmoid starts to overflow: the sigmoid is 0 there and one step
   further down, and a positive number one step further up. *)
Lemma threshold_points :
  let r := - ln DBL_MAX - 1 / 2000000 in
  fdiv one (fadd one (fexp (fneg (fadd (Fin r) (fmul (fcst (-1)) step))))) = Fin 0
  /\ fdiv one (fadd one (fexp (fneg (fadd (Fin r) (fmul (fcst 0) step))))) = Fin 0
  /\ exists p : R,
       fdiv one (fadd one (fexp (fneg (fadd (Fin r) (fmul (fcst 1) step))))) = Fin p
       /\ 0 < p < 1.
Proof.
  intros r. pose proof DBL_MAX_ge_3000000 as HM.
  assert (Hl : 0 < ln DBL_MAX <= DBL_MAX - 1).
  { split; [rewrite <- ln_1; apply ln_increasing; lra|].
    apply ln_le_minus_1. lra. }
  assert (Hpt : forall k : Q,
             -1 <= Q2R k <= 1 ->
             (fadd (Fin r) (fmul (fcst k) step) : np_float)
             = Fin (r + Q2R k * (1 / 1000000))).
  { intros k Hk. rewrite np_step. cbn [fadd fmul fcst np_float64 np_fadd np_fmul].
    rewrite (overflow_small (Q2R k * (1 / 1000000))) by lra.
    cbn [np_fadd]. apply overflow_fin. unfold r. lra. }
  assert (Hov : forall d : R,
             0 < d -> DBL_MAX < 1 + exp (- (- ln DBL_MAX - d))).
  { intros d Hd.
    replace (- (- ln DBL_MAX - d)) with (ln DBL_MAX + d) by lra.
    rewrite exp_plus, exp_ln by lra.
    pose proof (exp_ineq1 d ltac:(lra)). nra. }
  assert (Q1 : Q2R (-1) = -1) by (unfold Q2R; cbn [Qnum Qden]; lra).
  assert (Q0 : Q2R 0 = 0) by (unfold Q2R; cbn [Qnum Qden]; lra).
  assert (Q1' : Q2R 1 = 1) by (unfold Q2R; cbn [Qnum Qden]; lra).
  rewrite !Hpt by lra. rewrite !sigmoid_value_exact, Q1, Q0, Q1'.
  split; [|split].
  - destruct (Rlt_dec _ _) as [_|Hn]; [done|]. exfalso. apply Hn.
    replace (r + -1 * (1 / 1000000)) with (- ln DBL_MAX - 3 / 2000000)
      by (unfold r; lra).
    apply Hov. lra.
  - destruct (Rlt_dec _ _) as [_|Hn]; [done|]. exfalso. apply Hn.
    replace (r + 0 * (1 / 1000000)) with (- ln DBL_MAX - 1 / 2000000)
      by (unfold r; lra).
    apply Hov. lra.
  - replace (- (r + 1 * (1 / 1000000))) with (ln DBL_MAX + - (1 / 2000000))
      by (unfold r; lra).
    rewrite exp_plus, exp_ln by lra.
    set (e := exp (- (1 / 2000000))).
    assert (He : 0 < e) by apply exp_pos.
    assert (He1 : e * (1 + 1 / 2000000) <= 1).
    { pose proof (exp_ineq1 (1 / 2000000) ltac:(lra)) as H.
      assert (E : e * exp (1 / 2000000) = 1).
      { unfold e. rewrite <- exp_plus, Rplus_opp_l. apply exp_0. }
      rewrite <- E. apply Rmult_le_compat_l; lra. }
    assert (Ht : DBL_MAX * e * (1 + 1 / 2000000) <= DBL_MAX).
    { rewrite Rmult_assoc. rewrite <- (Rmult_1_r DBL_MAX) at 2.
      apply Rmult_le_compat_l; lra. }
    assert (Ht0 : 0 < DBL_MAX * e) by (apply Rmult_lt_0_compat; lra).
    destruct (Rlt_dec _ _) as [Hc|_]; [lra|].
    eexists. split; [reflexivity|].
    split; [apply Rdiv_lt_0_compat; lra|].
    apply (Rmult_lt_reg_r (1 + DBL_MAX * e)); [lra|].
    unfold Rdiv. rewrite Rmult_assoc, Rinv_l by lra. lra.
Qed.

(** C1, as stated, fails: at the raw score x = -ln(DBL_MAX) - 5e-7 (about
    -709.7827134, half a step below the score at which exp(-x)
    overflows) with label 1, alpha = 0.5 and gamma = 0, the loss is inf
    at x - h and at x and a number at x + h, so the difference quotient
    (f(x+h) - f(x-h)) / (2h) is -inf, while the gradient entry
    [focal_loss_lgb] returns is nan. *)
Lemma focal_loss_lgb_gradient_not_difference_quotient :
  let x : np_float := Fin (- ln DBL_MAX - 1 / 2000000) in
  let f := fun x' : np_float => loss (Fin (1 / 2)) (Fin 0) x' (Fin 1) in
  let lo := f (fadd x (fmul (fcst (-1)) step)) in
  let hi := f (fadd x (fmul (fcst 1) step)) in
  focal_loss_lgb (Array [x]) {| label := Array [Fin 1] |} (Fin (1 / 2)) (Fin 0)
    = Ok (Array [NaN], Array [NaN])
  /\ fdiv (fsub hi lo) (fmul (fcst 2) step) = NInf.
Proof.
  cbv zeta. pose proof DBL_MAX_ge_4 as HM.
  destruct threshold_points as (Hlo & Hmid & p & Hhi & Hp).
  set (x := Fin (- ln DBL_MAX - 1 / 2000000)) in *.
  set (f := fun x' : np_float => loss (Fin (1 / 2)) (Fin 0) x' (Fin 1)).
  assert (Elo : f (fadd x (fmul (fcst (-1)) step)) = PInf).
  { apply loss_inf_where_sigmoid_is_0; [lra | exact Hlo]. }
  assert (Emid : f (fadd x (fmul (fcst 0) step)) = PInf).
  { apply loss_inf_where_sigmoid_is_0; [lra | exact Hmid]. }
  assert (Ehi : exists v : R, f (fadd x (fmul (fcst 1) step)) = Fin v).
  { apply (loss_half_finite _ p Hhi Hp).
    apply (ln_sigmoid_range _ p Hhi Hp). }
  destruct Ehi as [v Ehi]. split.
  - rewrite (focal_loss_lgb_arrays (Fin (1 / 2)) (Fin 0) [x] [Fin 1] eq_refl).
    cbn [zip_with]. fold f.
    destruct (three_point_nan f x Elo Emid) as [-> ->]. reflexivity.
  - unfold f in Ehi, Elo. rewrite Ehi, Elo, np_step.
    cbn [fsub fmul fdiv fcst np_float64 np_fsub np_fneg np_fadd np_fmul].
    replace (Q2R 2) with 2 by (unfold Q2R; cbn [Qnum Qden]; lra).
    rewrite overflow_small by lra. cbn [np_fdiv].
    destruct (Rlt_dec (2 * (1 / 1000000)) 0); [lra | done].
Qed.

Lemma focal_loss_lgb_float_stencils_witness :
  length [Fin 0; Fin 3] = length [Fin 1; Fin 0]
  /\ exists grad hess : list np_float,
       focal_loss_lgb (Array [Fin 0; Fin 3]) {| label := Array [Fin 1; Fin 0] |}
         (Fin (1 / 4)) (Fin 2) = Ok (Array grad, Array hess)
       /\ length grad = 2%nat /\ length hess = 2%nat.
Proof.
  split; [reflexivity|].
  destruct focal_loss_lgb_float_stencils as [Hg _].
  destruct (Hg np_float np_float64 [Fin 0; Fin 3] [Fin 1; Fin 0]
              (Fin (1 / 4)) (Fin 2) eq_refl) as (grad & hess & Hf & Hlg & Hlh & _).
  exists grad, hess. split; [exact Hf|]. split; [exact Hlg | exact Hlh].
Defined.



End FloatStencils.


(** ** The focal loss *)

Section FloatLoss.
Local Open Scope R_scope.

Lemma np_fadd_in_range (u v : np_float) : in_range (np_fadd u v).
Proof.
  intros r. destruct u as [a| | |], v as [b| | |]; cbn [np_fadd]; try discriminate.
  unfold overflow.
  destruct (Rlt_dec DBL_MAX (a + b)); [discriminate|].
  destruct (Rlt_dec (a + b) (- DBL_MAX)); [discriminate|].
  intros [= <-]. lra.
Qed.

Lemma np_fneg_in_range (v : np_float) : in_range v -> in_range (np_fneg v).
Proof.
  intros Hv r. destruct v as [a| | |]; cbn [np_fneg]; try discriminate.
  intros [= <-]. specialize (Hv a eq_refl). lra.
Qed.

Lemma np_fmul_comm (u v : np_float) : np_fmul u v = np_fmul v u.
Proof.
  destruct u as [a| | |], v as [b| | |]; cbn [np_fmul]; try reflexivity.
  by rewrite Rmult_comm.
Qed.

Lemma np_fmul_fneg_l (u v : np_float) :
  np_fmul (np_fneg u) v = np_fneg (np_fmul u v).
Proof.
  destruct u as [a| | |]; cbn [np_fneg].
  - apply np_fmul_opp_l.
  - destruct v as [b| | |]; cbn [np_fmul np_fneg]; try reflexivity.
    unfold inf_times. destruct (Rlt_dec 0 b), (Rlt_dec b 0); reflexivity.
  - destruct v as [b| | |]; cbn [np_fmul np_fneg]; try reflexivity.
    unfold inf_times. destruct (Rlt_dec 0 b), (Rlt_dec b 0); reflexivity.
  - reflexivity.
Qed.

Lemma np_fmul_fneg_r (u v : np_float) :
  np_fmul u (np_fneg v) = np_fneg (np_fmul u v).
Proof. by rewrite np_fmul_comm, np_fmul_fneg_l, np_fmul_comm. Qed.

(* With gamma = 0 the modulating factor is pow(., 0.0) = 1.0 and the focal
   expression is the log-loss expression times the class weight. *)
Lemma loss_gamma_0_float (a x t : np_float) :
  loss a (Fin 0) x t
  = fmul (fadd (fmul a t) (fmul (fsub one a) (fsub one t))) (binary_log_loss x t).
Proof.
  unfold loss, focal, binary_log_loss. cbv zeta.
  generalize (fdiv one (fadd one (fexp (fneg x)))). intros p.
  cbn [fadd fsub fmul fneg fpow np_float64].
  rewrite np_fpow_zero.
  rewrite (np_fmul_comm _ (Fin 1)).
  rewrite np_fmul_1_l by (apply np_fneg_in_range, np_fadd_in_range).
  by rewrite np_fmul_fneg_l, np_fmul_fneg_r.
Qed.

(** X5: with gamma = 0 the focal loss is the class-weighted log-loss.
    For every alpha, raw score and label, special values included, fl
    returns (alpha t + (1 - alpha)(1 - t)) times the binary log-loss
    -(t log p + (1 - t) log(1 - p)), on scalars and sample by sample on
    equal-length arrays: the modulating factor is pow(., 0.0) = 1.0. *)
Theorem focal_loss_gamma_0_is_weighted_log_loss :
  (forall a x t : np_float,
     fl a (Fin 0) (Scalar x) (Scalar t)
     = Ok (Scalar (fmul (fadd (fmul a t) (fmul (fsub one a) (fsub one t)))
                        (binary_log_loss x t))))
  /\ (forall (a : np_float) (xs ts : list np_float),
        length xs = length ts ->
        fl a (Fin 0) (Array xs) (Array ts)
        = Ok (Array (zip_with
                       (fun x t =>
                          fmul (fadd (fmul a t) (fmul (fsub one a) (fsub one t)))
                               (binary_log_loss x t))
                       xs ts))).
Proof.
  split.
  - intros a x t. by rewrite fl_scalar, loss_gamma_0_float.
  - intros a xs ts E. rewrite fl_arrays by done. do 2 f_equal.
    clear E. revert ts. induction xs as [|x xs IH]; intros [|t ts]; cbn [zip_with];
      try reflexivity.
    by rewrite loss_gamma_0_float, IH.
Qed.

Lemma np_fpow_unit (b g : R) :
  0 < b <= 1 -> 0 <= g ->
  exists q : R, np_fpow (Fin b) (Fin g) = Fin q /\ 0 < q <= 1.
Proof.
  intros [Hb0 Hb1] Hg. cbn [np_fpow].
  destruct (Req_dec_T g 0) as [_|Hg0]; [exists 1; split; [done | lra]|].
  destruct (Rlt_dec 0 b) as [_|?]; [|lra].
  assert (Hq : 0 < Rpower b g <= 1).
  { split; [unfold Rpower; apply exp_pos|].
    unfold Rpower. rewrite <- exp_0. apply exp_le_mono.
    assert (ln b <= 0).
    { destruct Hb1 as [Hb1 | ->]; [|rewrite ln_1; lra].
      left. rewrite <- ln_1. by apply ln_increasing. }
    nra. }
  exists (Rpower b g). split; [|done].
  apply overflow_small. lra.
Qed.


Lemma DBL_MAX_ge_2_pow_53 : 2 ^ 53 <= DBL_MAX.
Proof.
  unfold DBL_MAX. rewrite (pow_IZR 2 53).
  apply IZR_le. apply Z.leb_le. vm_compute. reflexivity.
Qed.

Lemma ln_one_minus_range (p : R) :
  0 < p <= 1 - / 2 ^ 53 -> - DBL_MAX <= ln (1 - p) < 0.
Proof.
  intros [Hp0 Hp1]. pose proof DBL_MAX_ge_2_pow_53 as HM.
  assert (H2 : 0 < 2 ^ 53) by (apply pow_lt; lra).
  assert (Hi : 0 < / 2 ^ 53) by (by apply Rinv_0_lt_compat).
  split; [|rewrite <- ln_1; apply ln_increasing; lra].
  assert (Hl : ln (/ 2 ^ 53) <= ln (1 - p)).
  { destruct (Req_dec_T (/ 2 ^ 53) (1 - p)) as [<- | Hne]; [lra|].
    left. apply ln_increasing; lra. }
  rewrite ln_Rinv in Hl by done.
  pose proof (ln_lt_self (2 ^ 53) H2). lra.
Qed.

Lemma scaled_log_range (w q l : R) :
  0 <= w <= 1 -> 0 < q <= 1 -> - DBL_MAX <= l <= 0 ->
  -1 <= - w * q <= 0 /\ 0 <= - w * q * l <= DBL_MAX.
Proof.
  intros Hw Hq Hl.
  assert (Hc : 0 <= w * q <= 1) by nra.
  split; [lra|].
  replace (- w * q * l) with ((w * q) * (- l)) by ring.
  split; [apply Rmult_le_pos; lra|].
  apply Rle_trans with (1 * (- l)); [|lra].
  apply Rmult_le_compat_r; lra.
Qed.

(** X4: the two branches of the focal loss.  Let alpha be in [0, 1] and
    let the sigmoid of the raw score evaluate to a number p with
    0 < p <= 1 - 2^-53 (the doubles strictly between 0 and 1).  Then for
    a label 1 fl returns (-alpha) (1 - p)^gamma log(p), for a label 0 it
    returns (-(1 - alpha)) (1 - (1 - p))^gamma log(1 - p), each evaluated
    in this order with the float operations; and for gamma >= 0 and a
    label in {0, 1} the result is a finite number >= 0. *)
Theorem focal_loss_closed_forms (a g p : R) (x : np_float) :
  0 <= a <= 1 ->
  fdiv one (fadd one (fexp (fneg x))) = Fin p ->
  0 < p <= 1 - / 2 ^ 53 ->
  fl (Fin a) (Fin g) (Scalar x) (Scalar (Fin 1))
  = Ok (Scalar (fmul (fmul (fneg (Fin a)) (fpow (fsub one (Fin p)) (Fin g)))
                     (flog (Fin p))))
  /\ fl (Fin a) (Fin g) (Scalar x) (Scalar (Fin 0))
     = Ok (Scalar (fmul (fmul (fneg (fsub one (Fin a)))
                              (fpow (fsub one (fsub one (Fin p))) (Fin g)))
                        (flog (fsub one (Fin p)))))
  /\ (0 <= g ->
      forall t : np_float,
        t = Fin 0 \/ t = Fin 1 ->
        exists v : R,
          fl (Fin a) (Fin g) (Scalar x) (Scalar t) = Ok (Scalar (Fin v))
          /\ 0 <= v).
Proof.
  intros Ha Hp Hpr.
  pose proof DBL_MAX_ge_4 as HM.
  assert (H53 : 0 < / 2 ^ 53) by (apply Rinv_0_lt_compat, pow_lt; lra).
  assert (Hp01 : 0 < p < 1) by lra.
  pose proof (ln_sigmoid_range x p Hp Hp01) as Hlp.
  pose proof (ln_one_minus_range p Hpr) as Hlq.
  assert (E1 : loss (Fin a) (Fin g) x (Fin 1)
               = np_fmul (np_fmul (Fin (- a)) (np_fpow (Fin (1 - p)) (Fin g)))
                   (Fin (ln p))).
  { unfold loss. rewrite Hp. unfold focal. rewrite np_one.
    cbn [fadd fsub fmul fneg fpow flog np_float64].
    rewrite (np_flog_Fin p), (np_fsub_Fin 1 p), (np_fsub_Fin 1 1), (np_fsub_Fin 1 a)
      by lra.
    rewrite (np_flog_Fin (1 - p)) by lra.
    rewrite (np_fmul_Fin a 1), (np_fmul_Fin (1 - a) (1 - 1)), (np_fmul_Fin 1 p),
      (np_fmul_Fin (1 - 1) (1 - p)), (np_fmul_Fin 1 (ln p)),
      (np_fmul_Fin (1 - 1) (ln (1 - p))) by lra.
    rewrite !np_fadd_Fin by lra. rewrite np_fsub_Fin by lra.
    cbn [np_fneg].
    replace (- (a * 1 + (1 - a) * (1 - 1))) with (- a) by lra.
    replace (1 - (1 * p + (1 - 1) * (1 - p))) with (1 - p) by lra.
    replace (1 * ln p + (1 - 1) * ln (1 - p)) with (ln p) by lra.
    reflexivity. }
  assert (E0 : loss (Fin a) (Fin g) x (Fin 0)
               = np_fmul (np_fmul (Fin (- (1 - a)))
                            (np_fpow (Fin (1 - (1 - p))) (Fin g)))
                   (Fin (ln (1 - p)))).
  { unfold loss. rewrite Hp. unfold focal. rewrite np_one.
    cbn [fadd fsub fmul fneg fpow flog np_float64].
    rewrite (np_flog_Fin p), (np_fsub_Fin 1 p), (np_fsub_Fin 1 0), (np_fsub_Fin 1 a)
      by lra.
    rewrite (np_flog_Fin (1 - p)) by lra.
    rewrite (np_fmul_Fin a 0), (np_fmul_Fin (1 - a) (1 - 0)), (np_fmul_Fin 0 p),
      (np_fmul_Fin (1 - 0) (1 - p)), (np_fmul_Fin 0 (ln p)),
      (np_fmul_Fin (1 - 0) (ln (1 - p))) by lra.
    rewrite !np_fadd_Fin by lra. rewrite np_fsub_Fin by lra.
    cbn [np_fneg].
    replace (- (a * 0 + (1 - a) * (1 - 0))) with (- (1 - a)) by lra.
    replace (1 - (0 * p + (1 - 0) * (1 - p))) with (1 - (1 - p)) by lra.
    replace (0 * ln p + (1 - 0) * ln (1 - p)) with (ln (1 - p)) by lra.
    reflexivity. }
  split; [|split].
  - rewrite fl_scalar, E1, np_one. do 2 f_equal.
    cbn [fsub fmul fneg fpow flog np_float64 np_fneg].
    by rewrite (np_flog_Fin p), (np_fsub_Fin 1 p) by lra.
  - rewrite fl_scalar, E0, np_one. do 2 f_equal.
    cbn [fsub fmul fneg fpow flog np_float64].
    rewrite (np_fsub_Fin 1 p), (np_fsub_Fin 1 a) by lra.
    rewrite (np_fsub_Fin 1 (1 - p)), (np_flog_Fin (1 - p)) by lra.
    reflexivity.
  - intros Hg t [-> | ->]; rewrite fl_scalar.
    + rewrite E0.
      destruct (np_fpow_unit (1 - (1 - p)) g ltac:(lra) Hg) as (q & -> & Hq).
      destruct (scaled_log_range (1 - a) q (ln (1 - p))) as [Hc Hv]; [lra..|].
      rewrite (np_fmul_Fin (- (1 - a)) q) by lra.
      rewrite np_fmul_Fin by lra.
      eexists. split; [reflexivity | lra].
    + rewrite E1.
      destruct (np_fpow_unit (1 - p) g ltac:(lra) Hg) as (q & -> & Hq).
      destruct (scaled_log_range a q (ln p)) as [Hc Hv]; [lra..|].
      rewrite (np_fmul_Fin (- a) q) by lra.
      rewrite np_fmul_Fin by lra.
      eexists. split; [reflexivity | lra].
Qed.

End FloatLoss.

(* Score 0: the sigmoid is exactly 0.5. *)
Lemma focal_loss_closed_forms_witness :
  (0 <= 1 / 4 <= 1)%R
  /\ fdiv one (fadd one (fexp (fneg (Fin 0)))) = Fin (1 / 2)
  /\ (0 < 1 / 2 <= 1 - / 2 ^ 53)%R
  /\ fl (Fin (1 / 4)) (Fin 2) (Scalar (Fin 0)) (Scalar (Fin 1))
     = Ok (Scalar (fmul (fmul (fneg (Fin (1 / 4)))
                              (fpow (fsub one (Fin (1 / 2))) (Fin 2)))
                        (flog (Fin (1 / 2))))).
Proof.
  assert (Ha : (0 <= 1 / 4 <= 1)%R) by lra.
  assert (Hp : fdiv one (fadd one (fexp (fneg (Fin 0)))) = Fin (1 / 2)).
  { rewrite sigmoid_value_exact, Ropp_0, exp_0.
    pose proof DBL_MAX_ge_4.
    destruct (Rlt_dec DBL_MAX (1 + 1)); [lra|]. f_equal; lra. }
  assert (Hr : (0 < 1 / 2 <= 1 - / 2 ^ 53)%R).
  { lra. }
  split; [exact Ha|]. split; [exact Hp|]. split; [exact Hr|].
  exact (proj1 (focal_loss_closed_forms (1 / 4) 2 (1 / 2) (Fin 0) Ha Hp Hr)).
Defined.

(** ** The predictions of the metric and of the final model *)

Section Predictions.
Local Open Scope R_scope.

(* The label of a raw score: 1 if its sigmoid is greater than 0.5. *)
Lemma label_of_score :
  (forall r : R, r <= 0 ->
     fgt (fdiv one (fadd one (fexp (fneg (Fin r))))) (fcst (1 # 2)) = false)
  /\ (forall r : R, 1 / 1000000 <= r ->
        fgt (fdiv one (fadd one (fexp (fneg (Fin r))))) (fcst (1 # 2)) = true)
  /\ fgt (fdiv one (fadd one (fexp (fneg PInf)))) (fcst (1 # 2)) = true
  /\ fgt (fdiv one (fadd one (fexp (fneg NInf)))) (fcst (1 # 2)) = false
  /\ fgt (fdiv one (fadd one (fexp (fneg NaN)))) (fcst (1 # 2)) = false.
Proof.
  assert (Hfin : forall r : R,
             fgt (fdiv one (fadd one (fexp (fneg (Fin r))))) (fcst (1 # 2))
             = if Rlt_dec 0 r then true else false).
  { intros r. destruct (sigmoid_value r) as (p & -> & _ & _ & _ & Hhalf).
    rewrite np_half. cbn [fgt np_float64 np_fgt].
    destruct (Rlt_dec (1 / 2) p), (Rlt_dec 0 r); try reflexivity; tauto. }
  split; [intros r Hr; rewrite Hfin; destruct (Rlt_dec 0 r); [lra | done]|].
  split; [intros r Hr; rewrite Hfin; destruct (Rlt_dec 0 r); [done | lra]|].
  destruct sigmoid_special as (-> & -> & ->). rewrite np_half. cbn.
  destruct (Rlt_dec (1 / 2) 1); [|lra]. destruct (Rlt_dec (1 / 2) 0); [lra|].
  done.
Qed.

(** X8: the predictions [lgb_focal_f1_score] scores.  On an array of raw
    scores it returns ('f1', v, True) with v = f1_score(labels,
    binary_preds), an exception of f1_score escaping, where binary_preds
    has the length of the scores and holds 0 for every score <= 0, for
    -inf and for nan, and 1 for every score >= 1e-6 and for inf.  On a 0-d
    score the list comprehension raises TypeError. *)
Theorem lgb_focal_f1_score_predictions
    (f1_score : ndval np_float -> list Z -> result np_float)
    (preds : list np_float) (lgbDataset : Dataset np_float) :
  exists binary_preds : list Z,
    lgb_focal_f1_score f1_score (Array preds) lgbDataset
      = (v ← f1_score (label lgbDataset) binary_preds; Ok ("f1"%string, v, true))
    /\ length binary_preds = length preds
    /\ (forall (i : nat) (r : R),
          preds !! i = Some (Fin r) -> r <= 0 -> binary_preds !! i = Some 0%Z)
    /\ (forall (i : nat) (r : R),
          preds !! i = Some (Fin r) -> 1 / 1000000 <= r ->
          binary_preds !! i = Some 1%Z)
    /\ (forall i : nat, preds !! i = Some PInf -> binary_preds !! i = Some 1%Z)
    /\ (forall i : nat, preds !! i = Some NInf -> binary_preds !! i = Some 0%Z)
    /\ (forall i : nat, preds !! i = Some NaN -> binary_preds !! i = Some 0%Z)
    /\ (forall x : np_float,
          lgb_focal_f1_score f1_score (Scalar x) lgbDataset = Raise TypeError).
Proof.
  set (lab := fun x : np_float =>
                if fgt (fdiv one (fadd one (fexp (fneg x)))) (fcst (1 # 2))
                then 1%Z else 0%Z).
  exists (map lab preds).
  assert (Hi : forall (i : nat) (x : np_float),
             preds !! i = Some x -> map lab preds !! i = Some (lab x)).
  { intros i x Hx. by rewrite list_lookup_fmap, Hx. }
  destruct label_of_score as (Hneg & Hpos & Hpinf & Hninf & Hnan).
  split.
  { unfold lgb_focal_f1_score. rewrite sigmoid_array, bind_Ok.
    cbn [binarize]. by rewrite bind_Ok, map_map. }
  split; [by rewrite length_map|].
  split; [intros i r Hx Hr; rewrite (Hi i _ Hx); unfold lab; by rewrite Hneg|].
  split; [intros i r Hx Hr; rewrite (Hi i _ Hx); unfold lab; by rewrite Hpos|].
  split; [intros i Hx; rewrite (Hi i _ Hx); unfold lab; by rewrite Hpinf|].
  split; [intros i Hx; rewrite (Hi i _ Hx); unfold lab; by rewrite Hninf|].
  split; [intros i Hx; rewrite (Hi i _ Hx); unfold lab; by rewrite Hnan|].
  reflexivity.
Qed.

End Predictions.

Section RefitFacts.
Local Open Scope R_scope.
Variable train : Dataset np_float.
Variable f1_score : ndval np_float -> list Z -> result np_float.
Variable lgb_cv :
  gmap string pyval -> Dataset np_float -> pyval -> fobj_t -> feval_t ->
  Z -> bool -> Z -> result (gmap string (list np_float)).
Variable suggest : list trial -> gmap string pyval.
Variable Booster : Type.
Variable Features : Type.
Variable X_val : Features.
Variable lgb_train :
  gmap string pyval -> Dataset np_float -> fobj_t -> result Booster.
Variable predict : Booster -> Features -> result (ndval np_float).

Local Abbreviation cell_12_fit' :=
  (cell_12_fit train Booster Features X_val lgb_train predict).
Local Abbreviation cell_12_all' :=
  (cell_12_all train Booster Features X_val lgb_train predict).

(* The last five statements of cell 12 on the contents d of best. *)
Lemma run_cell_12_fit (best : loc) (s : state) (d : gmap string pyval) :
  heap s !! best = Some d ->
  cell_12_fit' best s
  = (model ← lgb_train d train (focal_loss_of d);
     raw ← predict model X_val;
     preds ← sigmoid raw;
     Ok (threshold preds), s).
Proof.
  intros Hp. unfold cell_12_fit. rewrite run_bind. unfold deref, gets.
  rewrite Hp. cbn [default Datatypes.id]. rewrite run_bind. unfold lift at 1.
  destruct (lgb_train d train (focal_loss_of d)) as [model|e]; [|reflexivity].
  rewrite bind_Ok, run_bind. unfold lift at 1.
  destruct (predict model X_val) as [raw|e]; [|reflexivity].
  rewrite bind_Ok, run_bind. unfold lift at 1.
  destruct (sigmoid raw) as [preds|e]; reflexivity.
Qed.

(** X15: the class labels cell 12 ends with.  The last five statements
    train the booster on the contents of best with the focal loss closed
    over best's alpha and gamma, predict raw scores, apply the sigmoid and
    threshold at 0.5; an exception of lgb.train or predict escapes and the
    state is unchanged.  On an array of raw scores the labels have its
    length and are 0 for every score <= 0, for -inf and for nan, and 1 for
    every score >= 1e-6 and for inf; a 0-d prediction gets a 0-d label. *)
Theorem final_predictions (best : loc) (s : state) (d : gmap string pyval) :
  heap s !! best = Some d ->
  cell_12_fit' best s
  = (model ← lgb_train d train (focal_loss_of d);
     raw ← predict model X_val;
     preds ← sigmoid raw;
     Ok (threshold preds), s)
  /\ (forall raw : list np_float,
        exists labels : list Z,
          (preds ← sigmoid (Array raw); Ok (threshold preds)) = Ok (Array labels)
          /\ length labels = length raw
          /\ (forall (i : nat) (r : R),
                raw !! i = Some (Fin r) -> r <= 0 -> labels !! i = Some 0%Z)
          /\ (forall (i : nat) (r : R),
                raw !! i = Some (Fin r) -> 1 / 1000000 <= r ->
                labels !! i = Some 1%Z)
          /\ (forall i : nat, raw !! i = Some PInf -> labels !! i = Some 1%Z)
          /\ (forall i : nat, raw !! i = Some NInf -> labels !! i = Some 0%Z)
          /\ (forall i : nat, raw !! i = Some NaN -> labels !! i = Some 0%Z))
  /\ (forall x : np_float,
        exists l : Z,
          (preds ← sigmoid (Scalar x); Ok (threshold preds)) = Ok (Scalar l)).
Proof.
  intros Hp. split; [by apply run_cell_12_fit|].
  split.
  - intros raw.
    set (lab := fun x : np_float =>
                  if fgt (fdiv one (fadd one (fexp (fneg x)))) (fcst (1 # 2))
                  then 1%Z else 0%Z).
    exists (map lab raw).
    assert (Hi : forall (i : nat) (x : np_float),
               raw !! i = Some x -> map lab raw !! i = Some (lab x)).
    { intros i x Hx. by rewrite list_lookup_fmap, Hx. }
    destruct label_of_score as (Hneg & Hpos & Hpinf & Hninf & Hnan).
    split; [rewrite sigmoid_array, bind_Ok; cbn [threshold]; by rewrite map_map|].
    split; [by rewrite length_map|].
    split; [intros i r Hx Hr; rewrite (Hi i _ Hx); unfold lab; by rewrite Hneg|].
    split; [intros i r Hx Hr; rewrite (Hi i _ Hx); unfold lab; by rewrite Hpos|].
    split; [intros i Hx; rewrite (Hi i _ Hx); unfold lab; by rewrite Hpinf|].
    split; [intros i Hx; rewrite (Hi i _ Hx); unfold lab; by rewrite Hninf|].
    intros i Hx; rewrite (Hi i _ Hx); unfold lab; by rewrite Hnan.
  - intros x. eexists. rewrite sigmoid_scalar, bind_Ok. reflexivity.
Qed.

(** X16: after a search that returns, the final model of cell 12 is
    fitted on the configuration the best trial was cross-validated on,
    except for the round budget and the seed.  The dict passed to
    lgb.train agrees with the dict [objective] passed to lgb.cv in the
    best trial on every key other than num_boost_round and seed, and the
    focal-loss closure is the same function; num_boost_round is the number
    of rounds cross-validation completed; the seed that [objective] sets
    is not set for the final fit.  The predictions are the thresholded
    sigmoid of the scores of the model trained on that dict. *)
Theorem final_fit_uses_best_trial_configuration (n : nat) (s0 s1 : state)
    (best : loc) (trials : list trial) :
  search train f1_score lgb_cv suggest n s0 = (Ok (best, trials), s1) ->
  exists (bt : trial) (v1 v2 : pyval) (n1 n2 r : Z)
         (cv : gmap string (list np_float)) (hist : list np_float)
         (d2 : gmap string pyval) (s2 : state),
    let cfg := coerced (vals bt) n1 n2 in
    best_trial trials = Ok bt
    /\ vals bt !! "num_boost_round" = Some v1 /\ py_int v1 = Ok n1
    /\ vals bt !! "num_leaves" = Some v2 /\ py_int v2 = Ok n2
    /\ lgb_cv cfg train (PyInt n1) (focal_loss_of cfg)
         (lgb_focal_f1_score f1_score) 3 true 20 = Ok cv
    /\ cv !! "f1-mean" = Some hist
    /\ r = Z.of_nat (length hist)
    /\ cell_12 best trials s1 = (Ok (), s2)
    /\ heap s2 !! best = Some d2
    /\ cell_12_all' best trials s1 = cell_12_fit' best s2
    /\ cell_12_fit' best s2
       = (model ← lgb_train d2 train (focal_loss_of d2);
          raw ← predict model X_val;
          preds ← sigmoid raw;
          Ok (threshold preds), s2)
    /\ d2 !! "num_boost_round" = Some (PyInt r)
    /\ d2 !! "seed" = vals bt !! "seed"
    /\ (forall k : string,
          k <> "num_boost_round" -> k <> "seed" -> d2 !! k = cfg !! k)
    /\ (forall x y, focal_loss_of d2 x y = focal_loss_of cfg x y).
Proof.
  intros Hs.
  apply search_Ok_inv in Hs as (s & bt & (Hi & Hsz & Hdom & Htr) & Hlen & Hbt & Hb & ->).
  destruct (best_trial_lookup trials bt Hbt) as [j Hj].
  destruct (Htr j bt Hj) as (Ht & r & Hr & Hrr).
  destruct Hrr as (v1 & v2 & n1 & n2 & cv & hist & H1 & E1 & H2 & E2 & Hcv & Hh & Hlenh).
  set (s1 := set_heap _ s).
  assert (Hp : heap s1 !! best = Some (vals bt)) by apply lookup_insert_eq.
  pose proof (run_cell_12 best trials s1 bt r (vals bt) v2 n2 Hbt Hr Hp H2 E2) as Hc.
  set (d2 := <["verbose" := _]> _) in Hc. set (s2 := set_heap _ s1) in Hc.
  assert (Hp2 : heap s2 !! best = Some d2) by apply lookup_insert_eq.
  exists bt, v1, v2, n1, n2, r, cv, hist, d2, s2. cbv zeta.
  do 9 (split; [done|]).
  split; [done|].
  split; [unfold cell_12_all; by rewrite run_bind, Hc|].
  split; [by apply run_cell_12_fit|].
  split; [unfold d2; rewrite !lookup_insert_ne by done; apply lookup_insert_eq|].
  split; [unfold d2; by rewrite !lookup_insert_ne by done|].
  assert (Hk : forall k : string,
             k <> "num_boost_round" -> k <> "seed" ->
             d2 !! k = coerced (vals bt) n1 n2 !! k).
  { intros k K1 K2. unfold d2. rewrite lookup_coerced, !lookup_insert.
    repeat case_decide; congruence. }
  split; [exact Hk|].
  intros x y. unfold focal_loss_of, getitem. by rewrite !Hk by done.
Qed.

End RefitFacts.

Lemma final_predictions_witness :
  let s := mkState {[ 1%positive := sample_config ]} 0 ∅ in
  heap s !! 1%positive = Some sample_config
  /\ exists labels : list Z,
       cell_12_fit sample_train unit unit () (fun _ _ _ => Ok ())
         (fun _ _ => Ok (Array [Fin 3; Fin (-2); NaN])) 1%positive s
       = (Ok (Array labels), s)
       /\ labels !! 0%nat = Some 1%Z
       /\ labels !! 1%nat = Some 0%Z
       /\ labels !! 2%nat = Some 0%Z.
Proof.
  intros s. split; [reflexivity|].
  destruct (final_predictions sample_train unit unit ()
              (fun _ _ _ => Ok ())
              (fun _ _ => Ok (Array [Fin 3; Fin (-2); NaN])) 1%positive s
              sample_config eq_refl) as (Hrun & Hl & _).
  destruct (Hl [Fin 3; Fin (-2); NaN])
    as (labels & Hs & _ & Hneg & Hpos & _ & _ & Hnan).
  exists labels. split.
  - rewrite Hrun. cbn [mbind result_bind]. cbn [mbind result_bind] in Hs.
    by rewrite Hs.
  - split; [apply (Hpos 0%nat 3%R); [reflexivity | lra]|].
    split; [apply (Hneg 1%nat (-2)%R); [reflexivity | lra]|].
    apply (Hnan 2%nat). reflexivity.
Defined.

Lemma final_fit_uses_best_trial_configuration_witness :
  exists (best : loc) (trials : list trial) (s1 s2 : state)
         (d2 : gmap string pyval),
    search sample_train sample_f1_score (engine_stopping_with [Fin (1 / 2)])
      (fun _ => sample_config) 1 init_state = (Ok (best, trials), s1)
    /\ cell_12 best trials s1 = (Ok (), s2)
    /\ heap s2 !! best = Some d2
    /\ d2 !! "seed" = None
    /\ d2 !! "alpha" = Some (PyFloat (Fin (1 / 4))).
Proof.
  destruct sample_search as (best & s1 & Hs).
  destruct (final_fit_uses_best_trial_configuration sample_train sample_f1_score
              (engine_stopping_with [Fin (1 / 2)]) (fun _ => sample_config)
              unit unit () (fun _ _ _ => Ok ()) (fun _ _ => Ok (Scalar (Fin 0)))
              _ _ _ _ _ Hs)
    as (bt & v1 & v2 & n1 & n2 & r & cv & hist & d2 & s2 & Hbt & _ & _ & _ & _ & _
        & _ & _ & Hc & Hd & _ & _ & _ & Hseed & Hk & _).
  eexists best, _, s1, s2, d2.
  split; [exact Hs|]. split; [exact Hc|]. split; [exact Hd|].
  injection Hbt as <-. cbn [vals] in Hseed, Hk.
  split; [rewrite Hseed; reflexivity|].
  rewrite Hk by done. reflexivity.
Defined.
